(** * Olive renderer core: frame-cache scheduler, audio block renderer,
      project save task.

    Shallow embedding of
      - app/node/processor/renderer/renderer.cpp   (RendererProcessor)
      - app/render/backend/audiorenderworker.cpp   (AudioRenderWorker)
      - app/project/projectsavemanager.cpp         (ProjectSaveManager)
    followed by the properties established about them. *)

From Stdlib Require Import ZArith QArith Qround List Bool Lia Arith Lqa SetoidList Sorted.
From Stdlib Require Import Strings.String Strings.Ascii Strings.Byte.
From Stdlib Require Import Numbers.DecimalString Numbers.DecimalZ Numbers.DecimalPos.
From Stdlib Require Import Floats.SpecFloat.
Import ListNotations.

Set Implicit Arguments.

(* ================================================================== *)
(** * Part I -- the program                                            *)
(* ================================================================== *)

(** ** Outcomes of a call

    A call either returns a value, runs into behaviour the C++ standard
    leaves undefined (out-of-bounds write, division by zero, null
    dereference, out-of-range float-to-int conversion), or exhausts the
    iteration budget handed to its loops. *)

Inductive outcome (A : Type) : Type :=
| Done (a : A)
| Undefined
| OutOfFuel.

Arguments Done {A} a.
Arguments Undefined {A}.
Arguments OutOfFuel {A}.

Definition bind {A B : Type} (m : outcome A) (k : A -> outcome B) : outcome B :=
  match m with
  | Done a => k a
  | Undefined => Undefined
  | OutOfFuel => OutOfFuel
  end.

Declare Scope outcome_scope.
Delimit Scope outcome_scope with outcome.
Notation "x <- m ;; k" := (bind m (fun x => k))
  (at level 61, m at next level, right associativity) : outcome_scope.
Open Scope outcome_scope.

(** ** IEEE-754 binary64, the C++ [double]

    The operations are those of the Standard Library's executable
    specification of floating-point arithmetic, at precision 53 and
    maximal exponent 1024, rounding to nearest even. *)

Module Double.

Definition prec : Z := 53.
Definition emax : Z := 1024.

Definition double : Type := spec_float.

(** [static_cast<double>(n)] for an integer [n]. *)
Definition of_int (n : Z) : double := binary_normalize prec emax n 0 false.

Definition zero : double := S754_zero false.

Definition add (x y : double) : double := SFadd prec emax x y.
Definition mul (x y : double) : double := SFmul prec emax x y.
Definition div (x y : double) : double := SFdiv prec emax x y.
Definition ltb (x y : double) : bool := SFltb x y.

(** [std::floor] as an integer; no value for infinities and NaN. *)
Definition floor (x : double) : option Z :=
  match x with
  | S754_zero _ => Some 0%Z
  | S754_finite s m e => Some (Z.shiftl (cond_Zopp s (Zpos m)) e)
  | S754_infinity _ | S754_nan => None
  end.

Definition INT_MIN : Z := - 2 ^ 31.
Definition INT_MAX : Z := 2 ^ 31 - 1.

(** Qt's [qFloor]: [int(std::floor(v))].  The conversion to [int] of a
    value outside the range of [int] is undefined. *)
Definition qFloor (x : double) : outcome Z :=
  match floor x with
  | Some z => if ((INT_MIN <=? z) && (z <=? INT_MAX))%Z then Done z else Undefined
  | None => Undefined
  end.

End Double.

(** ** Rational time *)

Module Rational.

(** Modelled from the spec: the [rational] class, which is not part of
    the sources at hand.  A timestamp is an exact fraction kept in lowest
    terms ("exact rational number (numerator/denominator), not floating
    point"); comparison and addition are exact. *)
Definition rational : Type := Q.

Definition make (n : Z) (d : positive) : rational := Qred (n # d).
Definition numerator (r : rational) : Z := Qnum r.
Definition denominator (r : rational) : Z := Zpos (Qden r).

Definition add (a b : rational) : rational := Qred (a + b).
Definition sub (a b : rational) : rational := Qred (a - b).
Definition eqb (a b : rational) : bool := Qeq_bool a b.
Definition leb (a b : rational) : bool := Qle_bool a b.
Definition ltb (a b : rational) : bool := negb (Qle_bool b a).
Definition isNull (r : rational) : bool := (Qnum r =? 0)%Z.

(** Modelled from the spec: [rational::toDouble], the "conversion to
    floating point": the numerator divided by the denominator in double
    precision. *)
Definition toDouble (r : rational) : Double.double :=
  Double.div (Double.of_int (numerator r)) (Double.of_int (denominator r)).

(** [qMax] and [qMin] as Qt defines them, through [<]. *)
Definition qMax (a b : rational) : rational := if ltb a b then b else a.
Definition qMin (a b : rational) : rational := if ltb a b then a else b.

End Rational.

(** ** Byte arrays and raw memory

    [QByteArray] with the part of its interface the sources use, and the
    [memcpy]/[memset] calls made on its storage. *)

Module Bytes.

Definition QByteArray : Type := list byte.

Definition size (b : QByteArray) : Z := Z.of_nat (List.length b).

(** [QByteArray(size, ch)]: a non-positive size gives an empty array. *)
Definition filled (n : Z) (ch : byte) : QByteArray := repeat ch (Z.to_nat n).

(** [QByteArray::mid(pos, len)], with Qt's clipping of both arguments. *)
Definition mid (b : QByteArray) (pos len : Z) : QByteArray :=
  let n := size b in
  if (n <? pos)%Z then []
  else if (pos <? 0)%Z then
    if ((len <? 0) || (n <=? len + pos))%Z then b
    else if (len + pos <=? 0)%Z then []
    else firstn (Z.to_nat (len + pos)) b
  else
    let len' := if ((len <? 0) || (n - pos <? len))%Z then (n - pos)%Z else len in
    firstn (Z.to_nat len') (skipn (Z.to_nat pos) b).

(** The [n] bytes at offset [off] lie inside the array's storage. *)
Definition in_bounds (b : QByteArray) (off n : Z) : bool :=
  ((0 <=? off) && (0 <=? n) && (off + n <=? size b))%Z.

(** Reading [n] bytes at [b.data() + off]. *)
Definition peek (b : QByteArray) (off n : Z) : outcome (list byte) :=
  if in_bounds b off n
  then Done (firstn (Z.to_nat n) (skipn (Z.to_nat off) b))
  else Undefined.

(** [memcpy(b.data() + off, src, |src|)]: the array keeps its size; a
    write that leaves its storage is undefined. *)
Definition poke (b : QByteArray) (off : Z) (src : list byte) : outcome QByteArray :=
  if in_bounds b off (size src)
  then Done (firstn (Z.to_nat off) b ++ src
             ++ skipn (Z.to_nat off + List.length src) b)
  else Undefined.

(** [memset(b.data() + off, ch, n)]. *)
Definition memset (b : QByteArray) (off : Z) (ch : byte) (n : Z) : outcome QByteArray :=
  if (n <? 0)%Z then Undefined else poke b off (repeat ch (Z.to_nat n)).

End Bytes.

(** ** SHA-1 and hexadecimal output

    [QCryptographicHash(Sha1)] and [QByteArray::toHex] belong to Qt; they
    are written here after FIPS 180-4, on 32-bit words kept in [Z]. *)

Module Sha1.
Local Open Scope Z_scope.

Definition w32 (x : Z) : Z := x mod 2 ^ 32.

Definition rotl (n x : Z) : Z :=
  w32 (Z.lor (Z.shiftl x n) (Z.shiftr x (32 - n))).

Definition lnot32 (x : Z) : Z := Z.lxor x (2 ^ 32 - 1).

Definition Z_of_byte (b : byte) : Z := Z.of_N (Byte.to_N b).

Definition byte_of_Z (z : Z) : byte :=
  match Byte.of_N (Z.to_N z) with Some b => b | None => x00 end.

(** Big-endian bytes of [x], [n] of them. *)
Fixpoint be_bytes (n : nat) (x : Z) : list Z :=
  match n with
  | O => []
  | S n' => (Z.shiftr x (8 * Z.of_nat n')) mod 256 :: be_bytes n' x
  end.

Definition pad (msg : list Z) : list Z :=
  let len := Z.of_nat (List.length msg) in
  let zeros := Z.to_nat ((55 - len) mod 64) in
  msg ++ [128] ++ repeat 0 zeros ++ be_bytes 8 (8 * len).

Fixpoint words (fuel : nat) (bs : list Z) : list Z :=
  match fuel, bs with
  | S fuel', a :: b :: c :: d :: rest =>
      (Z.shiftl a 24 + Z.shiftl b 16 + Z.shiftl c 8 + d) :: words fuel' rest
  | _, _ => []
  end.

Definition f (t b c d : Z) : Z :=
  if t <? 20 then Z.lor (Z.land b c) (Z.land (lnot32 b) d)
  else if t <? 40 then Z.lxor (Z.lxor b c) d
  else if t <? 60 then Z.lor (Z.lor (Z.land b c) (Z.land b d)) (Z.land c d)
  else Z.lxor (Z.lxor b c) d.

Definition K (t : Z) : Z :=
  if t <? 20 then 0x5A827999
  else if t <? 40 then 0x6ED9EBA1
  else if t <? 60 then 0x8F1BBCDC
  else 0xCA62C1D6.

Record digest : Type := { h0 : Z; h1 : Z; h2 : Z; h3 : Z; h4 : Z }.

Definition init : digest :=
  {| h0 := 0x67452301; h1 := 0xEFCDAB89; h2 := 0x98BADCFE;
     h3 := 0x10325476; h4 := 0xC3D2E1F0 |}.

(** [window] holds the message schedule W[t] .. W[t+15]. *)
Fixpoint rounds (n : nat) (t : Z) (window : list Z) (v : digest) : digest :=
  match n, window with
  | S n', w :: rest =>
      let next := rotl 1 (Z.lxor (Z.lxor (Z.lxor (nth 12 rest 0) (nth 7 rest 0))
                                         (nth 1 rest 0)) w) in
      let temp := w32 (rotl 5 (h0 v) + f t (h1 v) (h2 v) (h3 v) + h4 v + K t + w) in
      rounds n' (t + 1) (rest ++ [next])
             {| h0 := temp; h1 := h0 v; h2 := rotl 30 (h1 v);
                h3 := h2 v; h4 := h3 v |}
  | _, _ => v
  end.

Definition compress (h : digest) (block : list Z) : digest :=
  let v := rounds 80 0 block h in
  {| h0 := w32 (h0 h + h0 v); h1 := w32 (h1 h + h1 v); h2 := w32 (h2 h + h2 v);
     h3 := w32 (h3 h + h3 v); h4 := w32 (h4 h + h4 v) |}.

Fixpoint blocks (fuel : nat) (ws : list Z) (h : digest) : digest :=
  match fuel, ws with
  | S fuel', _ :: _ => blocks fuel' (skipn 16 ws) (compress h (firstn 16 ws))
  | _, _ => h
  end.

Definition hash (msg : list byte) : list byte :=
  let p := pad (map Z_of_byte msg) in
  let ws := words (List.length p) p in
  let h := blocks (List.length ws) ws init in
  map byte_of_Z
      (be_bytes 4 (h0 h) ++ be_bytes 4 (h1 h) ++ be_bytes 4 (h2 h)
       ++ be_bytes 4 (h3 h) ++ be_bytes 4 (h4 h)).

Definition hex_digit (n : Z) : byte :=
  byte_of_Z (if n <? 10 then 48 + n else 87 + n).

(** [QByteArray::toHex]: two lower-case digits per byte. *)
Fixpoint toHex (bs : list byte) : list byte :=
  match bs with
  | [] => []
  | b :: rest =>
      hex_digit (Z_of_byte b / 16) :: hex_digit (Z_of_byte b mod 16) :: toHex rest
  end.

End Sha1.

(* ------------------------------------------------------------------ *)
(** ** renderer.cpp                                                    *)
(* ------------------------------------------------------------------ *)

Module Renderer.
Import Rational Bytes.

(** *** Collaborators

    The render and download threads, the texture, the pixel service
    and the node graph are declared outside the sources at hand.  What
    the scheduler reads from them is kept; what they compute is taken
    from the environment. *)

Inductive RenderMode : Type := kOffline | kOnline.

(** [olive::PixelFormat], by the integer value of the enumerator. *)
Definition PixelFormat : Type := Z.

Record NodeDependency : Type := { dep_node : nat; dep_time : rational }.

Record RenderTexture : Type := {
  tex_width : Z;
  tex_height : Z;
  tex_format : PixelFormat;
  tex_pixels : QByteArray
}.

(** A work item of a render thread: the dependency and whether it is
    the scheduler's primary request. *)
Definition work_item : Type := (NodeDependency * bool)%type.

Record RendererProcessThread : Type := {
  thread_id : nat;
  thread_width : Z;
  thread_height : Z;
  thread_format : PixelFormat;
  thread_mode : RenderMode;
  thread_queue : list work_item
}.

Record RendererDownloadThread : Type := {
  download_id : nat;
  download_queue : list (RenderTexture * string)
}.

Inductive NodeOutput : Type := texture_output_ | other_output (id : nat).

Inductive QVariant : Type :=
| VInt (n : Z)
| VTexture (t : RenderTexture).

Inductive log_entry : Type :=
| Debug_invalidated (start_range end_range : Double.double)
| Debug_caching (frame : Double.double)
| Warning (msg : string).

(** What the surroundings answer when asked. *)
Record Env : Type := {
  idealThreadCount : Z;
  GetBufferSize : PixelFormat -> Z -> Z -> Z;
  GetMediaCacheLocation : string;
  open_image : string -> option QByteArray;
  get_value : rational -> option RenderTexture
}.

(** *** The object and the world around it *)

Record RendererProcessor : Type := {
  started_ : bool;
  width_ : Z;
  height_ : Z;
  divider_ : Z;
  effective_width_ : Z;
  effective_height_ : Z;
  format_ : PixelFormat;
  mode_ : RenderMode;
  caching_ : bool;
  cache_name_ : string;
  cache_time_ : Z;
  cache_id_ : string;
  timebase_ : rational;
  cache_queue_ : list rational;
  cache_frame_ : rational;
  threads_ : list RendererProcessThread;
  download_threads_ : list RendererDownloadThread;
  last_download_thread_ : Z;
  master_thread_ : option nat;
  master_texture_ : option RenderTexture;
  cache_frame_load_buffer_ : QByteArray
}.

(** [this] is the processor; the rest is what its methods touch
    outside of it: the connection of the texture input, the message
    log, the cache directories and files on disk, the [FinishedPath]
    signals queued for delivery (by sender), and the supply of fresh
    object identities. *)
Record World : Type := {
  this : RendererProcessor;
  connected_output : option nat;
  log : list log_entry;
  directories : list string;
  files : list string;
  signals : list nat;
  next_object : nat
}.

Definition set_started_ (v : bool) (r : RendererProcessor) : RendererProcessor :=
  {| started_ := v; width_ := width_ r; height_ := height_ r;
     divider_ := divider_ r; effective_width_ := effective_width_ r;
     effective_height_ := effective_height_ r; format_ := format_ r;
     mode_ := mode_ r; caching_ := caching_ r;
     cache_name_ := cache_name_ r; cache_time_ := cache_time_ r;
     cache_id_ := cache_id_ r; timebase_ := timebase_ r;
     cache_queue_ := cache_queue_ r; cache_frame_ := cache_frame_ r;
     threads_ := threads_ r;
     download_threads_ := download_threads_ r;
     last_download_thread_ := last_download_thread_ r;
     master_thread_ := master_thread_ r;
     master_texture_ := master_texture_ r;
     cache_frame_load_buffer_ := cache_frame_load_buffer_ r |}.

Definition set_width_ (v : Z) (r : RendererProcessor) : RendererProcessor :=
  {| started_ := started_ r; width_ := v; height_ := height_ r;
     divider_ := divider_ r; effective_width_ := effective_width_ r;
     effective_height_ := effective_height_ r; format_ := format_ r;
     mode_ := mode_ r; caching_ := caching_ r;
     cache_name_ := cache_name_ r; cache_time_ := cache_time_ r;
     cache_id_ := cache_id_ r; timebase_ := timebase_ r;
     cache_queue_ := cache_queue_ r; cache_frame_ := cache_frame_ r;
     threads_ := threads_ r;
     download_threads_ := download_threads_ r;
     last_download_thread_ := last_download_thread_ r;
     master_thread_ := master_thread_ r;
     master_texture_ := master_texture_ r;
     cache_frame_load_buffer_ := cache_frame_load_buffer_ r |}.

Definition set_height_ (v : Z) (r : RendererProcessor) : RendererProcessor :=
  {| started_ := started_ r; width_ := width_ r; height_ := v;
     divider_ := divider_ r; effective_width_ := effective_width_ r;
     effective_height_ := effective_height_ r; format_ := format_ r;
     mode_ := mode_ r; caching_ := caching_ r;
     cache_name_ := cache_name_ r; cache_time_ := cache_time_ r;
     cache_id_ := cache_id_ r; timebase_ := timebase_ r;
     cache_queue_ := cache_queue_ r; cache_frame_ := cache_frame_ r;
     threads_ := threads_ r;
     download_threads_ := download_threads_ r;
     last_download_thread_ := last_download_thread_ r;
     master_thread_ := master_thread_ r;
     master_texture_ := master_texture_ r;
     cache_frame_load_buffer_ := cache_frame_load_buffer_ r |}.

Definition set_divider_ (v : Z) (r : RendererProcessor) : RendererProcessor :=
  {| started_ := started_ r; width_ := width_ r; height_ := height_ r;
     divider_ := v; effective_width_ := effective_width_ r;
     effective_height_ := effective_height_ r; format_ := format_ r;
     mode_ := mode_ r; caching_ := caching_ r;
     cache_name_ := cache_name_ r; cache_time_ := cache_time_ r;
     cache_id_ := cache_id_ r; timebase_ := timebase_ r;
     cache_queue_ := cache_queue_ r; cache_frame_ := cache_frame_ r;
     threads_ := threads_ r;
     download_threads_ := download_threads_ r;
     last_download_thread_ := last_download_thread_ r;
     master_thread_ := master_thread_ r;
     master_texture_ := master_texture_ r;
     cache_frame_load_buffer_ := cache_frame_load_buffer_ r |}.

Definition set_effective_width_ (v : Z) (r : RendererProcessor) : RendererProcessor :=
  {| started_ := started_ r; width_ := width_ r; height_ := height_ r;
     divider_ := divider_ r; effective_width_ := v;
     effective_height_ := effective_height_ r; format_ := format_ r;
     mode_ := mode_ r; caching_ := caching_ r;
     cache_name_ := cache_name_ r; cache_time_ := cache_time_ r;
     cache_id_ := cache_id_ r; timebase_ := timebase_ r;
     cache_queue_ := cache_queue_ r; cache_frame_ := cache_frame_ r;
     threads_ := threads_ r;
     download_threads_ := download_threads_ r;
     last_download_thread_ := last_download_thread_ r;
     master_thread_ := master_thread_ r;
     master_texture_ := master_texture_ r;
     cache_frame_load_buffer_ := cache_frame_load_buffer_ r |}.

Definition set_effective_height_ (v : Z) (r : RendererProcessor) : RendererProcessor :=
  {| started_ := started_ r; width_ := width_ r; height_ := height_ r;
     divider_ := divider_ r; effective_width_ := effective_width_ r;
     effective_height_ := v; format_ := format_ r; mode_ := mode_ r;
     caching_ := caching_ r; cache_name_ := cache_name_ r;
     cache_time_ := cache_time_ r; cache_id_ := cache_id_ r;
     timebase_ := timebase_ r; cache_queue_ := cache_queue_ r;
     cache_frame_ := cache_frame_ r; threads_ := threads_ r;
     download_threads_ := download_threads_ r;
     last_download_thread_ := last_download_thread_ r;
     master_thread_ := master_thread_ r;
     master_texture_ := master_texture_ r;
     cache_frame_load_buffer_ := cache_frame_load_buffer_ r |}.

Definition set_format_ (v : PixelFormat) (r : RendererProcessor) : RendererProcessor :=
  {| started_ := started_ r; width_ := width_ r; height_ := height_ r;
     divider_ := divider_ r; effective_width_ := effective_width_ r;
     effective_height_ := effective_height_ r; format_ := v;
     mode_ := mode_ r; caching_ := caching_ r;
     cache_name_ := cache_name_ r; cache_time_ := cache_time_ r;
     cache_id_ := cache_id_ r; timebase_ := timebase_ r;
     cache_queue_ := cache_queue_ r; cache_frame_ := cache_frame_ r;
     threads_ := threads_ r;
     download_threads_ := download_threads_ r;
     last_download_thread_ := last_download_thread_ r;
     master_thread_ := master_thread_ r;
     master_texture_ := master_texture_ r;
     cache_frame_load_buffer_ := cache_frame_load_buffer_ r |}.

Definition set_mode_ (v : RenderMode) (r : RendererProcessor) : RendererProcessor :=
  {| started_ := started_ r; width_ := width_ r; height_ := height_ r;
     divider_ := divider_ r; effective_width_ := effective_width_ r;
     effective_height_ := effective_height_ r; format_ := format_ r;
     mode_ := v; caching_ := caching_ r;
     cache_name_ := cache_name_ r; cache_time_ := cache_time_ r;
     cache_id_ := cache_id_ r; timebase_ := timebase_ r;
     cache_queue_ := cache_queue_ r; cache_frame_ := cache_frame_ r;
     threads_ := threads_ r;
     download_threads_ := download_threads_ r;
     last_download_thread_ := last_download_thread_ r;
     master_thread_ := master_thread_ r;
     master_texture_ := master_texture_ r;
     cache_frame_load_buffer_ := cache_frame_load_buffer_ r |}.

Definition set_caching_ (v : bool) (r : RendererProcessor) : RendererProcessor :=
  {| started_ := started_ r; width_ := width_ r; height_ := height_ r;
     divider_ := divider_ r; effective_width_ := effective_width_ r;
     effective_height_ := effective_height_ r; format_ := format_ r;
     mode_ := mode_ r; caching_ := v; cache_name_ := cache_name_ r;
     cache_time_ := cache_time_ r; cache_id_ := cache_id_ r;
     timebase_ := timebase_ r; cache_queue_ := cache_queue_ r;
     cache_frame_ := cache_frame_ r; threads_ := threads_ r;
     download_threads_ := download_threads_ r;
     last_download_thread_ := last_download_thread_ r;
     master_thread_ := master_thread_ r;
     master_texture_ := master_texture_ r;
     cache_frame_load_buffer_ := cache_frame_load_buffer_ r |}.

Definition set_cache_name_ (v : string) (r : RendererProcessor) : RendererProcessor :=
  {| started_ := started_ r; width_ := width_ r; height_ := height_ r;
     divider_ := divider_ r; effective_width_ := effective_width_ r;
     effective_height_ := effective_height_ r; format_ := format_ r;
     mode_ := mode_ r; caching_ := caching_ r; cache_name_ := v;
     cache_time_ := cache_time_ r; cache_id_ := cache_id_ r;
     timebase_ := timebase_ r; cache_queue_ := cache_queue_ r;
     cache_frame_ := cache_frame_ r; threads_ := threads_ r;
     download_threads_ := download_threads_ r;
     last_download_thread_ := last_download_thread_ r;
     master_thread_ := master_thread_ r;
     master_texture_ := master_texture_ r;
     cache_frame_load_buffer_ := cache_frame_load_buffer_ r |}.

Definition set_cache_time_ (v : Z) (r : RendererProcessor) : RendererProcessor :=
  {| started_ := started_ r; width_ := width_ r; height_ := height_ r;
     divider_ := divider_ r; effective_width_ := effective_width_ r;
     effective_height_ := effective_height_ r; format_ := format_ r;
     mode_ := mode_ r; caching_ := caching_ r;
     cache_name_ := cache_name_ r; cache_time_ := v;
     cache_id_ := cache_id_ r; timebase_ := timebase_ r;
     cache_queue_ := cache_queue_ r; cache_frame_ := cache_frame_ r;
     threads_ := threads_ r;
     download_threads_ := download_threads_ r;
     last_download_thread_ := last_download_thread_ r;
     master_thread_ := master_thread_ r;
     master_texture_ := master_texture_ r;
     cache_frame_load_buffer_ := cache_frame_load_buffer_ r |}.

Definition set_cache_id_ (v : string) (r : RendererProcessor) : RendererProcessor :=
  {| started_ := started_ r; width_ := width_ r; height_ := height_ r;
     divider_ := divider_ r; effective_width_ := effective_width_ r;
     effective_height_ := effective_height_ r; format_ := format_ r;
     mode_ := mode_ r; caching_ := caching_ r;
     cache_name_ := cache_name_ r; cache_time_ := cache_time_ r;
     cache_id_ := v; timebase_ := timebase_ r;
     cache_queue_ := cache_queue_ r; cache_frame_ := cache_frame_ r;
     threads_ := threads_ r;
     download_threads_ := download_threads_ r;
     last_download_thread_ := last_download_thread_ r;
     master_thread_ := master_thread_ r;
     master_texture_ := master_texture_ r;
     cache_frame_load_buffer_ := cache_frame_load_buffer_ r |}.

Definition set_timebase_ (v : rational) (r : RendererProcessor) : RendererProcessor :=
  {| started_ := started_ r; width_ := width_ r; height_ := height_ r;
     divider_ := divider_ r; effective_width_ := effective_width_ r;
     effective_height_ := effective_height_ r; format_ := format_ r;
     mode_ := mode_ r; caching_ := caching_ r;
     cache_name_ := cache_name_ r; cache_time_ := cache_time_ r;
     cache_id_ := cache_id_ r; timebase_ := v;
     cache_queue_ := cache_queue_ r; cache_frame_ := cache_frame_ r;
     threads_ := threads_ r;
     download_threads_ := download_threads_ r;
     last_download_thread_ := last_download_thread_ r;
     master_thread_ := master_thread_ r;
     master_texture_ := master_texture_ r;
     cache_frame_load_buffer_ := cache_frame_load_buffer_ r |}.

Definition set_cache_queue_ (v : list rational) (r : RendererProcessor) : RendererProcessor :=
  {| started_ := started_ r; width_ := width_ r; height_ := height_ r;
     divider_ := divider_ r; effective_width_ := effective_width_ r;
     effective_height_ := effective_height_ r; format_ := format_ r;
     mode_ := mode_ r; caching_ := caching_ r;
     cache_name_ := cache_name_ r; cache_time_ := cache_time_ r;
     cache_id_ := cache_id_ r; timebase_ := timebase_ r;
     cache_queue_ := v; cache_frame_ := cache_frame_ r;
     threads_ := threads_ r;
     download_threads_ := download_threads_ r;
     last_download_thread_ := last_download_thread_ r;
     master_thread_ := master_thread_ r;
     master_texture_ := master_texture_ r;
     cache_frame_load_buffer_ := cache_frame_load_buffer_ r |}.

Definition set_cache_frame_ (v : rational) (r : RendererProcessor) : RendererProcessor :=
  {| started_ := started_ r; width_ := width_ r; height_ := height_ r;
     divider_ := divider_ r; effective_width_ := effective_width_ r;
     effective_height_ := effective_height_ r; format_ := format_ r;
     mode_ := mode_ r; caching_ := caching_ r;
     cache_name_ := cache_name_ r; cache_time_ := cache_time_ r;
     cache_id_ := cache_id_ r; timebase_ := timebase_ r;
     cache_queue_ := cache_queue_ r; cache_frame_ := v;
     threads_ := threads_ r;
     download_threads_ := download_threads_ r;
     last_download_thread_ := last_download_thread_ r;
     master_thread_ := master_thread_ r;
     master_texture_ := master_texture_ r;
     cache_frame_load_buffer_ := cache_frame_load_buffer_ r |}.

Definition set_threads_ (v : list RendererProcessThread) (r : RendererProcessor) : RendererProcessor :=
  {| started_ := started_ r; width_ := width_ r; height_ := height_ r;
     divider_ := divider_ r; effective_width_ := effective_width_ r;
     effective_height_ := effective_height_ r; format_ := format_ r;
     mode_ := mode_ r; caching_ := caching_ r;
     cache_name_ := cache_name_ r; cache_time_ := cache_time_ r;
     cache_id_ := cache_id_ r; timebase_ := timebase_ r;
     cache_queue_ := cache_queue_ r; cache_frame_ := cache_frame_ r;
     threads_ := v; download_threads_ := download_threads_ r;
     last_download_thread_ := last_download_thread_ r;
     master_thread_ := master_thread_ r;
     master_texture_ := master_texture_ r;
     cache_frame_load_buffer_ := cache_frame_load_buffer_ r |}.

Definition set_download_threads_ (v : list RendererDownloadThread) (r : RendererProcessor) : RendererProcessor :=
  {| started_ := started_ r; width_ := width_ r; height_ := height_ r;
     divider_ := divider_ r; effective_width_ := effective_width_ r;
     effective_height_ := effective_height_ r; format_ := format_ r;
     mode_ := mode_ r; caching_ := caching_ r;
     cache_name_ := cache_name_ r; cache_time_ := cache_time_ r;
     cache_id_ := cache_id_ r; timebase_ := timebase_ r;
     cache_queue_ := cache_queue_ r; cache_frame_ := cache_frame_ r;
     threads_ := threads_ r; download_threads_ := v;
     last_download_thread_ := last_download_thread_ r;
     master_thread_ := master_thread_ r;
     master_texture_ := master_texture_ r;
     cache_frame_load_buffer_ := cache_frame_load_buffer_ r |}.

Definition set_last_download_thread_ (v : Z) (r : RendererProcessor) : RendererProcessor :=
  {| started_ := started_ r; width_ := width_ r; height_ := height_ r;
     divider_ := divider_ r; effective_width_ := effective_width_ r;
     effective_height_ := effective_height_ r; format_ := format_ r;
     mode_ := mode_ r; caching_ := caching_ r;
     cache_name_ := cache_name_ r; cache_time_ := cache_time_ r;
     cache_id_ := cache_id_ r; timebase_ := timebase_ r;
     cache_queue_ := cache_queue_ r; cache_frame_ := cache_frame_ r;
     threads_ := threads_ r;
     download_threads_ := download_threads_ r;
     last_download_thread_ := v; master_thread_ := master_thread_ r;
     master_texture_ := master_texture_ r;
     cache_frame_load_buffer_ := cache_frame_load_buffer_ r |}.

Definition set_master_thread_ (v : option nat) (r : RendererProcessor) : RendererProcessor :=
  {| started_ := started_ r; width_ := width_ r; height_ := height_ r;
     divider_ := divider_ r; effective_width_ := effective_width_ r;
     effective_height_ := effective_height_ r; format_ := format_ r;
     mode_ := mode_ r; caching_ := caching_ r;
     cache_name_ := cache_name_ r; cache_time_ := cache_time_ r;
     cache_id_ := cache_id_ r; timebase_ := timebase_ r;
     cache_queue_ := cache_queue_ r; cache_frame_ := cache_frame_ r;
     threads_ := threads_ r;
     download_threads_ := download_threads_ r;
     last_download_thread_ := last_download_thread_ r;
     master_thread_ := v; master_texture_ := master_texture_ r;
     cache_frame_load_buffer_ := cache_frame_load_buffer_ r |}.

Definition set_master_texture_ (v : option RenderTexture) (r : RendererProcessor) : RendererProcessor :=
  {| started_ := started_ r; width_ := width_ r; height_ := height_ r;
     divider_ := divider_ r; effective_width_ := effective_width_ r;
     effective_height_ := effective_height_ r; format_ := format_ r;
     mode_ := mode_ r; caching_ := caching_ r;
     cache_name_ := cache_name_ r; cache_time_ := cache_time_ r;
     cache_id_ := cache_id_ r; timebase_ := timebase_ r;
     cache_queue_ := cache_queue_ r; cache_frame_ := cache_frame_ r;
     threads_ := threads_ r;
     download_threads_ := download_threads_ r;
     last_download_thread_ := last_download_thread_ r;
     master_thread_ := master_thread_ r; master_texture_ := v;
     cache_frame_load_buffer_ := cache_frame_load_buffer_ r |}.

Definition set_cache_frame_load_buffer_ (v : QByteArray) (r : RendererProcessor) : RendererProcessor :=
  {| started_ := started_ r; width_ := width_ r; height_ := height_ r;
     divider_ := divider_ r; effective_width_ := effective_width_ r;
     effective_height_ := effective_height_ r; format_ := format_ r;
     mode_ := mode_ r; caching_ := caching_ r;
     cache_name_ := cache_name_ r; cache_time_ := cache_time_ r;
     cache_id_ := cache_id_ r; timebase_ := timebase_ r;
     cache_queue_ := cache_queue_ r; cache_frame_ := cache_frame_ r;
     threads_ := threads_ r;
     download_threads_ := download_threads_ r;
     last_download_thread_ := last_download_thread_ r;
     master_thread_ := master_thread_ r;
     master_texture_ := master_texture_ r;
     cache_frame_load_buffer_ := v |}.

Definition set_this (v : RendererProcessor) (r : World) : World :=
  {| this := v; connected_output := connected_output r; log := log r;
     directories := directories r; files := files r;
     signals := signals r; next_object := next_object r |}.

Definition set_connected_output (v : option nat) (r : World) : World :=
  {| this := this r; connected_output := v; log := log r;
     directories := directories r; files := files r;
     signals := signals r; next_object := next_object r |}.

Definition set_log (v : list log_entry) (r : World) : World :=
  {| this := this r; connected_output := connected_output r; log := v;
     directories := directories r; files := files r;
     signals := signals r; next_object := next_object r |}.

Definition set_directories (v : list string) (r : World) : World :=
  {| this := this r; connected_output := connected_output r; log := log r;
     directories := v; files := files r; signals := signals r;
     next_object := next_object r |}.

Definition set_files (v : list string) (r : World) : World :=
  {| this := this r; connected_output := connected_output r; log := log r;
     directories := directories r; files := v; signals := signals r;
     next_object := next_object r |}.

Definition set_signals (v : list nat) (r : World) : World :=
  {| this := this r; connected_output := connected_output r; log := log r;
     directories := directories r; files := files r; signals := v;
     next_object := next_object r |}.

Definition set_next_object (v : nat) (r : World) : World :=
  {| this := this r; connected_output := connected_output r; log := log r;
     directories := directories r; files := files r;
     signals := signals r; next_object := v |}.

(** Updating the processor inside the world. *)
Definition on_this (f : RendererProcessor -> RendererProcessor) (w : World) : World :=
  set_this (f (this w)) w.

Definition write_log (e : log_entry) (w : World) : World :=
  set_log (log w ++ [e]) w.

(** [QString::number] of an integer, and the UTF-8 bytes of a string. *)
Definition number (z : Z) : string := NilZero.string_of_int (Z.to_int z).
Definition toUtf8 (s : string) : QByteArray := list_byte_of_string s.

Definition isEmpty (s : string) : bool :=
  match s with EmptyString => true | String _ _ => false end.

Definition INT64_MIN : Z := - 2 ^ 63.
Definition INT64_MAX : Z := 2 ^ 63 - 1.

(** Division of two [int]s: truncating; undefined on a zero divisor
    and on the one quotient that does not fit. *)
Definition int_div (a b : Z) : outcome Z :=
  if (b =? 0)%Z then Undefined
  else if ((a =? Double.INT_MIN) && (b =? -1))%Z then Undefined
  else Done (Z.quot a b).

(** *** The render threads *)

Definition new_thread (id : nat) (w h : Z) (f : PixelFormat) (m : RenderMode)
  : RendererProcessThread :=
  {| thread_id := id; thread_width := w; thread_height := h;
     thread_format := f; thread_mode := m; thread_queue := [] |}.

(** Modelled from the spec: [RendererProcessThread::Queue], which is not
    part of the sources at hand.  "A worker only accepts non-primary
    items if it is currently idle; primary items are always accepted";
    the items wait in a private queue served front to back. *)
Definition Queue (t : RendererProcessThread) (dep : NodeDependency) (primary : bool)
  : bool * RendererProcessThread :=
  match primary, thread_queue t with
  | false, _ :: _ => (false, t)
  | _, q =>
      (true,
       {| thread_id := thread_id t; thread_width := thread_width t;
          thread_height := thread_height t; thread_format := thread_format t;
          thread_mode := thread_mode t; thread_queue := q ++ [(dep, primary)] |})
  end.

Arguments Queue : simpl never.

(** Modelled from the spec: the loop of [RendererProcessThread], which is
    not part of the sources at hand.  The thread [tid] completes the item
    at the front of its queue; the result says whether it was primary. *)
Fixpoint complete_front (tid : nat) (ts : list RendererProcessThread)
  : option (bool * list RendererProcessThread) :=
  match ts with
  | [] => None
  | t :: rest =>
      if Nat.eqb (thread_id t) tid then
        match thread_queue t with
        | [] => None
        | (_, primary) :: q =>
            Some (primary,
                  {| thread_id := thread_id t; thread_width := thread_width t;
                     thread_height := thread_height t;
                     thread_format := thread_format t;
                     thread_mode := thread_mode t; thread_queue := q |} :: rest)
        end
      else
        match complete_front tid rest with
        | Some (primary, rest') => Some (primary, t :: rest')
        | None => None
        end
  end.

(** Modelled from the spec: "on completion of a primary item the worker
    signals completion back to the Cache Scheduler on the scheduler's own
    execution context": [FinishedPath] joins the queued signals. *)
Definition worker_done (w : World) (tid : nat) : outcome World :=
  match complete_front tid (threads_ (this w)) with
  | None => Undefined
  | Some (primary, ts) =>
      let w1 := on_this (set_threads_ ts) w in
      Done (if primary then set_signals (signals w1 ++ [tid]) w1 else w1)
  end.

Definition download_Queue (t : RendererDownloadThread) (tex : RenderTexture)
           (fn : string) : RendererDownloadThread :=
  {| download_id := download_id t;
     download_queue := download_queue t ++ [(tex, fn)] |}.

Fixpoint update_nth {A : Type} (n : nat) (f : A -> A) (l : list A) : list A :=
  match l, n with
  | [], _ => []
  | x :: rest, O => f x :: rest
  | x :: rest, S n' => x :: update_nth n' f rest
  end.

(** *** The constructor

    It initialises [started_], [width_], [height_], [divider_] and
    [caching_]; strings, rationals, vectors and shared pointers start
    empty; the remaining integers, enumerators and the raw pointer
    [master_thread_] hold whatever [g] says. *)
Definition new_RendererProcessor (g : RendererProcessor) : RendererProcessor :=
  {| started_ := false; width_ := 0; height_ := 0; divider_ := 1;
     effective_width_ := effective_width_ g;
     effective_height_ := effective_height_ g;
     format_ := format_ g; mode_ := mode_ g;
     caching_ := false;
     cache_name_ := EmptyString; cache_time_ := cache_time_ g;
     cache_id_ := EmptyString;
     timebase_ := 0; cache_queue_ := []; cache_frame_ := 0;
     threads_ := []; download_threads_ := [];
     last_download_thread_ := last_download_thread_ g;
     master_thread_ := master_thread_ g;
     master_texture_ := None; cache_frame_load_buffer_ := [] |}.

Definition new_World (g : RendererProcessor) : World :=
  {| this := new_RendererProcessor g; connected_output := None; log := [];
     directories := []; files := []; signals := []; next_object := 0 |}.

(** *** Methods *)

Definition GenerateCacheIDInternal (r : RendererProcessor) : RendererProcessor :=
  if isEmpty (cache_name_ r) || (effective_width_ r =? 0)%Z
     || (effective_height_ r =? 0)%Z
  then r
  else
    let data :=
      toUtf8 (cache_name_ r)
      ++ toUtf8 (number (cache_time_ r))
      ++ toUtf8 (number (width_ r))
      ++ toUtf8 (number (height_ r))
      ++ toUtf8 (number (format_ r))
      ++ toUtf8 (number (divider_ r)) in
    let bytes := Sha1.hash data in
    set_cache_id_ (string_of_list_byte (Sha1.toHex bytes)) r.

(** [now] is [QDateTime::currentMSecsSinceEpoch()]. *)
Definition SetCacheName (s : string) (now : Z) (r : RendererProcessor)
  : RendererProcessor :=
  GenerateCacheIDInternal (set_cache_time_ now (set_cache_name_ s r)).

Definition CalculateEffectiveDimensions (r : RendererProcessor)
  : outcome RendererProcessor :=
  ew <- int_div (width_ r) (divider_ r) ;;
  eh <- int_div (height_ r) (divider_ r) ;;
  Done (set_effective_height_ eh (set_effective_width_ ew r)).

(** Cancelled threads are dropped with the pools that owned them. *)
Definition Stop (r : RendererProcessor) : RendererProcessor :=
  if negb (started_ r) then r
  else
    set_cache_frame_load_buffer_ []
      (set_master_texture_ None
        (set_threads_ []
          (set_download_threads_ []
            (set_started_ false r)))).

Definition Release (r : RendererProcessor) : RendererProcessor := Stop r.

Definition SetTimebase (timebase : rational) (r : RendererProcessor)
  : RendererProcessor :=
  set_timebase_ timebase r.

Definition SetParameters (width height : Z) (format : PixelFormat)
           (mode : RenderMode) (divider : Z) (r : RendererProcessor)
  : outcome RendererProcessor :=
  let r := Stop r in
  let r := set_mode_ mode (set_format_ format (set_height_ height (set_width_ width r))) in
  let r := if (0 <? divider)%Z then set_divider_ divider r else r in
  r <- CalculateEffectiveDimensions r ;;
  Done (GenerateCacheIDInternal r).

(** [Q_ASSERT(divider_ > 0)] is on the member, not on the argument.
    The branch of the failed assertion stands for a build with
    assertions, where the call does not return; the macro expands to
    nothing under [QT_NO_DEBUG].  With a positive member the builds
    agree, and what is stated of [SetDivider] below takes the member
    positive. *)
Definition SetDivider (divider : Z) (r : RendererProcessor)
  : outcome RendererProcessor :=
  if negb (0 <? divider_ r)%Z then Undefined
  else
    let r := Stop r in
    let r := set_divider_ divider r in
    r <- CalculateEffectiveDimensions r ;;
    Done (GenerateCacheIDInternal r).

Definition Start (env : Env) (w : World) : World :=
  let r := this w in
  if started_ r then w
  else
    let background_thread_count := Z.to_nat (idealThreadCount env) in
    let first := next_object w in
    let threads :=
      map (fun i => new_thread (first + i) (effective_width_ r)
                               (effective_height_ r) (format_ r) (mode_ r))
          (seq 0 background_thread_count) in
    let download_threads :=
      map (fun i => {| download_id := first + background_thread_count + i;
                       download_queue := [] |})
          (seq 0 background_thread_count) in
    let master_texture :=
      {| tex_width := effective_width_ r; tex_height := effective_height_ r;
         tex_format := format_ r; tex_pixels := [] |} in
    let buffer :=
      filled (GetBufferSize env (format_ r) (effective_width_ r)
                            (effective_height_ r)) x00 in
    set_next_object (first + 2 * background_thread_count + 1)
      (on_this
         (fun r =>
            set_started_ true
              (set_cache_frame_load_buffer_ buffer
                (set_master_texture_ (Some master_texture)
                  (set_last_download_thread_ 0
                    (set_download_threads_ download_threads
                      (set_threads_ threads r))))))
         w).

(** [QDir(dir).filePath(name)]. *)
Definition filePath (dir name : string) : string := (dir ++ "/" ++ name)%string.

Definition mkpath (dir : string) (w : World) : World :=
  if existsb (String.eqb dir) (directories w) then w
  else set_directories (dir :: directories w) w.

Definition CachePathName (env : Env) (time : rational) (w : World) : string * World :=
  let this_cache_dir := filePath (GetMediaCacheLocation env) (cache_id_ (this w)) in
  let w := mkpath this_cache_dir w in
  let filename :=
    (number (numerator time) ++ "." ++ number (denominator time) ++ ".exr")%string in
  (filePath this_cache_dir filename, w).

Definition file_exists (fn : string) (w : World) : bool :=
  existsb (String.eqb fn) (files w).

Definition remove_file (fn : string) (w : World) : World :=
  set_files (filter (fun f => negb (String.eqb fn f)) (files w)) w.

Definition CacheNext (env : Env) (w : World) : outcome World :=
  match cache_queue_ (this w), connected_output w, caching_ (this w) with
  | first :: rest, Some connected, false =>
      (* Make sure cache has started *)
      let w := Start env w in
      let w := on_this (fun r => set_cache_frame_ first (set_cache_queue_ rest r)) w in
      let w := write_log (Debug_caching (toDouble first)) w in
      match threads_ (this w) with
      | [] => Undefined
      | master :: others =>
          let dep := {| dep_node := connected; dep_time := first |} in
          let master' := snd (Queue master dep true) in
          Done (on_this
                  (fun r =>
                     set_caching_ true
                       (set_threads_ (master' :: others)
                         (set_master_thread_ (Some (thread_id master)) r)))
                  w)
      end
  | _, _, _ => Done w
  end.

(** *** Invalidation *)

Definition contains (q : list rational) (r : rational) : bool := existsb (eqb r) q.

(** The snapped start of the range. *)
Definition snap_start (timebase_ start_range : rational) : outcome rational :=
  let start_range_dbl := toDouble start_range in
  let start_range_numf :=
    Double.mul start_range_dbl (Double.of_int (denominator timebase_)) in
  fl <- Double.qFloor
          (Double.div start_range_numf (Double.of_int (numerator timebase_))) ;;
  let start_range_numround := (fl * numerator timebase_)%Z in
  if ((INT64_MIN <=? start_range_numround) && (start_range_numround <=? INT64_MAX))%Z
  then Done (make start_range_numround (Qden timebase_))
  else Undefined.

(** [for (rational r = true_start_range; r <= end_range; r += timebase_)]. *)
Fixpoint enqueue_loop (fuel : nat) (timebase_ end_range r : rational)
         (cache_queue_ : list rational) : outcome (list rational) :=
  match fuel with
  | O => OutOfFuel
  | S fuel' =>
      if leb r end_range then
        let q := if contains cache_queue_ r then cache_queue_
                 else cache_queue_ ++ [r] in
        enqueue_loop fuel' timebase_ end_range (add r timebase_) q
      else Done cache_queue_
  end.

(** Lines 127-137: snapping and the loop. *)
Definition InvalidateCache_enqueue (fuel : nat) (start_range end_range : rational)
           (r : RendererProcessor) : outcome RendererProcessor :=
  true_start_range <- snap_start (timebase_ r) start_range ;;
  q <- enqueue_loop fuel (timebase_ r) end_range true_start_range (cache_queue_ r) ;;
  Done (set_cache_queue_ q r).

(** The call of the base class, [Node::InvalidateCache], passes the
    range on to the nodes downstream and leaves this object alone. *)
Definition InvalidateCache (env : Env) (fuel : nat) (start_range end_range : rational)
           (w : World) : outcome World :=
  let w := write_log (Debug_invalidated (toDouble start_range)
                                        (toDouble end_range)) w in
  r <- InvalidateCache_enqueue fuel start_range end_range (this w) ;;
  CacheNext env (set_this r w).

(** *** Signals from the threads *)

Definition same_thread (p : option nat) (sender : nat) : bool :=
  match p with Some m => Nat.eqb m sender | None => false end.

Definition ThreadCallback (env : Env) (sender : nat) (w : World) : outcome World :=
  if same_thread (master_thread_ (this w)) sender then
    (* Threads are all done now, time to proceed *)
    let w := on_this (set_caching_ false) w in
    let texture :=
      match connected_output w with
      | Some _ => get_value env (cache_frame_ (this w))
      | None => None
      end in
    let '(fn, w) := CachePathName env (cache_frame_ (this w)) w in
    w <- match texture with
         | None => Done (if file_exists fn w then remove_file fn w else w)
         | Some tex =>
             let n := Z.of_nat (List.length (download_threads_ (this w))) in
             let last := last_download_thread_ (this w) in
             if (n =? 0)%Z then Undefined
             else if (last <? 0)%Z || (Double.INT_MAX <=? last)%Z then Undefined
             else
               Done (on_this
                       (fun r =>
                          set_last_download_thread_ (last + 1)
                            (set_download_threads_
                               (update_nth (Z.to_nat (Z.rem last n))
                                           (fun t => download_Queue t tex fn)
                                           (download_threads_ r))
                               r))
                       w)
         end ;;
    CacheNext env w
  else Done w.

(** Try to queue another thread to run this dep in advance. *)
Fixpoint request_sibling (dep : NodeDependency) (ts : list RendererProcessThread)
  : list RendererProcessThread :=
  match ts with
  | [] => []
  | t :: rest =>
      let '(accepted, t') := Queue t dep false in
      if accepted then t' :: rest else t :: request_sibling dep rest
  end.

Definition ThreadRequestSibling (dep : NodeDependency) (r : RendererProcessor)
  : RendererProcessor :=
  set_threads_ (request_sibling dep (threads_ r)) r.

(** *** The read path *)

Definition Upload (buffer : QByteArray) (t : RenderTexture) : RenderTexture :=
  {| tex_width := tex_width t; tex_height := tex_height t;
     tex_format := tex_format t; tex_pixels := buffer |}.

Definition Value (env : Env) (output : NodeOutput) (time : rational) (w : World)
  : outcome (QVariant * World) :=
  match output with
  | texture_output_ =>
      match connected_output w with
      | None =>
          (* Nothing is connected - nothing to show or render *)
          Done (VInt 0, w)
      | Some _ =>
          if isEmpty (cache_id_ (this w)) then
            Done (VInt 0, write_log (Warning "RendererProcessor has no cache ID") w)
          else if isNull (timebase_ (this w)) then
            Done (VInt 0, write_log (Warning "RendererProcessor has no timebase") w)
          else
            let '(fn, w) := CachePathName env time w in
            if file_exists fn w then
              match open_image env fn with
              | Some pixels =>
                  buffer <- poke (cache_frame_load_buffer_ (this w)) 0 pixels ;;
                  match master_texture_ (this w) with
                  | None => Undefined
                  | Some t =>
                      let t := Upload buffer t in
                      Done (VTexture t,
                            on_this
                              (fun r =>
                                 set_master_texture_ (Some t)
                                   (set_cache_frame_load_buffer_ buffer r))
                              w)
                  end
              | None => Done (VInt 0, w)
              end
            else Done (VInt 0, w)
      end
  | other_output _ => Done (VInt 0, w)
  end.

(** *** The scheduler as a transition system

    Everything runs on the scheduler's own thread, one event at a
    time: calls of the public interface, the delivery of a queued
    signal, and what threads and graph do in between. *)

Inductive event : Type :=
| Call_SetCacheName (s : string) (now : Z)
| Call_Value (output : NodeOutput) (time : rational)
| Call_Release
| Call_InvalidateCache (start_range end_range : rational)
| Call_SetTimebase (timebase : rational)
| Call_SetParameters (width height : Z) (format : PixelFormat)
                     (mode : RenderMode) (divider : Z)
| Call_SetDivider (divider : Z)
| Call_Start
| Call_Stop
| Deliver_FinishedPath
| Deliver_RequestSibling (dep : NodeDependency)
| Worker_done (tid : nat)
| Download_done (fn : string)
| Graph_connect (output : option nat).

Definition lift (f : RendererProcessor -> outcome RendererProcessor) (w : World)
  : outcome World :=
  r <- f (this w) ;; Done (set_this r w).

Definition exec (env : Env) (fuel : nat) (ev : event) (w : World) : outcome World :=
  match ev with
  | Call_SetCacheName s now => Done (on_this (SetCacheName s now) w)
  | Call_Value output time => r <- Value env output time w ;; Done (snd r)
  | Call_Release => Done (on_this Release w)
  | Call_InvalidateCache a b => InvalidateCache env fuel a b w
  | Call_SetTimebase t => Done (on_this (SetTimebase t) w)
  | Call_SetParameters width height format mode divider =>
      lift (SetParameters width height format mode divider) w
  | Call_SetDivider divider => lift (SetDivider divider) w
  | Call_Start => Done (Start env w)
  | Call_Stop => Done (on_this Stop w)
  | Deliver_FinishedPath =>
      match signals w with
      | [] => Undefined
      | sender :: rest => ThreadCallback env sender (set_signals rest w)
      end
  | Deliver_RequestSibling dep => Done (on_this (ThreadRequestSibling dep) w)
  | Worker_done tid => worker_done w tid
  | Download_done fn => Done (set_files (fn :: files w) w)
  | Graph_connect output => Done (set_connected_output output w)
  end.

Inductive reachable (g : RendererProcessor) : World -> Prop :=
| reachable_new : reachable g (new_World g)
| reachable_step : forall (w w' : World) (env : Env) (fuel : nat) (ev : event),
    reachable g w -> exec env fuel ev w = Done w' -> reachable g w'.

(** Primary renders in flight: primary items handed to a live thread
    and not yet completed by it. *)
Definition primaries (t : RendererProcessThread) : nat :=
  List.length (filter (fun i : work_item => snd i) (thread_queue t)).

Definition in_flight (w : World) : nat :=
  list_sum (map primaries (threads_ (this w))).

(** The identity generator seen as a function of its six inputs and
    of the state it starts from. *)
Record id_inputs : Type := {
  in_name : string;
  in_time : Z;
  in_width : Z;
  in_height : Z;
  in_format : PixelFormat;
  in_divider : Z
}.

Definition inputs_of (r : RendererProcessor) : id_inputs :=
  {| in_name := cache_name_ r; in_time := cache_time_ r; in_width := width_ r;
     in_height := height_ r; in_format := format_ r; in_divider := divider_ r |}.

(** The bytes handed to the hash, field after field. *)
Definition hashed_data (i : id_inputs) : QByteArray :=
  toUtf8 (in_name i) ++ toUtf8 (number (in_time i)) ++ toUtf8 (number (in_width i))
  ++ toUtf8 (number (in_height i)) ++ toUtf8 (number (in_format i))
  ++ toUtf8 (number (in_divider i)).

Inductive differ_in_one_field : id_inputs -> id_inputs -> Prop :=
| differ_name : forall n n' t w h f d, n <> n' ->
    differ_in_one_field (Build_id_inputs n t w h f d) (Build_id_inputs n' t w h f d)
| differ_time : forall n t t' w h f d, t <> t' ->
    differ_in_one_field (Build_id_inputs n t w h f d) (Build_id_inputs n t' w h f d)
| differ_width : forall n t w w' h f d, w <> w' ->
    differ_in_one_field (Build_id_inputs n t w h f d) (Build_id_inputs n t w' h f d)
| differ_height : forall n t w h h' f d, h <> h' ->
    differ_in_one_field (Build_id_inputs n t w h f d) (Build_id_inputs n t w h' f d)
| differ_format : forall n t w h f f' d, f <> f' ->
    differ_in_one_field (Build_id_inputs n t w h f d) (Build_id_inputs n t w h f' d)
| differ_divider : forall n t w h f d d', d <> d' ->
    differ_in_one_field (Build_id_inputs n t w h f d) (Build_id_inputs n t w h f d').

(** The early return of [GenerateCacheIDInternal]. *)
Definition nothing_to_hash (r : RendererProcessor) : bool :=
  isEmpty (cache_name_ r) || (effective_width_ r =? 0)%Z
  || (effective_height_ r =? 0)%Z.

(** *** Vocabulary of the properties *)

(** [x] is one of [s], [s + t], [s + 2t], ... and does not exceed [e]. *)
Definition on_grid (s t e x : Q) : Prop :=
  exists k : nat, x == s + inject_Z (Z.of_nat k) * t /\ x <= e.

(** [FinishedPath] signals of thread [id] waiting for delivery. *)
Definition pending (w : World) (id : nat) : nat :=
  count_occ Nat.eq_dec (signals w) id.

(** What thread [id] may hold of primary items and undelivered
    completions together: one if it is the master of a render the
    scheduler is waiting for, nothing otherwise. *)
Definition budget (w : World) (id : nat) : nat :=
  if caching_ (this w) && same_thread (master_thread_ (this w)) id
  then 1%nat else 0%nat.

Record scheduler_inv (w : World) : Prop := {
  inv_ids : NoDup (map thread_id (threads_ (this w)));
  inv_threads :
    Forall (fun t => (primaries t + pending w (thread_id t)
                      <= budget w (thread_id t))%nat
                     /\ (thread_id t < next_object w)%nat)
           (threads_ (this w));
  inv_signals : Forall (fun s => (s < next_object w)%nat) (signals w)
}.

(** The part of the world the scheduling invariant looks at. *)
Definition view (w : World) :=
  (threads_ (this w), signals w, caching_ (this w), master_thread_ (this w),
   next_object w).

(** The identity the six inputs of [r] hash to. *)
Definition identity_of (r : RendererProcessor) : string :=
  string_of_list_byte (Sha1.toHex (Sha1.hash (hashed_data (inputs_of r)))).


(** The two warnings of the read path. *)
Definition no_cache_id : log_entry := Warning "RendererProcessor has no cache ID".
Definition no_timebase : log_entry := Warning "RendererProcessor has no timebase".

End Renderer.

(* ------------------------------------------------------------------ *)
(** ** audiorenderworker.cpp                                           *)
(* ------------------------------------------------------------------ *)

Module Audio.
Import Rational Bytes.

(** *** Collaborators

    The declarations of [AudioRenderingParams], [TimeRange], [Block]
    and [NodeValueTable] are not part of the sources at hand. *)

(** The conversions of the audio parameters, taken as given. *)
Record AudioRenderingParams : Type := {
  time_to_bytes : rational -> Z;
  bytes_to_samples : Z -> Z;
  samples_to_bytes : Z -> Z
}.

(** Modelled from the spec: a time range with its two ends. *)
Record TimeRange : Type := { in_ : rational; out_ : rational }.

(** Modelled from the spec: [TimeRange::length()], the distance between
    the two ends. *)
Definition TimeRange_length (r : TimeRange) : rational := sub (out_ r) (in_ r).

(** Modelled from the spec: a block, with what [RenderBlock] reads from
    it: "{in, out} timestamps ..., a speed factor, a reversed flag", its
    length on the timeline and its media length. *)
Record Block : Type := {
  block_in : rational;
  block_out : rational;
  block_length : rational;
  media_length : rational;
  speed : Double.double;
  is_reversed : bool
}.

Inductive DataType : Type := kSamples | kTexture | kOther (tag : nat).

Definition DataType_eqb (a b : DataType) : bool :=
  match a, b with
  | kSamples, kSamples => true
  | kTexture, kTexture => true
  | kOther m, kOther n => Nat.eqb m n
  | _, _ => false
  end.

Inductive QVariant : Type :=
| Invalid
| Bytes (b : QByteArray)
| Other (tag : nat).

Definition toByteArray (v : QVariant) : QByteArray :=
  match v with Bytes b => b | _ => [] end.

(** Modelled from the spec: the output table of a node, a stack of typed
    values, most recent first. *)
Definition NodeValueTable : Type := list (DataType * QVariant).

Definition Push (t : DataType) (v : QVariant) (tbl : NodeValueTable) : NodeValueTable :=
  (t, v) :: tbl.

(** [Take] removes the most recent value of the type and returns it. *)
Fixpoint Take (t : DataType) (tbl : NodeValueTable) : QVariant * NodeValueTable :=
  match tbl with
  | [] => (Invalid, [])
  | (t', v) :: rest =>
      if DataType_eqb t t' then (v, rest)
      else let '(r, rest') := Take t rest in (r, (t', v) :: rest')
  end.

Definition Get (t : DataType) (tbl : NodeValueTable) : QVariant := fst (Take t tbl).

(** Static [NodeValueTable::Merge]: returns the merged table. *)
Definition Merge (tables : list NodeValueTable) : NodeValueTable := List.concat (rev tables).

(** *** Speed adjustment (nearest-neighbour resampling) *)

Fixpoint speed_loop (fuel : nat) (p : AudioRenderingParams)
         (samples_from_this_block : QByteArray) (sample_count : Z)
         (clip_speed i : Double.double) (speed_adjusted_samples : QByteArray)
  : outcome QByteArray :=
  match fuel with
  | O => OutOfFuel
  | S fuel' =>
      if Double.ltb i (Double.of_int sample_count) then
        sample_index <- Double.qFloor i ;;
        let byte_index := samples_to_bytes p sample_index in
        let sample_at_this_index :=
          mid samples_from_this_block byte_index (samples_to_bytes p 1) in
        speed_loop fuel' p samples_from_this_block sample_count clip_speed
                   (Double.add i clip_speed)
                   (speed_adjusted_samples ++ sample_at_this_index)
      else Done speed_adjusted_samples
  end.

Definition speed_adjust (fuel : nat) (p : AudioRenderingParams)
           (clip_speed : Double.double) (samples_from_this_block : QByteArray)
  : outcome QByteArray :=
  let sample_count := bytes_to_samples p (size samples_from_this_block) in
  speed_loop fuel p samples_from_this_block sample_count clip_speed Double.zero [].

(** *** Reversal in place

    Each [memcpy] is a read of [sample_size] bytes followed by a write.
    When the two samples of a swap are one and the same (the middle one
    of an odd count), the region is copied onto itself and stays as it
    is. *)

Fixpoint reverse_loop (fuel : nat) (sample_size half_buffer_sz src_index : Z)
         (samples_from_this_block : QByteArray) : outcome QByteArray :=
  match fuel with
  | O => OutOfFuel
  | S fuel' =>
      if (src_index <? half_buffer_sz)%Z then
        let dst_index := (size samples_from_this_block - sample_size - src_index)%Z in
        (* memcpy(temp_buffer, src_ptr, sample_size) *)
        temp_buffer <- peek samples_from_this_block src_index sample_size ;;
        (* memcpy(src_ptr, dst_ptr, sample_size) *)
        at_dst <- peek samples_from_this_block dst_index sample_size ;;
        b1 <- poke samples_from_this_block src_index at_dst ;;
        (* memcpy(dst_ptr, temp_buffer, sample_size) *)
        b2 <- poke b1 dst_index temp_buffer ;;
        reverse_loop fuel' sample_size half_buffer_sz (src_index + sample_size)%Z b2
      else Done samples_from_this_block
  end.

Definition reverse_samples (fuel : nat) (p : AudioRenderingParams)
           (samples_from_this_block : QByteArray) : outcome QByteArray :=
  let sample_size := samples_to_bytes p 1 in
  let half_buffer_sz := Z.quot (size samples_from_this_block) 2 in
  reverse_loop fuel sample_size half_buffer_sz 0 samples_from_this_block.

(** *** [AudioRenderWorker::RenderBlock] *)

(** The body of the loop over the active blocks. *)
Definition render_one (fuel : nat) (audio_params_ : AudioRenderingParams)
           (ProcessNode : Block -> TimeRange -> NodeValueTable)
           (range : TimeRange) (b : Block) (block_range_buffer : QByteArray)
  : outcome QByteArray :=
  let range_for_block :=
    {| in_ := qMax (block_in b) (in_ range);
       out_ := qMin (block_out b) (out_ range) |} in
  let table := ProcessNode b range_for_block in
  let samples_from_this_block := toByteArray (fst (Take kSamples table)) in
  let destination_offset :=
    time_to_bytes audio_params_ (sub (in_ range_for_block) (in_ range)) in
  let maximum_copy_size := time_to_bytes audio_params_ (TimeRange_length range_for_block) in
  r <- match samples_from_this_block with
       | [] => Done (block_range_buffer, 0%Z)
       | _ :: _ =>
           s1 <- (if negb (eqb (media_length b) (block_length b))
                  then speed_adjust fuel audio_params_ (speed b) samples_from_this_block
                  else Done samples_from_this_block) ;;
           s2 <- (if is_reversed b
                  then reverse_samples fuel audio_params_ s1
                  else Done s1) ;;
           let copied_size := size s2 in
           buf <- poke block_range_buffer destination_offset s2 ;;
           Done (buf, copied_size)
       end ;;
  let '(buf, copied_size) := r in
  if (copied_size <? maximum_copy_size)%Z
  then memset buf (destination_offset + copied_size) x00
              (maximum_copy_size - copied_size)
  else Done buf.

Fixpoint render_blocks (fuel : nat) (audio_params_ : AudioRenderingParams)
         (ProcessNode : Block -> TimeRange -> NodeValueTable)
         (range : TimeRange) (active_blocks : list Block)
         (block_range_buffer : QByteArray) : outcome QByteArray :=
  match active_blocks with
  | [] => Done block_range_buffer
  | b :: rest =>
      buf <- render_one fuel audio_params_ ProcessNode range b block_range_buffer ;;
      render_blocks fuel audio_params_ ProcessNode range rest buf
  end.

(** The track, as far as [RenderBlock] queries it. *)
Record TrackOutput : Type := { BlocksAtTimeRange : TimeRange -> list Block }.

(** The value of the static [Merge] is dropped at the call site, so
    [merged_table] is still empty when the samples are pushed. *)
Definition RenderBlock (fuel : nat) (audio_params_ : AudioRenderingParams)
           (ProcessNode : Block -> TimeRange -> NodeValueTable)
           (track : TrackOutput) (range : TimeRange) : outcome NodeValueTable :=
  let active_blocks := BlocksAtTimeRange track range in
  let block_range_buffer :=
    filled (time_to_bytes audio_params_ (TimeRange_length range)) x00 in
  let merged_table : NodeValueTable := [] in
  buf <- render_blocks fuel audio_params_ ProcessNode range active_blocks
                       block_range_buffer ;;
  Done (Push kSamples (Bytes buf) merged_table).

(** *** Vocabulary of the properties *)

(** [m'] is [m] with its samples of [s] bytes in the opposite order. *)
Inductive chunk_reversed (s : nat) : list byte -> list byte -> Prop :=
| cr_nil : chunk_reversed s [] []
| cr_one : forall c, List.length c = s -> chunk_reversed s c c
| cr_swap : forall c1 m m' c2,
    List.length c1 = s -> List.length c2 = s ->
    chunk_reversed s m m' ->
    chunk_reversed s (c1 ++ m ++ c2) (c2 ++ m' ++ c1).

End Audio.

(* ------------------------------------------------------------------ *)
(** ** projectsavemanager.cpp                                          *)
(* ------------------------------------------------------------------ *)

Module ProjectSave.

(** What the XML stream writer is asked to put into the file. *)
Inductive xml_write : Type :=
| StartDocument
| StartElement (name : string)
| TextElement (name text : string)
| EndElement
| EndDocument.

(** Observable effects of the task, in program order. *)
Inductive effect : Type :=
| FileOpened (path : string)
| FileWrite (w : xml_write)
| FileClosed
| Succeeded.

(** The project as the task sees it: its file name and what
    [Project::Save] sends to the writer it is given. *)
Record Project : Type := {
  filename : string;
  Save : list xml_write
}.

(** [ProjectSaveManager::Action]; [open_ok] is the result of
    [QFile::open(WriteOnly | Text)] on the project's file. *)
Definition Action (project_ : Project) (open_ok : bool) : list effect :=
  (if open_ok then
     [FileOpened (filename project_)]
     ++ map FileWrite
          ([StartDocument; StartElement "olive"; TextElement "version" "0.2.0"]
           ++ Save project_
           ++ [EndElement; EndDocument])
     ++ [FileClosed]
   else [])
  ++ [Succeeded].

Definition is_succeeded (e : effect) : bool :=
  match e with Succeeded => true | _ => false end.

Definition touches_disk (e : effect) : bool :=
  match e with Succeeded => false | _ => true end.

Definition emitted (tr : list effect) : nat :=
  List.length (filter is_succeeded tr).

Definition disk_effects (tr : list effect) : list effect :=
  filter touches_disk tr.

End ProjectSave.

(* ------------------------------------------------------------------ *)
(** ** Sample inputs                                                   *)
(* ------------------------------------------------------------------ *)

Module Samples.
Import Rational Renderer.
Local Open Scope string_scope.

(** What the members the constructor leaves alone happen to hold. *)
Definition leftover : RendererProcessor :=
  {| started_ := false; width_ := 0; height_ := 0; divider_ := 0;
     effective_width_ := 0; effective_height_ := 0; format_ := 0%Z; mode_ := kOffline;
     caching_ := false; cache_name_ := ""; cache_time_ := 0; cache_id_ := "";
     timebase_ := 0; cache_queue_ := []; cache_frame_ := 0;
     threads_ := []; download_threads_ := []; last_download_thread_ := 0;
     master_thread_ := None; master_texture_ := None;
     cache_frame_load_buffer_ := [] |}.

Definition fresh : RendererProcessor := new_RendererProcessor leftover.

Definition returned {A : Type} (default : A) (o : outcome A) : A :=
  match o with Done a => a | _ => default end.

(** A sequence named [seq] at 1920x1080, pixel format 1. *)
Definition full_hd : RendererProcessor :=
  Eval vm_compute in
    returned fresh (SetParameters 1920 1080 1%Z kOffline 1 (SetCacheName "seq" 1000 fresh)).

Definition env : Env :=
  {| idealThreadCount := 2;
     GetBufferSize := fun _ w h => (w * h * 4)%Z;
     GetMediaCacheLocation := "/cache";
     open_image := fun _ => None;
     get_value := fun _ => None |}.

(** A 16x8 sequence with its pools running. *)
Definition thumbnail : RendererProcessor :=
  Eval vm_compute in
    returned fresh (SetParameters 16 8 1%Z kOffline 1 (SetCacheName "seq" 1000 fresh)).

Definition running : RendererProcessor :=
  Eval vm_compute in
    this (Start env {| this := thumbnail; connected_output := Some 5%nat; log := [];
                       directories := []; files := []; signals := [];
                       next_object := 0 |}).

(** A connected processor on a 24 fps and on a 25 fps timebase. *)
Definition film : World :=
  set_connected_output (Some 5%nat) (on_this (SetTimebase (1 # 24)) (new_World leftover)).

Definition pal : World :=
  set_connected_output (Some 5%nat) (on_this (SetTimebase (1 # 25)) (new_World leftover)).

(** [film] after the invalidation of the first tenth of a second. *)
Definition film_caching : World :=
  Eval vm_compute in returned film (InvalidateCache env 10 0 (1 # 10) film).

End Samples.

Module AudioSamples.
Import Rational Bytes Audio.

(** Mono 16-bit audio at four samples a second. *)
Definition pcm16 : AudioRenderingParams :=
  {| time_to_bytes := fun t => (Qfloor (t * 4) * 2)%Z;
     bytes_to_samples := fun b => Z.quot b 2;
     samples_to_bytes := fun n => (n * 2)%Z |}.

Definition one_second : TimeRange := {| in_ := 0; out_ := 1 |}.

Definition clip : Block :=
  {| block_in := 0; block_out := 1; block_length := 1; media_length := 1;
     speed := Double.of_int 1; is_reversed := false |}.

Definition track : TrackOutput := {| BlocksAtTimeRange := fun _ => [clip] |}.

(** A node that answers with [n] bytes of samples whatever it is asked. *)
Definition node (n : nat) : Block -> TimeRange -> NodeValueTable :=
  fun _ _ => [(kSamples, Bytes (repeat x01 n))].

Definition six_bytes : QByteArray := [x01; x02; x03; x04; x05; x06].
End AudioSamples.

(* ------------------------------------------------------------------ *)
(** ** Vocabulary of the further properties                            *)
(* ------------------------------------------------------------------ *)

Module Pipeline.
Import Rational Renderer.

(** The pool can take a primary item: it is about to be created with at
    least one thread, or it is running with one. *)
Definition can_dispatch (env : Env) (w : World) : Prop :=
  (started_ (this w) = false /\ (0 < idealThreadCount env)%Z)
  \/ (started_ (this w) = true /\ threads_ (this w) <> []).

(** What [Stop] leaves of the pipeline. *)
Definition released (r : RendererProcessor) : Prop :=
  threads_ r = [] /\ download_threads_ r = [] /\ master_texture_ r = None
  /\ cache_frame_load_buffer_ r = [].

(** What [Start] builds, seen against the parameters as they are now:
    as many download threads as render threads, a master texture of the
    effective size and format, and render threads created for the
    effective size, the format and the mode. *)
Definition fits_parameters (r : RendererProcessor) : Prop :=
  List.length (download_threads_ r) = List.length (threads_ r)
  /\ (exists t, master_texture_ r = Some t
                /\ tex_width t = effective_width_ r
                /\ tex_height t = effective_height_ r
                /\ tex_format t = format_ r)
  /\ Forall (fun t => thread_width t = effective_width_ r
                      /\ thread_height t = effective_height_ r
                      /\ thread_format t = format_ r
                      /\ thread_mode t = mode_ r)
            (threads_ r).

Definition resources_inv (r : RendererProcessor) : Prop :=
  (started_ r = false -> released r) /\ (started_ r = true -> fits_parameters r).

(** The members [resources_inv] looks at. *)
Definition resources_view (r : RendererProcessor) :=
  (started_ r, threads_ r, download_threads_ r, master_texture_ r,
   cache_frame_load_buffer_ r, effective_width_ r, effective_height_ r,
   format_ r, mode_ r).

(** The output of [toHex] of a SHA-1 digest: forty lower-case
    hexadecimal digits. *)
Definition is_hex_digit (b : byte) : bool :=
  existsb (Byte.eqb b) (list_byte_of_string "0123456789abcdef").

Definition well_formed_id (s : string) : Prop :=
  String.length s = 40%nat
  /\ forallb is_hex_digit (list_byte_of_string s) = true.

(** The snapped start as the specification words it: "floor division in
    the timebase's own rational arithmetic, not floating point". *)
Definition spec_snap_start (timebase start_range : rational) : rational :=
  inject_Z (Qfloor (start_range / timebase)) * timebase.

(** The character [c] occurs in [s]. *)
Fixpoint mentions (c : ascii) (s : string) : bool :=
  match s with
  | EmptyString => false
  | String a rest => Ascii.eqb a c || mentions c rest
  end.

End Pipeline.

Module Document.
Import ProjectSave.

(** What reached the XML writer, in order. *)
Definition written (tr : list effect) : list xml_write :=
  flat_map (fun e => match e with FileWrite w => [w] | _ => [] end) tr.

(** The elements a [QXmlStreamWriter] has open after [ws], innermost
    first, starting from [stack].  [writeEndElement] closes the element
    opened last and does nothing when none is open; [writeEndDocument]
    closes every element still open; [writeTextElement] opens and
    closes its own element. *)
Fixpoint tag_stack (ws : list xml_write) (stack : list string) : list string :=
  match ws with
  | [] => stack
  | StartElement name :: rest => tag_stack rest (name :: stack)
  | EndElement :: rest => tag_stack rest (tl stack)
  | EndDocument :: rest => tag_stack rest []
  | _ :: rest => tag_stack rest stack
  end.

(** What [Action] writes before it calls [Project::Save]. *)
Definition preamble : list xml_write :=
  [StartDocument; StartElement "olive"%string;
   TextElement "version"%string "0.2.0"%string].

End Document.

(* ------------------------------------------------------------------ *)
(** ** Further sample inputs                                           *)
(* ------------------------------------------------------------------ *)

Module Scenarios.
Import Rational Bytes Renderer Samples.
Local Open Scope string_scope.

(** [film] with the first tenth of a second queued and nothing
    dispatched, then with a later range queued as well, in both orders. *)
Definition film_queued : RendererProcessor :=
  Eval vm_compute in
    returned fresh (InvalidateCache_enqueue 10 0 (1 # 10) (this film)).

Definition later_queued : RendererProcessor :=
  Eval vm_compute in
    returned fresh (InvalidateCache_enqueue 10 (1 # 24) (1 # 8) (this film)).

Definition first_then_later : RendererProcessor :=
  Eval vm_compute in
    returned fresh (InvalidateCache_enqueue 10 (1 # 24) (1 # 8) film_queued).

Definition later_then_first : RendererProcessor :=
  Eval vm_compute in
    returned fresh (InvalidateCache_enqueue 10 0 (1 # 10) later_queued).

Definition film_waiting : World := set_this film_queued film.

(** A start a hair below the grid point 1/24. *)
Definition just_below : rational := 33333333333333333 # 800000000000000000.

(** A processor whose timebase runs backwards. *)
Definition backwards : World :=
  on_this (SetTimebase (-1 # 24)) (new_World leftover).

(** [film_caching] with the files of two frames in its cache. *)
Definition stale : World :=
  set_files ["/cache//0.1.exr"; "/cache//1.24.exr"] film_caching.

Definition frame : RenderTexture :=
  {| tex_width := 0; tex_height := 0; tex_format := 0%Z; tex_pixels := [] |}.

(** An environment whose graph renders every frame and whose cache
    files all hold the same four bytes. *)
Definition projector : Env :=
  {| idealThreadCount := 2;
     GetBufferSize := fun _ w h => (w * h * 4)%Z;
     GetMediaCacheLocation := "/cache";
     open_image := fun _ => Some [x01; x02; x03; x04];
     get_value := fun _ => Some frame |}.

(** A named 4x2 sequence; connected, on a timebase; then started, with
    frame 0 in its cache. *)
Definition named : World :=
  Eval vm_compute in
    returned (new_World leftover)
      (lift (SetParameters 4 2 1%Z kOffline 1)
            (on_this (SetCacheName "seq" 1000) (new_World leftover))).

Definition dark : World :=
  set_connected_output (Some 5%nat) (on_this (SetTimebase (1 # 24)) named).

Definition screening : World :=
  Eval vm_compute in
    let w := Start projector dark in
    set_files (fst (CachePathName projector 0 w) :: files w) w.

End Scenarios.

Module AudioScenarios.
Import Rational Bytes Audio.

(** Audio parameters whose samples have no size. *)
Definition sizeless : AudioRenderingParams :=
  {| time_to_bytes := fun t => (Qfloor (t * 4) * 2)%Z;
     bytes_to_samples := fun b => b;
     samples_to_bytes := fun _ => 0%Z |}.

Definition tagged : Block -> TimeRange -> NodeValueTable :=
  fun _ _ => [(kOther 7, Other 1); (kSamples, Bytes (repeat x01 6))].

End AudioScenarios.

Module DocumentScenarios.
Import ProjectSave.
Local Open Scope string_scope.

Definition reel : Project :=
  {| filename := "reel.ove";
     Save := [StartElement "project"; TextElement "name" "reel"; EndElement] |}.

End DocumentScenarios.

(* ================================================================== *)
(** * Part II -- properties                                            *)
(* ================================================================== *)

(** ** Rational time and the queue *)

Section QueueFacts.
Import Rational Renderer.

Lemma contains_InA : forall q r, contains q r = true <-> InA Qeq r q.
Proof.
  intros q r. unfold contains, eqb. rewrite existsb_exists, InA_alt. split.
  - intros [x [Hin Heq]]. exists x. split; auto. apply Qeq_bool_iff; auto.
  - intros [x [Heq Hin]]. exists x. split; auto. apply Qeq_bool_iff; auto.
Qed.

Lemma contains_false : forall q r, contains q r = false <-> ~ InA Qeq r q.
Proof.
  intros q r. rewrite <- contains_InA. destruct (contains q r); split; congruence.
Qed.

Lemma add_correct : forall a b, add a b == a + b.
Proof. intros. unfold add. apply Qred_correct. Qed.

Lemma leb_le : forall a b, leb a b = true <-> a <= b.
Proof. intros. unfold leb. apply Qle_bool_iff. Qed.

Lemma leb_gt : forall a b, leb a b = false <-> b < a.
Proof.
  intros a b. destruct (leb a b) eqn:H.
  - apply leb_le in H. split; [discriminate|]. intros Hlt.
    exfalso. apply (Qlt_not_le _ _ Hlt H).
  - split; auto. intros _. apply Qnot_le_lt. intros Hle.
    apply leb_le in Hle. congruence.
Qed.

Lemma inject_succ : forall k : nat,
  inject_Z (Z.of_nat (S k)) == inject_Z (Z.of_nat k) + 1.
Proof.
  intros k. rewrite Nat2Z.inj_succ. unfold Z.succ. rewrite inject_Z_plus. reflexivity.
Qed.

Lemma steps_nonneg : forall (k : nat) t, 0 < t -> 0 <= inject_Z (Z.of_nat k) * t.
Proof.
  intros k t Ht. apply Qmult_le_0_compat.
  - replace 0 with (inject_Z 0) by reflexivity. rewrite <- Zle_Qle. lia.
  - apply Qlt_le_weak; exact Ht.
Qed.

Lemma on_grid_ge : forall s t e x, 0 < t -> on_grid s t e x -> s <= x.
Proof.
  intros s t e x Ht [k [Hx _]]. pose proof (steps_nonneg k Ht) as Hk.
  set (K := inject_Z (Z.of_nat k) * t) in *. lra.
Qed.

Lemma on_grid_unfold : forall s t e x, 0 < t ->
  on_grid s t e x <-> (x == s /\ s <= e) \/ on_grid (add s t) t e x.
Proof.
  intros s t e x Ht. split.
  - intros [[|k] [Hx He]].
    + left. simpl in Hx.
      assert (H0 : inject_Z 0 * t == 0) by ring. rewrite H0 in Hx. split; lra.
    + right. exists k. split; auto. rewrite add_correct.
      rewrite inject_succ in Hx. rewrite Hx. ring.
  - intros [[Hx He]|[k [Hx He]]].
    + exists 0%nat. simpl. split; [rewrite Hx; ring | lra].
    + exists (S k). split; auto. rewrite add_correct in Hx.
      rewrite inject_succ. rewrite Hx. ring.
Qed.

Lemma enqueue_loop_S : forall fuel t e r q,
  enqueue_loop (S fuel) t e r q
  = if leb r e
    then enqueue_loop fuel t e (add r t) (if contains q r then q else q ++ [r])
    else Done q.
Proof. reflexivity. Qed.

Lemma enqueue_loop_spec : forall t e, 0 < t ->
  forall (m : nat) r q,
    e - r < inject_Z (Z.of_nat m) * t ->
    exists added,
      (forall fuel, (m < fuel)%nat -> enqueue_loop fuel t e r q = Done (q ++ added))
      /\ NoDupA Qeq added
      /\ (forall x, InA Qeq x added <-> on_grid r t e x /\ ~ InA Qeq x q).
Proof.
  intros t e Ht m. induction m as [|m IH]; intros r q Hm.
  - exists []. split; [|split].
    + intros [|fuel] Hf; [lia|]. rewrite enqueue_loop_S.
      replace (leb r e) with false; [rewrite app_nil_r; reflexivity|].
      symmetry. apply leb_gt. simpl in Hm.
      assert (H0 : inject_Z 0 * t == 0) by ring. rewrite H0 in Hm. lra.
    + constructor.
    + intros x. split.
      * intros H. inversion H.
      * intros [Hg _]. apply (on_grid_ge Ht) in Hg as Hge.
        destruct Hg as [k [_ He]]. simpl in Hm.
        assert (H0 : inject_Z 0 * t == 0) by ring. rewrite H0 in Hm. lra.
  - destruct (leb r e) eqn:Hle.
    + apply leb_le in Hle.
      assert (Hm' : e - add r t < inject_Z (Z.of_nat m) * t).
      { rewrite add_correct. rewrite inject_succ in Hm.
        assert (Hd : (inject_Z (Z.of_nat m) + 1) * t == inject_Z (Z.of_nat m) * t + t) by ring.
        rewrite Hd in Hm. set (K := inject_Z (Z.of_nat m) * t) in *. lra. }
      destruct (contains q r) eqn:Hc.
      * destruct (IH (add r t) q Hm') as [added [Hrun [Hnd Hchar]]].
        exists added. split; [|split]; auto.
        -- intros [|fuel] Hf; [lia|]. rewrite enqueue_loop_S.
           assert (Hle' : leb r e = true) by (apply leb_le; exact Hle).
           rewrite Hle', Hc. apply Hrun. lia.
        -- intros x. rewrite Hchar, (on_grid_unfold r e x Ht).
           apply contains_InA in Hc. split.
           ++ intros [Hg Hn]. split; auto.
           ++ intros [[[Hx _]|Hg] Hn]; [|split; auto].
              exfalso. apply Hn. rewrite Hx. exact Hc.
      * destruct (IH (add r t) (q ++ [r]) Hm') as [added [Hrun [Hnd Hchar]]].
        apply contains_false in Hc.
        exists (r :: added). split; [|split].
        -- intros [|fuel] Hf; [lia|]. rewrite enqueue_loop_S.
           assert (Hle' : leb r e = true) by (apply leb_le; exact Hle).
           assert (Hc' : contains q r = false) by (apply contains_false; exact Hc).
           rewrite Hle', Hc'. cbv iota.
           etransitivity; [apply Hrun; lia|].
           rewrite <- app_assoc. reflexivity.
        -- constructor; auto. intros Hin. apply Hchar in Hin.
           destruct Hin as [Hg _]. apply (on_grid_ge Ht) in Hg.
           rewrite add_correct in Hg. lra.
        -- intros x. rewrite InA_cons, Hchar, (on_grid_unfold r e x Ht).
           rewrite InA_app_iff, InA_cons, InA_nil. split.
           ++ intros [Hx|[Hg Hn]].
              ** split; [left; split; auto|]. rewrite Hx. exact Hc.
              ** split; [right; exact Hg|]. intros Hq. apply Hn. left. exact Hq.
           ++ intros [[[Hx _]|Hg] Hn]; [left; exact Hx|].
              right. split; auto. intros [Hq|[Hx|[]]]; [auto|].
              apply (on_grid_ge Ht) in Hg. rewrite add_correct in Hg. lra.
    + exists []. split; [|split].
      * intros [|fuel] Hf; [lia|]. rewrite enqueue_loop_S. rewrite Hle, app_nil_r. reflexivity.
      * constructor.
      * intros x. split.
        -- intros H. inversion H.
        -- intros [Hg _]. apply leb_gt in Hle. apply (on_grid_ge Ht) in Hg as Hge.
           destruct Hg as [k [_ He]]. lra.
Qed.

Lemma enough_steps : forall t d, 0 < t ->
  exists m : nat, d < inject_Z (Z.of_nat m) * t.
Proof.
  intros t d Ht. exists (Z.to_nat (Qfloor (d / t) + 1)).
  assert (H1 : d / t < inject_Z (Qfloor (d / t) + 1)) by apply Qlt_floor.
  assert (H2 : inject_Z (Qfloor (d / t) + 1)
               <= inject_Z (Z.of_nat (Z.to_nat (Qfloor (d / t) + 1)))).
  { rewrite <- Zle_Qle. lia. }
  assert (H3 : d == d / t * t).
  { field. intros H0. rewrite H0 in Ht. apply (Qlt_irrefl 0 Ht). }
  rewrite H3 at 1. apply Qmult_lt_compat_r; auto.
  eapply Qlt_le_trans; eauto.
Qed.

Lemma snap_start_multiple : forall t start s,
  snap_start t start = Done s ->
  exists fl : Z,
    Double.qFloor
      (Double.div (Double.mul (toDouble start) (Double.of_int (denominator t)))
                  (Double.of_int (numerator t))) = Done fl
    /\ s == inject_Z fl * t.
Proof.
  intros t start s H. unfold snap_start in H.
  destruct (Double.qFloor _) as [fl| |] eqn:Hfl; simpl in H; try discriminate.
  destruct (_ && _); [|discriminate]. inversion H; subst s. clear H.
  exists fl. split; [reflexivity|].
  unfold make. rewrite Qred_correct. unfold numerator.
  destruct t as [n d]. simpl. unfold Qeq, Qmult, inject_Z. simpl. lia.
Qed.

(** What the loop does with the start it is given.  With a positive
    timebase [t] and a snapped
    start [s] that [snap_start] could compute, the loop appends to the
    queue, without repetition, exactly the points [s], [s + t],
    [s + 2t], ... not above [end_range] that are not queued already, and
    leaves the entries already queued in place.  The snapped start is
    [fl * t], where [fl] is what [qFloor] makes of
    [(toDouble(start_range) * denominator) / numerator]: it is computed
    in double precision, not in rational arithmetic. *)
Theorem InvalidateCache_enqueue_grid :
  forall (r : RendererProcessor) (start_range end_range true_start : rational),
    0 < timebase_ r ->
    snap_start (timebase_ r) start_range = Done true_start ->
    (exists fl : Z,
        Double.qFloor
          (Double.div
             (Double.mul (toDouble start_range)
                         (Double.of_int (denominator (timebase_ r))))
             (Double.of_int (numerator (timebase_ r)))) = Done fl
        /\ true_start == inject_Z fl * timebase_ r)
    /\ exists (fuel0 : nat) (added : list rational),
        (forall fuel, (fuel0 <= fuel)%nat ->
           InvalidateCache_enqueue fuel start_range end_range r
           = Done (set_cache_queue_ (cache_queue_ r ++ added) r))
        /\ NoDupA Qeq added
        /\ (forall x, InA Qeq x added <->
              on_grid true_start (timebase_ r) end_range x
              /\ ~ InA Qeq x (cache_queue_ r)).
Proof.
  intros r a b s Ht Hs. split.
  - apply snap_start_multiple; exact Hs.
  - destruct (@enough_steps _ (b - s) Ht) as [m Hm].
    destruct (@enqueue_loop_spec _ b Ht m s (cache_queue_ r) Hm) as [added [Hrun [Hnd Hchar]]].
    exists (S m), added. split; [|split]; auto.
    intros fuel Hf. unfold InvalidateCache_enqueue. rewrite Hs. simpl.
    rewrite Hrun by lia. reflexivity.
Qed.

Lemma NoDupA_snoc : forall q r, NoDupA Qeq q -> ~ InA Qeq r q -> NoDupA Qeq (q ++ [r]).
Proof.
  intros q r Hnd Hr. apply NoDupA_app; auto.
  - apply Q_Setoid.
  - constructor; [intros H; inversion H|constructor].
  - intros x Hx Hx'. inversion Hx' as [? ? E|? ? E]; subst; [|inversion E].
    apply Hr. rewrite <- E. exact Hx.
Qed.

Lemma enqueue_loop_NoDupA : forall fuel t e r q q',
  NoDupA Qeq q -> enqueue_loop fuel t e r q = Done q' -> NoDupA Qeq q'.
Proof.
  induction fuel as [|fuel IH]; intros t e r q q' Hnd H; simpl in H; [discriminate|].
  destruct (leb r e); [|inversion H; subst; auto].
  destruct (contains q r) eqn:Hc.
  - eapply IH; eauto.
  - eapply IH; [|exact H]. apply NoDupA_snoc; auto. apply contains_false; auto.
Qed.

Lemma NoDupA_tail : forall (x : Q) q, NoDupA Qeq (x :: q) -> NoDupA Qeq q.
Proof. intros x q H. inversion H; auto. Qed.

Lemma cache_queue_Start : forall env w,
  cache_queue_ (this (Start env w)) = cache_queue_ (this w).
Proof. intros. unfold Start. destruct (started_ (this w)); reflexivity. Qed.

Lemma cache_queue_CacheNext : forall env w w',
  CacheNext env w = Done w' ->
  cache_queue_ (this w') = cache_queue_ (this w)
  \/ exists first, cache_queue_ (this w) = first :: cache_queue_ (this w').
Proof.
  intros env w w' H. unfold CacheNext in H.
  destruct (cache_queue_ (this w)) as [|first rest] eqn:Hq;
    [inversion H; subst; auto|].
  destruct (connected_output w); [|inversion H; subst; auto].
  destruct (caching_ (this w)); [inversion H; subst; auto|].
  simpl in H. destruct (threads_ (this (Start env w))); [discriminate|].
  inversion H; subst. simpl. right. exists first. reflexivity.
Qed.

Lemma NoDupA_CacheNext : forall env w w',
  NoDupA Qeq (cache_queue_ (this w)) -> CacheNext env w = Done w' ->
  NoDupA Qeq (cache_queue_ (this w')).
Proof.
  intros env w w' Hnd H. destruct (cache_queue_CacheNext _ _ H) as [E|[first E]].
  - rewrite E. exact Hnd.
  - rewrite E in Hnd. eapply NoDupA_tail; eauto.
Qed.

Lemma cache_queue_CachePathName : forall env t w,
  cache_queue_ (this (snd (CachePathName env t w))) = cache_queue_ (this w).
Proof.
  intros. unfold CachePathName, mkpath. simpl. destruct (existsb _ _); reflexivity.
Qed.

Lemma cache_queue_GenerateCacheIDInternal : forall r,
  cache_queue_ (GenerateCacheIDInternal r) = cache_queue_ r.
Proof. intros. unfold GenerateCacheIDInternal. destruct (_ || _); reflexivity. Qed.

Lemma cache_queue_Stop : forall r, cache_queue_ (Stop r) = cache_queue_ r.
Proof. intros. unfold Stop. destruct (negb _); reflexivity. Qed.

Lemma cache_queue_Value : forall env output time w r,
  Value env output time w = Done r ->
  cache_queue_ (this (snd r)) = cache_queue_ (this w).
Proof.
  intros env output time w r H. unfold Value in H.
  destruct output; [|inversion H; reflexivity].
  destruct (connected_output w); [|inversion H; reflexivity].
  destruct (isEmpty _); [inversion H; reflexivity|].
  destruct (isNull _); [inversion H; reflexivity|].
  destruct (CachePathName env time w) as [fn w1] eqn:Hcp.
  pose proof (cache_queue_CachePathName env time w) as Hv. rewrite Hcp in Hv. simpl in Hv.
  destruct (file_exists fn w1); [|inversion H; subst; exact Hv].
  destruct (open_image env fn); [|inversion H; subst; exact Hv].
  destruct (Bytes.poke _ _ _); simpl in H; try discriminate.
  destruct (master_texture_ (this w1)); [|discriminate].
  inversion H; subst. simpl. exact Hv.
Qed.

Lemma NoDupA_ThreadCallback : forall env sender w w',
  NoDupA Qeq (cache_queue_ (this w)) -> ThreadCallback env sender w = Done w' ->
  NoDupA Qeq (cache_queue_ (this w')).
Proof.
  intros env sender w w' Hnd H. unfold ThreadCallback in H.
  destruct (same_thread _ _); [|inversion H; subst; auto].
  set (w1 := on_this (set_caching_ false) w) in *.
  destruct (CachePathName env (cache_frame_ (this w1)) w1) as [fn w2] eqn:Hcp.
  assert (Hq2 : cache_queue_ (this w2) = cache_queue_ (this w)).
  { pose proof (cache_queue_CachePathName env (cache_frame_ (this w1)) w1) as Hv.
    rewrite Hcp in Hv. exact Hv. }
  destruct (match connected_output w1 with
            | Some _ => get_value env (cache_frame_ (this w1))
            | None => None
            end) as [tex|].
  - destruct (Z.of_nat (List.length (download_threads_ (this w2))) =? 0)%Z;
      [discriminate|].
    destruct ((last_download_thread_ (this w2) <? 0)%Z
              || (Double.INT_MAX <=? last_download_thread_ (this w2))%Z);
      [discriminate|].
    simpl in H. eapply NoDupA_CacheNext; [|exact H]. simpl. rewrite Hq2. exact Hnd.
  - simpl in H. eapply NoDupA_CacheNext; [|exact H].
    destruct (file_exists fn w2); simpl; rewrite Hq2; exact Hnd.
Qed.

Lemma NoDupA_exec : forall env fuel ev w w',
  NoDupA Qeq (cache_queue_ (this w)) -> exec env fuel ev w = Done w' ->
  NoDupA Qeq (cache_queue_ (this w')).
Proof.
  intros env fuel ev w w' Hnd H. destruct ev; simpl in H.
  - inversion H; subst. simpl. unfold SetCacheName.
    rewrite cache_queue_GenerateCacheIDInternal. exact Hnd.
  - destruct (Value env output time w) as [r| |] eqn:Hv; simpl in H; try discriminate.
    inversion H; subst. erewrite cache_queue_Value; eauto.
  - inversion H; subst. simpl. unfold Release. rewrite cache_queue_Stop. exact Hnd.
  - unfold InvalidateCache, InvalidateCache_enqueue in H. simpl in H.
    destruct (snap_start _ _); simpl in H; try discriminate.
    destruct (enqueue_loop _ _ _ _ _) as [q| |] eqn:Hl; simpl in H; try discriminate.
    eapply NoDupA_CacheNext; [|exact H]. simpl.
    eapply enqueue_loop_NoDupA; eauto.
  - inversion H; subst. exact Hnd.
  - unfold lift, SetParameters, CalculateEffectiveDimensions in H.
    destruct (0 <? divider)%Z; simpl in H;
      destruct (int_div _ _); simpl in H; try discriminate;
      destruct (int_div _ _); simpl in H; try discriminate;
      inversion H; subst w'; simpl;
      rewrite cache_queue_GenerateCacheIDInternal; simpl;
      rewrite cache_queue_Stop; exact Hnd.
  - unfold lift, SetDivider, CalculateEffectiveDimensions in H.
    destruct (negb _); simpl in H; try discriminate.
    destruct (int_div _ _); simpl in H; try discriminate.
    destruct (int_div _ _); simpl in H; try discriminate.
    inversion H; subst w'; simpl.
    rewrite cache_queue_GenerateCacheIDInternal; simpl.
    rewrite cache_queue_Stop; exact Hnd.
  - inversion H; subst. rewrite cache_queue_Start. exact Hnd.
  - inversion H; subst. simpl. rewrite cache_queue_Stop. exact Hnd.
  - destruct (signals w) as [|sender rest]; [discriminate|].
    eapply NoDupA_ThreadCallback; [|exact H]. exact Hnd.
  - inversion H; subst. exact Hnd.
  - unfold worker_done in H.
    destruct (complete_front _ _) as [[[|] ts]|]; inversion H; subst; exact Hnd.
  - inversion H; subst. exact Hnd.
  - inversion H; subst. exact Hnd.
Qed.


Lemma InvalidateCache_enqueue_grid_witness :
  0 < timebase_ (this Samples.film)
  /\ snap_start (timebase_ (this Samples.film)) (3 # 100) = Done 0
  /\ exists (fuel0 : nat) (added : list rational),
       (forall fuel, (fuel0 <= fuel)%nat ->
          InvalidateCache_enqueue fuel (3 # 100) (9 # 100) (this Samples.film)
          = Done (set_cache_queue_ (cache_queue_ (this Samples.film) ++ added)
                                   (this Samples.film)))
       /\ NoDupA Qeq added
       /\ (forall x, InA Qeq x added <->
             on_grid 0 (timebase_ (this Samples.film)) (9 # 100) x
             /\ ~ InA Qeq x (cache_queue_ (this Samples.film))).
Proof.
  split; [reflexivity|]. split; [reflexivity|].
  exact (proj2 (@InvalidateCache_enqueue_grid (this Samples.film) (3 # 100) (9 # 100) 0
                  eq_refl eq_refl)).
Defined.

(** Timebase 1/24, range [0.03, 0.09]: the points 0, 1/24 and 1/12 are
    queued (1/12 = 0.0833... does not exceed 0.09). *)
Lemma film_example :
  InvalidateCache_enqueue 10 (3 # 100) (9 # 100) (this Samples.film)
  = Done (set_cache_queue_ [0; 1 # 24; 1 # 12] (this Samples.film)).
Proof. reflexivity. Qed.

(** C1.  The snapping of [InvalidateCache] is meant to be a floor
    ("Snap start_range to timebase", [qFloor]) and is not one: it goes
    through [toDouble] and two roundings.  On a 25 fps timebase the
    start 29/25, a grid point, is snapped to 28/25, because 1.16 * 25 is
    28.999999999999996 in double precision: 28/25 is queued although
    the grid from the exact floor does not contain it.  On a 24 fps
    timebase a start just below 1/24 has the double of 1/24 itself and
    is snapped up to 1/24, above the start: the frame at 0, which the
    exact floor gives and which contains the start, is not queued. *)
Theorem InvalidateCache_snaps_in_double_precision :
  (Pipeline.spec_snap_start (1 # 25) (29 # 25) == 29 # 25
   /\ snap_start (timebase_ (this Samples.pal)) (29 # 25) = Done (28 # 25)
   /\ InvalidateCache_enqueue 10 (29 # 25) (29 # 25) (this Samples.pal)
      = Done (set_cache_queue_ [28 # 25; 29 # 25] (this Samples.pal))
   /\ ~ on_grid (Pipeline.spec_snap_start (1 # 25) (29 # 25)) (1 # 25) (29 # 25)
                (28 # 25))
  /\ (Scenarios.just_below < 1 # 24
      /\ Pipeline.spec_snap_start (1 # 24) Scenarios.just_below == 0
      /\ snap_start (timebase_ (this Samples.film)) Scenarios.just_below
         = Done (1 # 24)
      /\ InvalidateCache_enqueue 10 Scenarios.just_below (1 # 10) (this Samples.film)
         = Done (set_cache_queue_ [1 # 24; 1 # 12] (this Samples.film))
      /\ on_grid (Pipeline.spec_snap_start (1 # 24) Scenarios.just_below)
                 (1 # 24) (1 # 10) 0).
Proof.
  split.
  - split; [reflexivity|]. split; [vm_compute; reflexivity|].
    split; [vm_compute; reflexivity|].
    intros Hg. apply on_grid_ge in Hg; [|reflexivity].
    apply (Qle_not_lt _ _ Hg). reflexivity.
  - split; [reflexivity|]. split; [reflexivity|]. split; [vm_compute; reflexivity|].
    split; [vm_compute; reflexivity|].
    exists 0%nat. split; [reflexivity|]. vm_compute. discriminate.
Qed.

Lemma enqueue_loop_appends : forall fuel t e r q q',
  enqueue_loop fuel t e r q = Done q' -> exists added, q' = q ++ added.
Proof.
  induction fuel as [|fuel IH]; intros t e r q q' H; simpl in H; [discriminate|].
  destruct (leb r e); [|inversion H; subst; exists []; rewrite app_nil_r; reflexivity].
  destruct (contains q r).
  - eapply IH; eauto.
  - destruct (IH _ _ _ _ _ H) as [added E]. exists (r :: added).
    rewrite E, <- app_assoc. reflexivity.
Qed.

Lemma NoDupA_app_disjoint : forall (q added : list Q) x,
  NoDupA Qeq (q ++ added) -> InA Qeq x q -> ~ InA Qeq x added.
Proof.
  induction q as [|y q IH]; intros added x Hnd Hin Hadd.
  - inversion Hin.
  - simpl in Hnd. inversion Hnd as [|? ? Hnotin Hnd']; subst.
    inversion Hin as [? ? E|? ? Hin']; subst.
    + apply Hnotin. rewrite <- E. apply InA_app_iff. right. exact Hadd.
    + eapply IH; eauto.
Qed.

End QueueFacts.

(** ** The scheduling invariant *)

Section SchedulerFacts.
Import Rational Renderer.

Lemma scheduler_inv_view : forall w w', view w' = view w -> scheduler_inv w -> scheduler_inv w'.
Proof.
  intros w w' Hv [H1 H2 H3]. unfold view in Hv. inversion Hv as [[Ht Hs Hc Hm Hn]].
  constructor.
  - rewrite Ht. exact H1.
  - rewrite Ht. unfold pending, budget. rewrite Hs, Hc, Hm, Hn. exact H2.
  - rewrite Hs, Hn. exact H3.
Qed.

Lemma view_Stop_cases : forall w,
  view (on_this Stop w) = view w
  \/ view (on_this Stop w) = ([], signals w, caching_ (this w), master_thread_ (this w), next_object w).
Proof.
  intros w. unfold on_this, Stop. destruct (started_ (this w)); simpl; auto.
Qed.

Lemma scheduler_inv_no_threads : forall w w',
  view w' = ([], signals w, caching_ (this w), master_thread_ (this w), next_object w) ->
  scheduler_inv w -> scheduler_inv w'.
Proof.
  intros w w' Hv [H1 H2 H3]. unfold view in Hv. inversion Hv as [[Ht Hs Hc Hm Hn]].
  constructor.
  - rewrite Ht. constructor.
  - rewrite Ht. constructor.
  - rewrite Hs, Hn. exact H3.
Qed.

Lemma scheduler_inv_Stop : forall w, scheduler_inv w -> scheduler_inv (on_this Stop w).
Proof.
  intros w H. destruct (view_Stop_cases w) as [Hv|Hv].
  - eapply scheduler_inv_view; eauto.
  - eapply scheduler_inv_no_threads; eauto.
Qed.

Lemma view_GenerateCacheIDInternal : forall w r,
  view (set_this (GenerateCacheIDInternal r) w) = view (set_this r w).
Proof.
  intros w r. unfold GenerateCacheIDInternal. destruct (_ || _); reflexivity.
Qed.

Lemma map_add_seq : forall a n s, map (fun i => (a + i)%nat) (seq s n) = seq (a + s) n.
Proof.
  intros a n. induction n as [|n IH]; intros s; simpl; auto.
  rewrite IH. f_equal. f_equal. lia.
Qed.

Lemma pending_fresh : forall w id,
  Forall (fun s => (s < next_object w)%nat) (signals w) ->
  (next_object w <= id)%nat -> pending w id = 0%nat.
Proof.
  intros w id Hs Hid. unfold pending. apply count_occ_not_In.
  intros Hin. rewrite Forall_forall in Hs. apply Hs in Hin. lia.
Qed.

Lemma caching_Start : forall env w, caching_ (this (Start env w)) = caching_ (this w).
Proof. intros. unfold Start. destruct (started_ (this w)); reflexivity. Qed.

Lemma master_thread_Start : forall env w,
  master_thread_ (this (Start env w)) = master_thread_ (this w).
Proof. intros. unfold Start. destruct (started_ (this w)); reflexivity. Qed.

Lemma signals_Start : forall env w, signals (Start env w) = signals w.
Proof. intros. unfold Start. destruct (started_ (this w)); reflexivity. Qed.

Lemma scheduler_inv_Start : forall env w, scheduler_inv w -> scheduler_inv (Start env w).
Proof.
  intros env w [H1 H2 H3]. unfold Start.
  destruct (started_ (this w)) eqn:Hst; [constructor; auto|].
  set (n := Z.to_nat (idealThreadCount env)).
  constructor; simpl.
  - rewrite map_map. simpl. rewrite map_add_seq. apply seq_NoDup.
  - rewrite Forall_map. apply Forall_forall. intros i Hi. apply in_seq in Hi. simpl.
    unfold pending at 1. simpl. fold (pending w (next_object w + i)).
    rewrite pending_fresh by (auto; lia).
    split; lia.
  - eapply Forall_impl; [|exact H3]. simpl. intros; lia.
Qed.

Lemma idle_when_not_caching : forall w,
  scheduler_inv w -> caching_ (this w) = false ->
  Forall (fun t => primaries t = 0%nat /\ pending w (thread_id t) = 0%nat
                   /\ (thread_id t < next_object w)%nat)
         (threads_ (this w)).
Proof.
  intros w [_ H2 _] Hc. eapply Forall_impl; [|exact H2]. simpl.
  intros t [Hb Hn]. unfold budget in Hb. rewrite Hc in Hb. simpl in Hb. lia.
Qed.

Lemma primaries_Queue_primary : forall t dep,
  primaries (snd (Queue t dep true)) = S (primaries t)
  /\ thread_id (snd (Queue t dep true)) = thread_id t.
Proof.
  intros t dep. unfold Queue, primaries. simpl.
  rewrite filter_app, length_app. simpl. split; [lia|reflexivity].
Qed.

Lemma primaries_Queue_sibling : forall t dep,
  primaries (snd (Queue t dep false)) = primaries t
  /\ thread_id (snd (Queue t dep false)) = thread_id t.
Proof.
  intros t dep. unfold Queue, primaries.
  destruct (thread_queue t) eqn:Hq; simpl; rewrite ?Hq; split; reflexivity.
Qed.

Lemma same_thread_refl : forall id, same_thread (Some id) id = true.
Proof. intros. simpl. apply Nat.eqb_refl. Qed.

Lemma scheduler_inv_CacheNext : forall env w w',
  scheduler_inv w -> CacheNext env w = Done w' -> scheduler_inv w'.
Proof.
  intros env w w' Hinv H. unfold CacheNext in H.
  destruct (cache_queue_ (this w)) as [|first rest] eqn:Hq;
    [inversion H; subst; auto|].
  destruct (connected_output w) as [connected|] eqn:Hco;
    [|inversion H; subst; auto].
  destruct (caching_ (this w)) eqn:Hc; [inversion H; subst; auto|].
  pose proof (scheduler_inv_Start env Hinv) as Hinv1.
  assert (Hc1 : caching_ (this (Start env w)) = false) by (rewrite caching_Start; auto).
  pose proof (idle_when_not_caching Hinv1 Hc1) as Hidle.
  destruct Hinv1 as [H1 _ H3].
  remember (Start env w) as w1 eqn:Hw1. clear Hw1 Hinv Hq Hco Hc w.
  simpl in H.
  destruct (threads_ (this w1)) as [|master others] eqn:Hts; [discriminate|].
  inversion H; subst w'; clear H.
  inversion Hidle as [|? ? [Hm0 [Hm1 Hm2]] Hothers]; subst.
  unfold primaries in Hm0.
  constructor; simpl.
  - exact H1.
  - constructor.
    + unfold pending, budget, primaries in *. simpl.
      rewrite filter_app, length_app, Hm0, Hm1, Nat.eqb_refl. simpl.
      split; [lia|exact Hm2].
    + eapply Forall_impl; [|exact Hothers]. simpl.
      intros t [Ht0 [Ht1 Ht2]]. unfold pending in *. simpl. rewrite Ht0, Ht1.
      split; [lia|exact Ht2].
  - exact H3.
Qed.

Lemma view_CachePathName : forall env t w, view (snd (CachePathName env t w)) = view w.
Proof.
  intros. unfold CachePathName, mkpath. simpl.
  destruct (existsb _ _); reflexivity.
Qed.

Lemma scheduler_inv_ThreadCallback : forall env sender rest w w',
  signals w = sender :: rest ->
  scheduler_inv w ->
  ThreadCallback env sender (set_signals rest w) = Done w' ->
  scheduler_inv w'.
Proof.
  intros env sender rest w w' Hsig [H1 H2 H3] H.
  rewrite Hsig in H3. inversion H3 as [|? ? Hs0 Hrest]; subst.
  unfold ThreadCallback in H.
  change (master_thread_ (this (set_signals rest w))) with (master_thread_ (this w)) in H.
  destruct (same_thread (master_thread_ (this w)) sender) eqn:Hm.
  - (* the master thread reports *)
    set (w1 := on_this (set_caching_ false) (set_signals rest w)) in *.
    assert (Hinv1 : scheduler_inv w1).
    { constructor; simpl; auto.
      eapply Forall_impl; [|exact H2]. simpl. intros t [Hb Hn]. split; auto.
      unfold pending, budget in *. simpl. rewrite Hsig in Hb. simpl in Hb.
      destruct (Nat.eq_dec sender (thread_id t)) as [He|He].
      - destruct (caching_ (this w) && same_thread (master_thread_ (this w)) (thread_id t));
          lia.
      - replace (same_thread (master_thread_ (this w)) (thread_id t)) with false in Hb.
        + rewrite andb_false_r in Hb. lia.
        + destruct (master_thread_ (this w)) as [m|]; simpl in *; auto.
          apply Nat.eqb_eq in Hm. subst m. symmetry. apply Nat.eqb_neq. exact He. }
    destruct (CachePathName env (cache_frame_ (this w1)) w1) as [fn w2] eqn:Hcp.
    assert (Hv2 : view w2 = view w1).
    { pose proof (view_CachePathName env (cache_frame_ (this w1)) w1) as Hv.
      rewrite Hcp in Hv. exact Hv. }
    assert (Hinv2 : scheduler_inv w2) by (eapply scheduler_inv_view; eauto).
    destruct (match connected_output w1 with
              | Some _ => get_value env (cache_frame_ (this w1))
              | None => None
              end) as [tex|].
    + destruct (Z.of_nat (List.length (download_threads_ (this w2))) =? 0)%Z;
        [discriminate|].
      destruct ((last_download_thread_ (this w2) <? 0)%Z
                || (Double.INT_MAX <=? last_download_thread_ (this w2))%Z);
        [discriminate|].
      simpl in H. eapply scheduler_inv_CacheNext; [|exact H].
      eapply scheduler_inv_view; [|exact Hinv2]. reflexivity.
    + simpl in H. eapply scheduler_inv_CacheNext; [|exact H].
      eapply scheduler_inv_view; [|exact Hinv2].
      destruct (file_exists fn w2); reflexivity.
  - (* some other thread *)
    inversion H; subst w'. constructor; simpl; auto.
    eapply Forall_impl; [|exact H2]. simpl. intros t [Hb Hn]. split; auto.
    unfold pending, budget in *. simpl. rewrite Hsig in Hb. simpl in Hb.
    destruct (Nat.eq_dec sender (thread_id t)); lia.
Qed.

Lemma complete_front_spec : forall tid ts primary ts',
  complete_front tid ts = Some (primary, ts') ->
  NoDup (map thread_id ts) ->
  map thread_id ts' = map thread_id ts
  /\ Forall2 (fun t t' =>
                thread_id t' = thread_id t
                /\ (thread_id t <> tid -> primaries t' = primaries t)
                /\ (thread_id t = tid ->
                    primaries t = ((if primary then 1 else 0) + primaries t')%nat))
             ts ts'.
Proof.
  intros tid ts. induction ts as [|t rest IH]; intros primary ts' H Hnd; simpl in H.
  - discriminate.
  - inversion Hnd as [|? ? Hnotin Hnd']; subst.
    destruct (Nat.eqb (thread_id t) tid) eqn:Heq.
    + apply Nat.eqb_eq in Heq.
      destruct (thread_queue t) as [|[dep p] q] eqn:Hq; [discriminate|].
      inversion H; subst; clear H. simpl. split; [reflexivity|].
      constructor.
      * simpl. split; [reflexivity|]. split; [intros Hne; congruence|].
        intros _. unfold primaries. rewrite Hq. simpl.
        destruct primary; reflexivity.
      * clear IH Hnd' Hnd. induction rest as [|t' rest IH]; constructor.
        -- split; [reflexivity|]. split; [reflexivity|].
           intros He. exfalso. apply Hnotin. simpl. left. congruence.
        -- apply IH. intros Hin. apply Hnotin. simpl. right. exact Hin.
    + apply Nat.eqb_neq in Heq.
      destruct (complete_front tid rest) as [[p rest']|] eqn:Hcf; [|discriminate].
      inversion H; subst; clear H.
      destruct (IH _ _ eq_refl Hnd') as [Hids Hall].
      simpl. rewrite Hids. split; [reflexivity|].
      constructor; auto. split; [reflexivity|]. split; [reflexivity|].
      intros He. contradiction.
Qed.

Lemma scheduler_inv_worker_done : forall w tid w',
  scheduler_inv w -> worker_done w tid = Done w' -> scheduler_inv w'.
Proof.
  intros w tid w' [H1 H2 H3] H. unfold worker_done in H.
  destruct (complete_front tid (threads_ (this w))) as [[primary ts]|] eqn:Hcf;
    [|discriminate].
  destruct (complete_front_spec _ _ Hcf H1) as [Hids Hall].
  assert (Htid : In tid (map thread_id (threads_ (this w)))).
  { clear - Hcf. revert primary ts Hcf.
    induction (threads_ (this w)) as [|t rest IH]; intros primary ts Hcf; simpl in *.
    - discriminate.
    - destruct (Nat.eqb (thread_id t) tid) eqn:Heq.
      + left. apply Nat.eqb_eq. exact Heq.
      + destruct (complete_front tid rest) as [[p r]|] eqn:E; [|discriminate].
        right. eapply IH. reflexivity. }
  assert (Htid_lt : (tid < next_object w)%nat).
  { apply in_map_iff in Htid. destruct Htid as [t [Ht Hin]].
    rewrite Forall_forall in H2. apply H2 in Hin. lia. }
  inversion H; subst w'; clear H.
  assert (Hgoal : Forall
            (fun t' => (primaries t'
                        + count_occ Nat.eq_dec
                            (if primary then signals w ++ [tid] else signals w)
                            (thread_id t')
                        <= budget w (thread_id t'))%nat
                       /\ (thread_id t' < next_object w)%nat) ts).
  { revert H2. clear - Hall. induction Hall as [|t t' l l' [Hid [Hne He]] Hrest IH];
      intros H2; constructor.
    - inversion H2 as [|? ? [Hb Hn] _]; subst. rewrite Hid. split; [|exact Hn].
      unfold pending in Hb.
      destruct (Nat.eq_dec (thread_id t) tid) as [E|E].
      + specialize (He E). destruct primary.
        * rewrite count_occ_app. simpl.
          destruct (Nat.eq_dec tid (thread_id t)); [|congruence]. lia.
        * lia.
      + specialize (Hne E). destruct primary.
        * rewrite count_occ_app. simpl.
          destruct (Nat.eq_dec tid (thread_id t)); [congruence|]. lia.
        * lia.
    - apply IH. inversion H2; auto. }
  destruct primary; constructor; simpl; auto.
  - rewrite Hids. exact H1.
  - apply Forall_app. split; auto.
  - rewrite Hids. exact H1.
Qed.

Lemma request_sibling_spec : forall dep ts,
  Forall2 (fun t t' => thread_id t' = thread_id t /\ primaries t' = primaries t)
          ts (request_sibling dep ts).
Proof.
  intros dep ts. induction ts as [|t rest IH]; simpl; [constructor|].
  destruct (Queue t dep false) as [accepted t'] eqn:Hq.
  pose proof (primaries_Queue_sibling t dep) as [Hp Hid]. rewrite Hq in Hp, Hid.
  simpl in Hp, Hid.
  destruct accepted.
  - constructor; [split; auto|].
    clear. induction rest; constructor; auto.
  - constructor; [split; auto|]. exact IH.
Qed.

Lemma scheduler_inv_ThreadRequestSibling : forall dep w,
  scheduler_inv w -> scheduler_inv (on_this (ThreadRequestSibling dep) w).
Proof.
  intros dep w [H1 H2 H3].
  pose proof (request_sibling_spec dep (threads_ (this w))) as Hall.
  assert (Hids : map thread_id (request_sibling dep (threads_ (this w)))
                 = map thread_id (threads_ (this w))).
  { clear - Hall. induction Hall as [|? ? ? ? [Hid _]]; simpl; congruence. }
  constructor; simpl; auto.
  - rewrite Hids. exact H1.
  - revert H2. clear - Hall.
    induction Hall as [|t t' l l' [Hid Hp] Hrest IH]; intros H2; constructor.
    + inversion H2 as [|? ? [Hb Hn] _]; subst. unfold pending, budget in *. simpl.
      rewrite Hid, Hp. split; auto.
    + apply IH. inversion H2; auto.
Qed.

Lemma view_Value : forall env output time w r,
  Value env output time w = Done r -> view (snd r) = view w.
Proof.
  intros env output time w r H. unfold Value in H.
  destruct output; [|inversion H; reflexivity].
  destruct (connected_output w); [|inversion H; reflexivity].
  destruct (isEmpty _); [inversion H; reflexivity|].
  destruct (isNull _); [inversion H; reflexivity|].
  destruct (CachePathName env time w) as [fn w1] eqn:Hcp.
  pose proof (view_CachePathName env time w) as Hv. rewrite Hcp in Hv. simpl in Hv.
  destruct (file_exists fn w1); [|inversion H; subst; exact Hv].
  destruct (open_image env fn); [|inversion H; subst; exact Hv].
  destruct (Bytes.poke _ _ _); simpl in H; try discriminate.
  destruct (master_texture_ (this w1)); [|discriminate].
  inversion H; subst. simpl. exact Hv.
Qed.

Lemma scheduler_inv_SetParameters : forall width height format mode divider w w',
  scheduler_inv w ->
  lift (SetParameters width height format mode divider) w = Done w' ->
  scheduler_inv w'.
Proof.
  intros width height format mode divider w w' Hinv H.
  apply scheduler_inv_Stop in Hinv.
  unfold lift, SetParameters, CalculateEffectiveDimensions in H.
  destruct (0 <? divider)%Z; simpl in H;
    destruct (int_div _ _); simpl in H; try discriminate;
    destruct (int_div _ _); simpl in H; try discriminate;
    inversion H; subst w'; clear H;
    (eapply scheduler_inv_view; [|exact Hinv]);
    rewrite view_GenerateCacheIDInternal; reflexivity.
Qed.

Lemma scheduler_inv_SetDivider : forall divider w w',
  scheduler_inv w -> lift (SetDivider divider) w = Done w' -> scheduler_inv w'.
Proof.
  intros divider w w' Hinv H.
  apply scheduler_inv_Stop in Hinv.
  unfold lift, SetDivider, CalculateEffectiveDimensions in H.
  destruct (negb _); simpl in H; try discriminate.
  destruct (int_div _ _); simpl in H; try discriminate.
  destruct (int_div _ _); simpl in H; try discriminate.
  inversion H; subst w'; clear H.
  eapply scheduler_inv_view; [|exact Hinv].
  rewrite view_GenerateCacheIDInternal. reflexivity.
Qed.

Lemma scheduler_inv_InvalidateCache : forall env fuel a b w w',
  scheduler_inv w -> InvalidateCache env fuel a b w = Done w' -> scheduler_inv w'.
Proof.
  intros env fuel a b w w' Hinv H. unfold InvalidateCache, InvalidateCache_enqueue in H.
  simpl in H.
  destruct (snap_start _ _); simpl in H; try discriminate.
  destruct (enqueue_loop _ _ _ _ _); simpl in H; try discriminate.
  eapply scheduler_inv_CacheNext; [|exact H].
  eapply scheduler_inv_view; [|exact Hinv]. reflexivity.
Qed.

Lemma scheduler_inv_exec : forall env fuel ev w w',
  scheduler_inv w -> exec env fuel ev w = Done w' -> scheduler_inv w'.
Proof.
  intros env fuel ev w w' Hinv H. destruct ev; simpl in H.
  - inversion H; subst. eapply scheduler_inv_view; [|exact Hinv].
    unfold on_this, SetCacheName. rewrite view_GenerateCacheIDInternal. reflexivity.
  - destruct (Value env output time w) as [r| |] eqn:Hv; simpl in H; try discriminate.
    inversion H; subst. eapply scheduler_inv_view; [|exact Hinv].
    eapply view_Value; eauto.
  - inversion H; subst. apply scheduler_inv_Stop; auto.
  - eapply scheduler_inv_InvalidateCache; eauto.
  - inversion H; subst. eapply scheduler_inv_view; [|exact Hinv]. reflexivity.
  - eapply scheduler_inv_SetParameters; eauto.
  - eapply scheduler_inv_SetDivider; eauto.
  - inversion H; subst. apply scheduler_inv_Start; auto.
  - inversion H; subst. apply scheduler_inv_Stop; auto.
  - destruct (signals w) as [|sender rest] eqn:Hs; [discriminate|].
    eapply scheduler_inv_ThreadCallback; eauto.
  - inversion H; subst. apply scheduler_inv_ThreadRequestSibling; auto.
  - eapply scheduler_inv_worker_done; eauto.
  - inversion H; subst. eapply scheduler_inv_view; [|exact Hinv]. reflexivity.
  - inversion H; subst. eapply scheduler_inv_view; [|exact Hinv]. reflexivity.
Qed.

Lemma scheduler_inv_reachable : forall g w, reachable g w -> scheduler_inv w.
Proof.
  intros g w H. induction H.
  - constructor; simpl; constructor.
  - eapply scheduler_inv_exec; eauto.
Qed.

Lemma in_flight_bound : forall w, scheduler_inv w ->
  (in_flight w <= 1)%nat /\ (in_flight w = 1%nat -> caching_ (this w) = true).
Proof.
  intros w [H1 H2 _]. unfold in_flight.
  assert (Hsum : forall ts,
            NoDup (map thread_id ts) ->
            Forall (fun t => (primaries t <= budget w (thread_id t))%nat) ts ->
            (list_sum (map primaries ts)
             <= if caching_ (this w) then 1 else 0)%nat).
  { intros ts. induction ts as [|t rest IH]; intros Hnd Hall; simpl.
    - destruct (caching_ (this w)); lia.
    - inversion Hnd as [|? ? Hnotin Hnd']; subst.
      inversion Hall as [|? ? Hb Hrest]; subst.
      specialize (IH Hnd' Hrest).
      unfold budget in Hb.
      destruct (caching_ (this w)); simpl in Hb; [|lia].
      destruct (same_thread (master_thread_ (this w)) (thread_id t)) eqn:Hm; [|lia].
      assert (Hz : list_sum (map primaries rest) = 0%nat).
      { clear IH Hnd Hall Hb. induction rest as [|t' rest IH]; simpl; auto.
        inversion Hrest as [|? ? Hb' Hrest']; subst. inversion Hnd'; subst.
        rewrite IH; auto.
        - unfold budget in Hb'.
          replace (same_thread (master_thread_ (this w)) (thread_id t')) with false in Hb'.
          + rewrite andb_false_r in Hb'. lia.
          + destruct (master_thread_ (this w)) as [m|]; simpl in *; auto.
            apply Nat.eqb_eq in Hm. subst m. symmetry. apply Nat.eqb_neq.
            intros E. apply Hnotin. simpl. left. congruence.
        - intros Hin. apply Hnotin. simpl. right. exact Hin. }
      lia. }
  assert (Hall : Forall (fun t => (primaries t <= budget w (thread_id t))%nat)
                        (threads_ (this w))).
  { eapply Forall_impl; [|exact H2]. simpl. intros t [Hb _]. lia. }
  specialize (Hsum _ H1 Hall).
  destruct (caching_ (this w)); split; try lia. 
Qed.

Lemma CacheNext_while_caching : forall env w,
  caching_ (this w) = true -> CacheNext env w = Done w.
Proof.
  intros env w H. unfold CacheNext. rewrite H.
  destruct (cache_queue_ (this w)); [reflexivity|].
  destruct (connected_output w); reflexivity.
Qed.

Lemma CacheNext_dispatch : forall env w w',
  CacheNext env w = Done w' ->
  w' = w \/ (caching_ (this w') = true /\ (1 <= in_flight w')%nat).
Proof.
  intros env w w' H. unfold CacheNext in H.
  destruct (cache_queue_ (this w)) as [|first rest]; [inversion H; auto|].
  destruct (connected_output w) as [c|]; [|inversion H; auto].
  destruct (caching_ (this w)); [inversion H; auto|].
  simpl in H. destruct (threads_ (this (Start env w))) as [|master others];
    [discriminate|].
  inversion H; subst w'; clear H. right. split; [reflexivity|].
  unfold in_flight. simpl. unfold Queue, primaries at 1. simpl.
  rewrite filter_app, length_app. simpl. lia.
Qed.

Lemma caching_CachePathName : forall env t w,
  caching_ (this (snd (CachePathName env t w))) = caching_ (this w).
Proof.
  intros. pose proof (view_CachePathName env t w) as H. unfold view in H.
  inversion H. reflexivity.
Qed.

Lemma caching_GenerateCacheIDInternal : forall r,
  caching_ (GenerateCacheIDInternal r) = caching_ r.
Proof. intros. unfold GenerateCacheIDInternal. destruct (_ || _); reflexivity. Qed.

Lemma caching_Stop : forall r, caching_ (Stop r) = caching_ r.
Proof. intros. unfold Stop. destruct (negb _); reflexivity. Qed.

Lemma caching_SetParameters : forall width height format mode divider r r',
  SetParameters width height format mode divider r = Done r' ->
  caching_ r' = caching_ r.
Proof.
  intros width height format mode divider r r' H.
  unfold SetParameters, CalculateEffectiveDimensions in H.
  destruct (0 <? divider)%Z;
    destruct (int_div _ _); unfold bind in H; try discriminate;
    destruct (int_div _ _); try discriminate;
    inversion H; subst r'; rewrite caching_GenerateCacheIDInternal;
    (transitivity (caching_ (Stop r)); [reflexivity|apply caching_Stop]).
Qed.

Lemma caching_SetDivider : forall divider r r',
  SetDivider divider r = Done r' -> caching_ r' = caching_ r.
Proof.
  intros divider r r' H. unfold SetDivider, CalculateEffectiveDimensions in H.
  destruct (negb _); try discriminate.
  destruct (int_div _ _); unfold bind in H; try discriminate.
  destruct (int_div _ _); try discriminate.
  inversion H; subst r'. rewrite caching_GenerateCacheIDInternal.
  transitivity (caching_ (Stop r)); [reflexivity|apply caching_Stop].
Qed.

Lemma caching_cleared_by_master_only : forall env fuel ev w w',
  exec env fuel ev w = Done w' ->
  caching_ (this w) = true -> caching_ (this w') = false ->
  ev = Deliver_FinishedPath
  /\ exists sender rest,
       signals w = sender :: rest /\ master_thread_ (this w) = Some sender.
Proof.
  intros env fuel ev w w' H Hc Hc'.
  assert (Hview : forall w1, view w1 = view w -> caching_ (this w1) = true).
  { intros w1 Hv. unfold view in Hv. inversion Hv. congruence. }
  assert (Hstop : caching_ (this (on_this Stop w)) = true).
  { destruct (view_Stop_cases w) as [Hv|Hv]; unfold view in Hv; inversion Hv; congruence. }
  destruct ev; simpl in H.
  - inversion H; subst. rewrite Hview in Hc'; [discriminate|].
    unfold on_this, SetCacheName. rewrite view_GenerateCacheIDInternal. reflexivity.
  - destruct (Value env output time w) as [r| |] eqn:Hv; simpl in H; try discriminate.
    inversion H; subst. rewrite Hview in Hc'; [discriminate|]. eapply view_Value; eauto.
  - inversion H; subst.
    change (caching_ (this (on_this Stop w)) = false) in Hc'. congruence.
  - unfold InvalidateCache, InvalidateCache_enqueue in H. simpl in H.
    destruct (snap_start _ _); simpl in H; try discriminate.
    destruct (enqueue_loop _ _ _ _ _); simpl in H; try discriminate.
    rewrite CacheNext_while_caching in H by (simpl; exact Hc).
    inversion H; subst. simpl in Hc'. congruence.
  - inversion H; subst. simpl in Hc'. congruence.
  - unfold lift in H.
    destruct (SetParameters _ _ _ _ _ _) as [r'| |] eqn:Hp; simpl in H; try discriminate.
    inversion H; subst w'. simpl in Hc'.
    rewrite (caching_SetParameters _ _ _ _ _ _ Hp) in Hc'. congruence.
  - unfold lift in H.
    destruct (SetDivider _ _) as [r'| |] eqn:Hp; simpl in H; try discriminate.
    inversion H; subst w'. simpl in Hc'.
    rewrite (caching_SetDivider _ _ Hp) in Hc'. congruence.
  - inversion H; subst. rewrite caching_Start in Hc'. congruence.
  - inversion H; subst. congruence.
  - split; [reflexivity|].
    destruct (signals w) as [|sender rest] eqn:Hs; [discriminate|].
    exists sender, rest. split; [reflexivity|].
    unfold ThreadCallback in H.
    change (master_thread_ (this (set_signals rest w))) with (master_thread_ (this w)) in H.
    destruct (master_thread_ (this w)) as [m|] eqn:Hm; simpl in H.
    + destruct (Nat.eqb m sender) eqn:E.
      * apply Nat.eqb_eq in E. congruence.
      * inversion H; subst. simpl in Hc'. congruence.
    + inversion H; subst. simpl in Hc'. congruence.
  - inversion H; subst. simpl in Hc'. congruence.
  - unfold worker_done in H.
    destruct (complete_front _ _) as [[[|] ts]|]; inversion H; subst;
      simpl in Hc'; congruence.
  - inversion H; subst. simpl in Hc'. congruence.
  - inversion H; subst. simpl in Hc'. congruence.
Qed.

End SchedulerFacts.

(** ** Reachable states *)

Section ReachableFacts.
Import Rational Renderer.

Lemma film_caching_reachable : reachable Samples.leftover Samples.film_caching.
Proof.
  eapply (@reachable_step _ Samples.film _ Samples.env 10%nat
            (Call_InvalidateCache 0 (1 # 10))); [|reflexivity].
  eapply (@reachable_step _ _ _ Samples.env 0%nat (Graph_connect (Some 5%nat)));
    [|reflexivity].
  eapply (@reachable_step _ _ _ Samples.env 0%nat (Call_SetTimebase (1 # 24)));
    [|reflexivity].
  apply reachable_new.
Defined.

(** C3.  In every reachable state the invalidation queue holds no
    timestamp twice.  A further invalidation leaves the queue without
    duplicates: it keeps the queued entries where they are and appends
    only timestamps that are not among them. *)
Theorem queue_never_holds_duplicates :
  forall (g : RendererProcessor) (w : World),
    reachable g w ->
    NoDupA Qeq (cache_queue_ (this w))
    /\ forall fuel start_range end_range r',
         InvalidateCache_enqueue fuel start_range end_range (this w) = Done r' ->
         NoDupA Qeq (cache_queue_ r')
         /\ exists added,
              cache_queue_ r' = cache_queue_ (this w) ++ added
              /\ forall T, InA Qeq T (cache_queue_ (this w)) -> ~ InA Qeq T added.
Proof.
  intros g w Hr.
  assert (Hnd : NoDupA Qeq (cache_queue_ (this w))).
  { induction Hr.
    - simpl. constructor.
    - eapply NoDupA_exec; eauto. }
  split; [exact Hnd|].
  intros fuel a b r' H. unfold InvalidateCache_enqueue in H.
  destruct (snap_start _ _) as [s| |]; simpl in H; try discriminate.
  destruct (enqueue_loop _ _ _ _ _) as [q| |] eqn:Hl; simpl in H; try discriminate.
  inversion H; subst r'; clear H. simpl.
  pose proof (enqueue_loop_NoDupA _ _ _ _ Hnd Hl) as Hnd'.
  split; [exact Hnd'|].
  destruct (enqueue_loop_appends _ _ _ _ _ Hl) as [added E].
  exists added. split; [exact E|].
  intros T HT. rewrite E in Hnd'. eapply NoDupA_app_disjoint; eauto.
Qed.

Lemma queue_never_holds_duplicates_witness :
  reachable Samples.leftover Samples.film_caching
  /\ cache_queue_ (this Samples.film_caching) = [1 # 24; 1 # 12]
  /\ NoDupA Qeq (cache_queue_ (this Samples.film_caching)).
Proof.
  split; [exact film_caching_reachable|]. split; [reflexivity|].
  exact (proj1 (@queue_never_holds_duplicates Samples.leftover Samples.film_caching
                  film_caching_reachable)).
Defined.

(** C4.  In every reachable state at most one primary render is in
    flight, and only while [caching_] is set.  [CacheNext] does nothing
    while the flag is set; when it dispatches it sets the flag and
    exactly one primary render is in flight; and the only event that
    takes the flag from set to clear is the delivery of [FinishedPath]
    from the thread recorded as the master. *)
Theorem one_primary_render_in_flight :
  forall (g : RendererProcessor) (w : World),
    reachable g w ->
    (in_flight w <= 1)%nat
    /\ (in_flight w = 1%nat -> caching_ (this w) = true)
    /\ (forall env, caching_ (this w) = true -> CacheNext env w = Done w)
    /\ (forall env w', CacheNext env w = Done w' ->
          w' = w \/ (caching_ (this w') = true /\ in_flight w' = 1%nat))
    /\ (forall env fuel ev w',
          exec env fuel ev w = Done w' ->
          caching_ (this w) = true -> caching_ (this w') = false ->
          ev = Deliver_FinishedPath
          /\ exists sender rest,
               signals w = sender :: rest /\ master_thread_ (this w) = Some sender).
Proof.
  intros g w Hr. pose proof (scheduler_inv_reachable Hr) as Hinv.
  destruct (in_flight_bound Hinv) as [Hle Hone].
  split; [exact Hle|]. split; [exact Hone|].
  split; [intros env; apply CacheNext_while_caching|].
  split.
  - intros env w' H. destruct (CacheNext_dispatch _ _ H) as [E|[Hc Hge]]; [left; exact E|].
    right. split; [exact Hc|].
    pose proof (scheduler_inv_CacheNext _ Hinv H) as Hinv'.
    destruct (in_flight_bound Hinv') as [Hle' _]. lia.
  - intros env fuel ev w'. apply caching_cleared_by_master_only.
Qed.

Lemma one_primary_render_in_flight_witness :
  reachable Samples.leftover Samples.film_caching
  /\ in_flight Samples.film_caching = 1%nat
  /\ (in_flight Samples.film_caching <= 1)%nat.
Proof.
  split; [exact film_caching_reachable|]. split; [reflexivity|].
  exact (proj1 (@one_primary_render_in_flight Samples.leftover Samples.film_caching
                  film_caching_reachable)).
Defined.

End ReachableFacts.

(** ** The cache identity *)

Section IdentityFacts.
Import Rational Renderer.

Lemma number_inj : forall a b : Z, number a = number b -> a = b.
Proof.
  intros a b H. unfold number in H. apply DecimalZ.to_int_inj.
  assert (Hn : forall z, Z.to_int z <> Decimal.Pos Decimal.Nil
                         /\ Z.to_int z <> Decimal.Neg Decimal.Nil).
  { intros [|p|p]; simpl; split; try discriminate;
      intros E; inversion E as [E']; apply (Unsigned.to_uint_nonnil _ E'). }
  destruct (Hn a) as [Ha1 Ha2]. destruct (Hn b) as [Hb1 Hb2].
  pose proof (NilZero.isi _ Ha1 Ha2) as Ia. pose proof (NilZero.isi _ Hb1 Hb2) as Ib.
  rewrite H in Ia. rewrite Ia in Ib. inversion Ib. reflexivity.
Qed.

Lemma toUtf8_inj : forall s s' : string, toUtf8 s = toUtf8 s' -> s = s'.
Proof.
  intros s s' H. unfold toUtf8 in H.
  rewrite <- (string_of_list_byte_of_string s), <- (string_of_list_byte_of_string s').
  rewrite H. reflexivity.
Qed.

Lemma hashed_data_differs : forall i j,
  differ_in_one_field i j -> hashed_data i <> hashed_data j.
Proof.
  intros i j H E. unfold hashed_data in E.
  destruct H as [n n' t w h f d Hne|n t t' w h f d Hne|n t w w' h f d Hne
                 |n t w h h' f d Hne|n t w h f f' d Hne|n t w h f d d' Hne];
    simpl in E; apply Hne.
  - apply toUtf8_inj. eapply app_inv_tail. exact E.
  - apply number_inj, toUtf8_inj.
    apply app_inv_head in E. eapply app_inv_tail. exact E.
  - apply number_inj, toUtf8_inj.
    do 2 apply app_inv_head in E. eapply app_inv_tail. exact E.
  - apply number_inj, toUtf8_inj.
    do 3 apply app_inv_head in E. eapply app_inv_tail. exact E.
  - apply number_inj, toUtf8_inj.
    do 4 apply app_inv_head in E. eapply app_inv_tail. exact E.
  - apply number_inj, toUtf8_inj.
    do 5 apply app_inv_head in E. exact E.
Qed.

Lemma hex_digit_pair_inj : forall a b : byte,
  Sha1.hex_digit (Sha1.Z_of_byte a / 16) = Sha1.hex_digit (Sha1.Z_of_byte b / 16) ->
  Sha1.hex_digit (Sha1.Z_of_byte a mod 16) = Sha1.hex_digit (Sha1.Z_of_byte b mod 16) ->
  a = b.
Proof.
  intros a b H1 H2.
  assert (Hrt : forall z, (0 <= z < 256)%Z -> Sha1.Z_of_byte (Sha1.byte_of_Z z) = z).
  { intros z Hz. unfold Sha1.Z_of_byte, Sha1.byte_of_Z.
    destruct (Byte.of_N (Z.to_N z)) as [c|] eqn:Hc.
    - apply Byte.to_of_N in Hc. lia.
    - apply Byte.of_N_None_iff in Hc. lia. }
  assert (Hd : forall x y, (0 <= x < 16)%Z -> (0 <= y < 16)%Z ->
                           Sha1.hex_digit x = Sha1.hex_digit y -> x = y).
  { intros x y Hx Hy E. unfold Sha1.hex_digit in E.
    apply (f_equal Sha1.Z_of_byte) in E.
    destruct (x <? 10)%Z eqn:Hx10; destruct (y <? 10)%Z eqn:Hy10;
      rewrite !Hrt in E by lia;
      try apply Z.ltb_lt in Hx10; try apply Z.ltb_lt in Hy10;
      try apply Z.ltb_ge in Hx10; try apply Z.ltb_ge in Hy10; lia. }
  assert (Hr : forall c : byte, (0 <= Sha1.Z_of_byte c < 256)%Z).
  { intros c. unfold Sha1.Z_of_byte. pose proof (Byte.to_N_bounded c). lia. }
  pose proof (Hr a) as Ha. pose proof (Hr b) as Hb.
  assert (E1 : (Sha1.Z_of_byte a / 16 = Sha1.Z_of_byte b / 16)%Z).
  { apply Hd; auto; split; try (apply Z.div_pos; lia);
      apply Z.div_lt_upper_bound; lia. }
  assert (E2 : (Sha1.Z_of_byte a mod 16 = Sha1.Z_of_byte b mod 16)%Z).
  { apply Hd; auto; apply Z.mod_pos_bound; lia. }
  assert (E : Sha1.Z_of_byte a = Sha1.Z_of_byte b).
  { rewrite (Z.div_mod (Sha1.Z_of_byte a) 16), (Z.div_mod (Sha1.Z_of_byte b) 16) by lia.
    rewrite E1, E2. reflexivity. }
  unfold Sha1.Z_of_byte in E.
  assert (E' : Byte.to_N a = Byte.to_N b) by lia.
  pose proof (Byte.of_to_N a) as Ea. pose proof (Byte.of_to_N b) as Eb.
  rewrite E' in Ea. rewrite Ea in Eb. inversion Eb. reflexivity.
Qed.

Lemma toHex_inj : forall a b, Sha1.toHex a = Sha1.toHex b -> a = b.
Proof.
  induction a as [|x a IH]; intros [|y b] H; simpl in H; try discriminate; auto.
  inversion H as [[H1 H2 H3]]. f_equal.
  - apply hex_digit_pair_inj; auto.
  - apply IH; auto.
Qed.

Lemma string_of_list_byte_inj : forall a b,
  string_of_list_byte a = string_of_list_byte b -> a = b.
Proof.
  intros a b H.
  rewrite <- (list_byte_of_string_of_list_byte a), <- (list_byte_of_string_of_list_byte b).
  rewrite H. reflexivity.
Qed.

Lemma GenerateCacheIDInternal_hashes : forall r,
  nothing_to_hash r = false ->
  GenerateCacheIDInternal r
  = set_cache_id_
      (string_of_list_byte (Sha1.toHex (Sha1.hash (hashed_data (inputs_of r))))) r.
Proof.
  intros r H. unfold GenerateCacheIDInternal. fold (nothing_to_hash r). rewrite H.
  reflexivity.
Qed.

Lemma GenerateCacheIDInternal_skips : forall r,
  nothing_to_hash r = true -> GenerateCacheIDInternal r = r.
Proof.
  intros r H. unfold GenerateCacheIDInternal. fold (nothing_to_hash r). rewrite H.
  reflexivity.
Qed.


Lemma isEmpty_iff : forall s, isEmpty s = true <-> s = EmptyString.
Proof. intros [|c s]; simpl; split; congruence. Qed.










(** C5, as the code has it.  Whenever the generator has something to
    hash (a cache name and non-zero effective dimensions), the identity
    it stores is a function of the six inputs alone: equal inputs give
    equal identities.  Two such inputs that differ in exactly one field
    are hashed from different byte strings, so their identities can only
    coincide if SHA-1 maps these two strings to the same digest. *)
Theorem cache_id_of_inputs :
  forall r1 r2 : RendererProcessor,
    nothing_to_hash r1 = false ->
    nothing_to_hash r2 = false ->
    (inputs_of r1 = inputs_of r2 ->
     cache_id_ (GenerateCacheIDInternal r1) = cache_id_ (GenerateCacheIDInternal r2))
    /\ (differ_in_one_field (inputs_of r1) (inputs_of r2) ->
        hashed_data (inputs_of r1) <> hashed_data (inputs_of r2)
        /\ (cache_id_ (GenerateCacheIDInternal r1)
            = cache_id_ (GenerateCacheIDInternal r2) ->
            Sha1.hash (hashed_data (inputs_of r1))
            = Sha1.hash (hashed_data (inputs_of r2)))).
Proof.
  intros r1 r2 H1 H2.
  rewrite (GenerateCacheIDInternal_hashes _ H1), (GenerateCacheIDInternal_hashes _ H2).
  simpl. split.
  - intros E. rewrite E. reflexivity.
  - intros D. split.
    + apply hashed_data_differs; exact D.
    + intros E. apply toHex_inj, string_of_list_byte_inj. exact E.
Qed.

Lemma cache_id_of_inputs_witness :
  nothing_to_hash Samples.full_hd = false
  /\ nothing_to_hash (set_divider_ 2 Samples.full_hd) = false
  /\ differ_in_one_field (inputs_of Samples.full_hd)
                         (inputs_of (set_divider_ 2 Samples.full_hd))
  /\ hashed_data (inputs_of Samples.full_hd)
     <> hashed_data (inputs_of (set_divider_ 2 Samples.full_hd)).
Proof.
  assert (D : differ_in_one_field (inputs_of Samples.full_hd)
                                  (inputs_of (set_divider_ 2 Samples.full_hd))).
  { apply differ_divider. discriminate. }
  split; [reflexivity|]. split; [reflexivity|]. split; [exact D|].
  exact (proj1 (proj2 (@cache_id_of_inputs Samples.full_hd
                         (set_divider_ 2 Samples.full_hd) eq_refl eq_refl) D)).
Defined.

(** The divider going from 1 to 2 on a named full-HD sequence. *)
Lemma divider_one_to_two_changes_identity :
  cache_id_ (GenerateCacheIDInternal Samples.full_hd)
  = "c5548438881fa9aa20d9ad5f7ef44e74cc81e5e5"%string
  /\ cache_id_ (GenerateCacheIDInternal (set_divider_ 2 Samples.full_hd))
     = "1e20159bee11451d74ef750a1f470bfe608f0fa5"%string.
Proof. split; vm_compute; reflexivity. Qed.

(** C5 fails as stated: with no cache name set, the generator returns
    early, and the inputs with divider 1 and with divider 2 leave the
    same (empty) identity behind. *)
Lemma same_identity_without_a_name :
  exists r1 r2,
    SetParameters 1920 1080 1%Z kOffline 1 Samples.fresh = Done r1
    /\ SetParameters 1920 1080 1%Z kOffline 2 Samples.fresh = Done r2
    /\ differ_in_one_field (inputs_of r1) (inputs_of r2)
    /\ cache_id_ r1 = cache_id_ r2.
Proof.
  eexists. eexists. split; [vm_compute; reflexivity|].
  split; [vm_compute; reflexivity|].
  split; [|reflexivity]. apply differ_divider. discriminate.
Qed.

(** C6, as the code has it.  When the cache name is empty or an
    effective dimension is zero, [GenerateCacheIDInternal] returns at
    once and leaves the whole object, the identity included, as it was. *)
Theorem GenerateCacheIDInternal_keeps_identity :
  forall r : RendererProcessor,
    cache_name_ r = EmptyString \/ effective_width_ r = 0%Z \/ effective_height_ r = 0%Z ->
    GenerateCacheIDInternal r = r.
Proof.
  intros r H. apply GenerateCacheIDInternal_skips. unfold nothing_to_hash.
  destruct H as [H|[H|H]]; rewrite H; simpl; rewrite ?orb_true_r; reflexivity.
Qed.

Lemma GenerateCacheIDInternal_keeps_identity_witness :
  cache_name_ Samples.fresh = EmptyString
  /\ GenerateCacheIDInternal Samples.fresh = Samples.fresh.
Proof.
  split; [reflexivity|].
  apply (GenerateCacheIDInternal_keeps_identity Samples.fresh). left. reflexivity.
Defined.

(** C6 fails as stated: a sequence that already has an identity keeps
    it when its cache name is reset to the empty string; the identity is
    not emptied. *)
Lemma stale_identity_survives_empty_name :
  cache_name_ (set_cache_time_ 2000 (set_cache_name_ EmptyString Samples.full_hd))
  = EmptyString
  /\ cache_id_ (SetCacheName EmptyString 2000 Samples.full_hd)
     = "c5548438881fa9aa20d9ad5f7ef44e74cc81e5e5"%string
  /\ isEmpty (cache_id_ (SetCacheName EmptyString 2000 Samples.full_hd)) = false.
Proof. repeat split. Qed.

End IdentityFacts.

(** ** The read path *)

Section ReadPathFacts.
Import Rational Renderer.

(** C7, as the code has it.  On the texture output, when the input is
    disconnected, or the cache identity is empty, or the timebase is
    null, [Value] returns 0 and changes nothing but the log.  The
    disconnected input is silent; a missing identity and a missing
    timebase each have a warning of their own, and the first failing
    check decides. *)
Theorem Value_early_exits :
  forall (env : Env) (time : rational) (w : World),
    connected_output w = None
    \/ cache_id_ (this w) = EmptyString
    \/ isNull (timebase_ (this w)) = true ->
    no_cache_id <> no_timebase
    /\ Value env texture_output_ time w
       = Done (VInt 0,
               set_log
                 (log w ++
                  match connected_output w with
                  | None => []
                  | Some _ =>
                      if isEmpty (cache_id_ (this w)) then [no_cache_id]
                      else [no_timebase]
                  end) w).
Proof.
  intros env time w H. split; [discriminate|].
  unfold Value, write_log.
  destruct (connected_output w) as [c|] eqn:Hc.
  - destruct (isEmpty (cache_id_ (this w))) eqn:He; [reflexivity|].
    destruct H as [H|[H|H]].
    + discriminate.
    + apply isEmpty_iff in H. congruence.
    + rewrite H. reflexivity.
  - rewrite app_nil_r. destruct w; reflexivity.
Qed.

Lemma Value_early_exits_witness :
  cache_id_ (this Samples.film) = EmptyString
  /\ Value Samples.env texture_output_ 0 Samples.film
     = Done (VInt 0, set_log [no_cache_id] Samples.film).
Proof.
  split; [reflexivity|].
  exact (proj2 (@Value_early_exits Samples.env 0 Samples.film (or_intror (or_introl eq_refl)))).
Defined.

(** C7 fails as stated: with the input disconnected the call logs
    nothing at all. *)
Lemma Value_disconnected_is_silent :
  connected_output (new_World Samples.leftover) = None
  /\ Value Samples.env texture_output_ 0 (new_World Samples.leftover)
     = Done (VInt 0, new_World Samples.leftover)
  /\ log (new_World Samples.leftover) = [].
Proof. repeat split. Qed.

End ReadPathFacts.


(** ** Parameter changes *)

Section ParameterFacts.
Import Rational Renderer.



Lemma GenerateCacheIDInternal_cases : forall r,
  GenerateCacheIDInternal r
  = if nothing_to_hash r then r else set_cache_id_ (identity_of r) r.
Proof. intros r. reflexivity. Qed.





(** The divider going from 1 to 2 on a started 16x8 sequence. *)
Lemma divider_change_while_started :
  exists r',
    SetDivider 2 Samples.running = Done r'
    /\ started_ Samples.running = true /\ started_ r' = false
    /\ threads_ r' = [] /\ master_texture_ r' = None
    /\ effective_width_ Samples.running = 16%Z /\ effective_height_ Samples.running = 8%Z
    /\ effective_width_ r' = 8%Z /\ effective_height_ r' = 4%Z
    /\ cache_id_ r' <> cache_id_ Samples.running.
Proof.
  eexists. split; [vm_compute; reflexivity|]. repeat split. discriminate.
Qed.

End ParameterFacts.

(** ** Audio *)

Section AudioFacts.
Import Rational Bytes Audio.

Lemma size_app : forall a b, size (a ++ b) = (size a + size b)%Z.
Proof. intros. unfold size. rewrite length_app. lia. Qed.

Lemma size_nonneg : forall a, (0 <= size a)%Z.
Proof. intros. unfold size. lia. Qed.

Lemma peek_app : forall a c b,
  peek (a ++ c ++ b) (size a) (size c) = Done c.
Proof.
  intros a c b. unfold peek, in_bounds.
  rewrite !size_app.
  pose proof (size_nonneg a). pose proof (size_nonneg b). pose proof (size_nonneg c).
  replace ((0 <=? size a)%Z && (0 <=? size c)%Z && (size a + size c <=? size a + (size c + size b))%Z) with true
    by (symmetry; rewrite !andb_true_iff, !Z.leb_le; lia).
  unfold size. rewrite !Nat2Z.id.
  rewrite skipn_app, skipn_all, Nat.sub_diag. simpl.
  rewrite firstn_app, firstn_all, Nat.sub_diag. simpl. rewrite app_nil_r. reflexivity.
Qed.

Lemma poke_app : forall a c c' b,
  List.length c' = List.length c ->
  poke (a ++ c ++ b) (size a) c' = Done (a ++ c' ++ b).
Proof.
  intros a c c' b Hlen. unfold poke, in_bounds.
  rewrite !size_app.
  pose proof (size_nonneg a). pose proof (size_nonneg b). pose proof (size_nonneg c).
  assert (Hs : size c' = size c) by (unfold size; lia).
  replace ((0 <=? size a)%Z && (0 <=? size c')%Z && (size a + size c' <=? size a + (size c + size b))%Z) with true
    by (symmetry; rewrite !andb_true_iff, !Z.leb_le; lia).
  unfold size. rewrite !Nat2Z.id.
  rewrite firstn_app, firstn_all, Nat.sub_diag. simpl. rewrite app_nil_r.
  rewrite skipn_app.
  rewrite (skipn_all2 a) by lia. simpl.
  replace (List.length a + List.length c' - List.length a)%nat with (List.length c) by lia.
  rewrite skipn_app, skipn_all, Nat.sub_diag. simpl. reflexivity.
Qed.

Lemma chunk_reversed_length : forall s m m',
  chunk_reversed s m m' -> List.length m' = List.length m.
Proof.
  induction 1; auto.
  rewrite !length_app. lia.
Qed.

Lemma chunk_reversed_sym : forall s m m',
  chunk_reversed s m m' -> chunk_reversed s m' m.
Proof.
  induction 1; constructor; auto.
Qed.

Lemma chunk_reversed_exists : forall s n buf,
  (0 < s)%nat -> List.length buf = (n * s)%nat -> exists r, chunk_reversed s buf r.
Proof.
  intros s n. induction n as [n IH] using lt_wf_ind. intros buf Hs Hlen.
  destruct n as [|[|n]].
  - destruct buf; [|discriminate]. exists []. constructor.
  - exists buf. constructor. lia.
  - set (c1 := firstn s buf).
    set (rest := skipn s buf).
    set (m := firstn (n * s) rest).
    set (c2 := skipn (n * s) rest).
    assert (Hb : buf = c1 ++ m ++ c2).
    { unfold c1, m, c2, rest. rewrite firstn_skipn, firstn_skipn. reflexivity. }
    assert (Hrest : List.length rest = (S n * s)%nat).
    { unfold rest. rewrite length_skipn. simpl in *. lia. }
    assert (Hc1 : List.length c1 = s).
    { unfold c1. rewrite length_firstn. simpl in *. lia. }
    assert (Hm : List.length m = (n * s)%nat).
    { unfold m. rewrite length_firstn. simpl in *. lia. }
    assert (Hc2 : List.length c2 = s).
    { unfold c2. rewrite length_skipn. simpl in *. lia. }
    destruct (IH n ltac:(lia) m Hs Hm) as [m' Hm'].
    exists (c2 ++ m' ++ c1). rewrite Hb. constructor; auto.
Qed.

Lemma reverse_loop_chunks : forall s m m',
  (0 < s)%nat -> chunk_reversed s m m' ->
  forall fuel L R half,
    List.length L = List.length R ->
    (List.length m < fuel)%nat ->
    half = (size L + size m / 2)%Z ->
    reverse_loop fuel (Z.of_nat s) half (size L) (L ++ m ++ R) = Done (L ++ m' ++ R).
Proof.
  intros s m m' Hs Hcr. induction Hcr as [|c Hc|c1 m m' c2 Hc1 Hc2 Hcr IH];
    intros fuel L R half HLR Hfuel Hhalf.
  - destruct fuel as [|fuel]; [lia|]. simpl.
    replace (size L <? half)%Z with false; [reflexivity|].
    symmetry. apply Z.ltb_ge. subst half. change (size []) with 0%Z. rewrite Z.div_0_l by lia. lia.
  - destruct fuel as [|fuel]; [lia|]. simpl.
    destruct (size L <? half)%Z eqn:Hlt; [|reflexivity].
    apply Z.ltb_lt in Hlt.
    assert (Hsz : size c = Z.of_nat s) by (unfold size; lia).
    assert (Hdst : (size (L ++ c ++ R) - Z.of_nat s - size L)%Z = size L).
    { rewrite !size_app. unfold size in *. lia. }
    rewrite Hdst. rewrite <- Hsz.
    rewrite peek_app. simpl.
    rewrite (poke_app L c c R eq_refl). simpl.
    rewrite (poke_app L c c R eq_refl). simpl.
    destruct fuel as [|fuel]; [lia|]. simpl.
    replace (size L + size c <? half)%Z with false; [reflexivity|].
    symmetry. apply Z.ltb_ge. subst half.
    pose proof (size_nonneg c). 
    assert (size c / 2 <= size c)%Z by (apply Z.div_le_upper_bound; lia). lia.
  - destruct fuel as [|fuel]; [lia|]. simpl.
    assert (Hs1 : size c1 = Z.of_nat s) by (unfold size; lia).
    assert (Hs2 : size c2 = Z.of_nat s) by (unfold size; lia).
    assert (Hmm : List.length m' = List.length m) by (eapply chunk_reversed_length; eauto).
    replace (size L <? half)%Z with true.
    2:{ symmetry. apply Z.ltb_lt. subst half. rewrite !size_app.
        pose proof (size_nonneg m).
        assert (1 <= (size c1 + (size m + size c2)) / 2)%Z by (apply Z.div_le_lower_bound; lia).
        lia. }
    assert (Hdst : (size (L ++ (c1 ++ m ++ c2) ++ R) - Z.of_nat s - size L)%Z
                   = size (L ++ c1 ++ m)).
    { rewrite !size_app. unfold size in *. lia. }
    rewrite Hdst.
    rewrite <- Hs1 at 1.
    replace (L ++ (c1 ++ m ++ c2) ++ R) with (L ++ c1 ++ (m ++ c2 ++ R))
      by (rewrite <- !app_assoc; reflexivity).
    rewrite peek_app. simpl.
    rewrite <- Hs2.
    replace (L ++ c1 ++ (m ++ c2 ++ R)) with ((L ++ c1 ++ m) ++ c2 ++ R) at 1
      by (rewrite <- !app_assoc; reflexivity).
    rewrite peek_app. simpl.
    rewrite (poke_app L c1 c2 (m ++ c2 ++ R)) by lia. simpl.
    assert (Hsz' : size (L ++ c1 ++ m) = size (L ++ c2 ++ m)).
    { rewrite !size_app. lia. }
    rewrite Hsz'.
    replace (L ++ c2 ++ (m ++ c2 ++ R)) with ((L ++ c2 ++ m) ++ c2 ++ R)
      by (rewrite <- !app_assoc; reflexivity).
    rewrite (poke_app (L ++ c2 ++ m) c2 c1 R) by lia. simpl.
    replace (size L + size c2)%Z with (size (L ++ c2)) by (rewrite size_app; reflexivity).
    replace ((L ++ c2 ++ m) ++ c1 ++ R) with ((L ++ c2) ++ m ++ (c1 ++ R))
      by (rewrite <- !app_assoc; reflexivity).
    rewrite Hs2. rewrite (IH fuel (L ++ c2) (c1 ++ R) half).
    + rewrite <- !app_assoc. reflexivity.
    + rewrite !length_app. lia.
    + rewrite !length_app in Hfuel. lia.
    + subst half. rewrite !size_app.
      rewrite Hs1, Hs2.
      replace (Z.of_nat s + (size m + Z.of_nat s))%Z with (size m + Z.of_nat s * 2)%Z by lia.
      rewrite Z.div_add by lia. lia.
Qed.

(** C8.  For a sample size [s > 0] and a buffer whose length is a
    multiple of [s], the reversal loop returns, and applying it to its
    own result gives the original buffer back, byte for byte. *)
Theorem reverse_samples_involutive :
  forall (p : AudioRenderingParams) (buf : QByteArray) (fuel : nat),
    (0 < samples_to_bytes p 1)%Z ->
    (size buf mod samples_to_bytes p 1 = 0)%Z ->
    (List.length buf < fuel)%nat ->
    exists r,
      reverse_samples fuel p buf = Done r
      /\ reverse_samples fuel p r = Done buf.
Proof.
  intros p buf fuel Hpos Hmod Hfuel.
  set (s := Z.to_nat (samples_to_bytes p 1)).
  assert (Hs : (0 < s)%nat) by (unfold s; lia).
  assert (Hzs : samples_to_bytes p 1 = Z.of_nat s) by (unfold s; lia).
  assert (Hlen : exists n, List.length buf = (n * s)%nat).
  { apply Z.mod_divide in Hmod; [|lia]. destruct Hmod as [k Hk].
    exists (Z.to_nat k). unfold size in Hk. rewrite Hzs in Hk. nia. }
  destruct Hlen as [n Hn].
  destruct (chunk_reversed_exists n buf Hs Hn) as [r Hr].
  exists r.
  assert (Hquot : forall b : QByteArray, Z.quot (size b) 2 = (size (@nil byte) + size b / 2)%Z).
  { intros b. rewrite Z.quot_div_nonneg by (pose proof (size_nonneg b); lia). reflexivity. }
  unfold reverse_samples. rewrite Hzs. split.
  - pose proof (@reverse_loop_chunks s buf r Hs Hr fuel [] [] _ eq_refl Hfuel (Hquot buf)) as H.
    simpl in H. rewrite !app_nil_r in H. exact H.
  - apply chunk_reversed_sym in Hr.
    assert (Hfuel' : (List.length r < fuel)%nat).
    { rewrite (chunk_reversed_length (chunk_reversed_sym Hr)). exact Hfuel. }
    pose proof (@reverse_loop_chunks s r buf Hs Hr fuel [] [] _ eq_refl Hfuel' (Hquot r)) as H.
    simpl in H. rewrite !app_nil_r in H. exact H.
Qed.


Lemma reverse_samples_involutive_witness :
  (0 < samples_to_bytes AudioSamples.pcm16 1)%Z
  /\ (size AudioSamples.six_bytes mod samples_to_bytes AudioSamples.pcm16 1 = 0)%Z
  /\ exists r,
       reverse_samples 7 AudioSamples.pcm16 AudioSamples.six_bytes = Done r
       /\ reverse_samples 7 AudioSamples.pcm16 r = Done AudioSamples.six_bytes.
Proof.
  split; [reflexivity|]. split; [reflexivity|].
  apply (@reverse_samples_involutive AudioSamples.pcm16 AudioSamples.six_bytes 7).
  - reflexivity.
  - reflexivity.
  - simpl. lia.
Defined.

Lemma reverse_samples_example :
  reverse_samples 7 AudioSamples.pcm16 AudioSamples.six_bytes
  = Done [x05; x06; x03; x04; x01; x02].
Proof. reflexivity. Qed.

Lemma poke_length : forall b off src b',
  poke b off src = Done b' -> List.length b' = List.length b.
Proof.
  intros b off src b' H. unfold poke, in_bounds in H.
  destruct (_ && _) eqn:Hb; [|discriminate].
  inversion H; subst; clear H.
  rewrite !andb_true_iff, !Z.leb_le in Hb. unfold size in Hb.
  rewrite !length_app, length_firstn, length_skipn. lia.
Qed.

Lemma memset_length : forall b off ch n b',
  memset b off ch n = Done b' -> List.length b' = List.length b.
Proof.
  intros b off ch n b' H. unfold memset in H.
  destruct (n <? 0)%Z; [discriminate|]. eapply poke_length; eauto.
Qed.

Lemma render_one_length : forall fuel p PN range b buf buf',
  render_one fuel p PN range b buf = Done buf' ->
  List.length buf' = List.length buf.
Proof.
  intros fuel p PN range b buf buf' H. unfold render_one in H.
  match type of H with
  | bind ?m _ = _ => destruct m as [[buf1 copied]| |] eqn:Hm; simpl in H; try discriminate
  end.
  assert (H1 : List.length buf1 = List.length buf).
  { destruct (toByteArray _) as [|x xs]; [inversion Hm; reflexivity|].
    destruct (if negb _ then _ else _) as [s1| |]; simpl in Hm; try discriminate.
    destruct (if is_reversed b then _ else _) as [s2| |]; simpl in Hm; try discriminate.
    destruct (poke buf _ s2) as [buf2| |] eqn:Hp; simpl in Hm; try discriminate.
    inversion Hm; subst. eapply poke_length; eauto. }
  destruct (copied <? _)%Z.
  - apply memset_length in H. lia.
  - inversion H; subst. exact H1.
Qed.

Lemma render_blocks_length : forall fuel p PN range blocks buf buf',
  render_blocks fuel p PN range blocks buf = Done buf' ->
  List.length buf' = List.length buf.
Proof.
  intros fuel p PN range blocks. induction blocks as [|b rest IH]; intros buf buf' H;
    simpl in H.
  - inversion H; reflexivity.
  - destruct (render_one fuel p PN range b buf) as [buf1| |] eqn:H1; simpl in H;
      try discriminate.
    apply IH in H. apply render_one_length in H1. lia.
Qed.

(** Whenever every write stays inside the output buffer, the samples
    pushed by [RenderBlock] have the length of the range in bytes. *)
Lemma RenderBlock_length : forall fuel p PN track range table,
  RenderBlock fuel p PN track range = Done table ->
  size (toByteArray (Get kSamples table))
  = Z.max 0 (time_to_bytes p (TimeRange_length range)).
Proof.
  intros fuel p PN track range table H. unfold RenderBlock in H.
  destruct (render_blocks _ _ _ _ _ _) as [buf| |] eqn:Hb; simpl in H; try discriminate.
  inversion H; subst; clear H. simpl.
  apply render_blocks_length in Hb. unfold size. rewrite Hb.
  unfold filled. rewrite repeat_length. lia.
Qed.

(** A block played at its own speed and not reversed whose samples do
    not fit between their offset and the end of the output buffer: the
    copy leaves the buffer. *)
Lemma render_one_overflow : forall fuel p PN range b buf,
  let range_for_block :=
    {| in_ := qMax (block_in b) (in_ range);
       out_ := qMin (block_out b) (out_ range) |} in
  let samples := toByteArray (fst (Take kSamples (PN b range_for_block))) in
  let offset := time_to_bytes p (sub (in_ range_for_block) (in_ range)) in
  samples <> [] ->
  eqb (media_length b) (block_length b) = true ->
  is_reversed b = false ->
  (size buf < offset + size samples)%Z ->
  render_one fuel p PN range b buf = Undefined.
Proof.
  intros fuel p PN range b buf rfb samples offset Hne Hsp Hrev Hbig.
  unfold render_one. fold rfb. fold samples. fold offset.
  destruct samples as [|x xs] eqn:Hs; [congruence|].
  rewrite Hsp, Hrev. simpl negb. cbv iota. unfold bind at 3. unfold bind at 2.
  unfold poke, in_bounds.
  replace (offset + size (x :: xs) <=? size buf)%Z with false
    by (symmetry; apply Z.leb_gt; exact Hbig).
  rewrite andb_false_r. reflexivity.
Qed.

(** C2 at a failing input.  The range is one second, eight bytes of
    output.  A block whose node answers with ten bytes makes the
    unclamped [memcpy] write past the end of the output buffer; with
    four bytes the buffer comes back with its eight bytes, the rest
    zeroed. *)
Lemma RenderBlock_writes_past_the_buffer :
  time_to_bytes AudioSamples.pcm16 (TimeRange_length AudioSamples.one_second) = 8%Z
  /\ RenderBlock 100 AudioSamples.pcm16 (AudioSamples.node 10)
                 AudioSamples.track AudioSamples.one_second = Undefined
  /\ RenderBlock 100 AudioSamples.pcm16 (AudioSamples.node 4)
                 AudioSamples.track AudioSamples.one_second
     = Done [(kSamples, Bytes [x01; x01; x01; x01; x00; x00; x00; x00])].
Proof. repeat split. Qed.

End AudioFacts.

(** ** Project save *)

Section ProjectSaveFacts.
Import ProjectSave.

Lemma emitted_app : forall a b, emitted (a ++ b) = (emitted a + emitted b)%nat.
Proof.
  intros a b. unfold emitted. rewrite filter_app, length_app. reflexivity.
Qed.

Lemma emitted_writes : forall ws, emitted (map FileWrite ws) = 0%nat.
Proof.
  induction ws as [|w ws IH]; simpl; auto.
Qed.

(** C10. [ProjectSaveManager::Action] emits [Succeeded] exactly once on
    every invocation, whether or not the project file could be opened
    for writing; when it could not, nothing touches the disk and the
    success signal is emitted all the same. *)
Theorem Action_emits_Succeeded_once :
  forall p : Project,
    emitted (Action p true) = 1%nat
    /\ emitted (Action p false) = 1%nat
    /\ disk_effects (Action p false) = []
    /\ Action p false = [Succeeded].
Proof.
  intros p. unfold Action. repeat split.
  rewrite !emitted_app, emitted_writes. reflexivity.
Qed.

End ProjectSaveFacts.

(* ================================================================== *)
(** * Part III -- further properties                                   *)
(* ================================================================== *)

(** ** Invalidation *)

Section InvalidationLaws.
Import Rational Renderer Pipeline.

Lemma enqueue_loop_members : forall t e, 0 < t ->
  forall fuel r q q',
    enqueue_loop fuel t e r q = Done q' ->
    forall x, InA Qeq x q' <-> InA Qeq x q \/ on_grid r t e x.
Proof.
  intros t e Ht fuel. induction fuel as [|fuel IH]; intros r q q' H x;
    [discriminate|].
  rewrite enqueue_loop_S in H.
  destruct (leb r e) eqn:Hle.
  - apply leb_le in Hle.
    rewrite (@IH _ _ _ H x), (@on_grid_unfold r _ e x Ht).
    destruct (contains q r) eqn:Hc.
    + apply contains_InA in Hc. split.
      * intros [Hq|Hg]; auto.
      * intros [Hq|[[Hx _]|Hg]]; auto. left. rewrite Hx. exact Hc.
    + rewrite InA_app_iff, InA_cons, InA_nil. split.
      * intros [[Hq|[Hx|[]]]|Hg]; auto.
      * intros [Hq|[[Hx _]|Hg]]; auto.
  - inversion H; subst q'. split; [auto|].
    intros [Hq|Hg]; [exact Hq|].
    apply leb_gt in Hle. apply (@on_grid_ge _ _ _ _ Ht) in Hg as Hge.
    destruct Hg as [k [_ He]]. lra.
Qed.

Lemma enqueue_loop_saturated : forall t e fuel r q q1,
  enqueue_loop fuel t e r q = Done q1 ->
  forall Q, (forall x, InA Qeq x q1 -> InA Qeq x Q) ->
  enqueue_loop fuel t e r Q = Done Q.
Proof.
  intros t e fuel. induction fuel as [|fuel IH]; intros r q q1 H Q HQ;
    [discriminate|].
  rewrite enqueue_loop_S in *.
  destruct (leb r e) eqn:Hle; [|reflexivity].
  assert (Hr : InA Qeq r Q).
  { apply HQ. destruct (@enqueue_loop_appends _ _ _ _ _ _ H) as [added E]. rewrite E.
    apply InA_app_iff. left.
    destruct (contains q r) eqn:Hc.
    - apply contains_InA. exact Hc.
    - apply InA_app_iff. right. constructor. reflexivity. }
  apply contains_InA in Hr. rewrite Hr. eapply IH; eauto.
Qed.

Lemma enqueue_loop_sorted : forall t e, 0 < t ->
  forall fuel r q q',
    enqueue_loop fuel t e r q = Done q' ->
    exists added,
      q' = q ++ added
      /\ Forall (fun x => r <= x /\ x <= e) added
      /\ StronglySorted Qlt added.
Proof.
  intros t e Ht fuel. induction fuel as [|fuel IH]; intros r q q' H; [discriminate|].
  rewrite enqueue_loop_S in H.
  destruct (leb r e) eqn:Hle.
  - apply leb_le in Hle.
    destruct (@IH _ _ _ H) as [added [E [Hge Hs]]].
    assert (Hge' : Forall (fun x => r < x /\ x <= e) added).
    { eapply Forall_impl; [|exact Hge]. simpl. intros x [Hx He].
      rewrite add_correct in Hx. split; [lra|exact He]. }
    destruct (contains q r).
    + exists added. split; [exact E|]. split; [|exact Hs].
      eapply Forall_impl; [|exact Hge']. simpl. intros x [Hx He]. split; lra.
    + exists (r :: added). split; [rewrite E, <- app_assoc; reflexivity|]. split.
      * constructor; [split; lra|].
        eapply Forall_impl; [|exact Hge']. simpl. intros x [Hx He]. split; lra.
      * constructor; [exact Hs|].
        eapply Forall_impl; [|exact Hge']. simpl. intros x [Hx _]. exact Hx.
  - inversion H; subst q'. exists []. rewrite app_nil_r.
    split; [reflexivity|]. split; constructor.
Qed.

Lemma set_cache_queue_twice : forall q q' r,
  set_cache_queue_ q (set_cache_queue_ q' r) = set_cache_queue_ q r.
Proof. intros. destruct r; reflexivity. Qed.

(** X1.  Invalidating a range a second time changes nothing: when the
    snapping and the loop of [InvalidateCache] have run on a range, a
    second run on the same range, from the state the first one left,
    returns and leaves that state as it is. *)
Theorem InvalidateCache_enqueue_idempotent :
  forall (fuel : nat) (start_range end_range : rational) (r r1 : RendererProcessor),
    InvalidateCache_enqueue fuel start_range end_range r = Done r1 ->
    InvalidateCache_enqueue fuel start_range end_range r1 = Done r1.
Proof.
  intros fuel a b r r1 H. unfold InvalidateCache_enqueue in *.
  destruct (snap_start (timebase_ r) a) as [s| |] eqn:Hs; simpl in H; try discriminate.
  destruct (enqueue_loop fuel (timebase_ r) b s (cache_queue_ r)) as [q1| |] eqn:Hl;
    simpl in H; try discriminate.
  inversion H; subst r1; clear H.
  change (timebase_ (set_cache_queue_ q1 r)) with (timebase_ r).
  change (cache_queue_ (set_cache_queue_ q1 r)) with q1.
  rewrite Hs. simpl.
  rewrite (@enqueue_loop_saturated _ _ _ _ _ _ Hl q1 (fun x Hx => Hx)). simpl.
  rewrite set_cache_queue_twice. reflexivity.
Qed.

Lemma InvalidateCache_enqueue_idempotent_witness :
  InvalidateCache_enqueue 10 0 (1 # 10) (this Samples.film) = Done Scenarios.film_queued
  /\ InvalidateCache_enqueue 10 0 (1 # 10) Scenarios.film_queued
     = Done Scenarios.film_queued.
Proof.
  assert (H : InvalidateCache_enqueue 10 0 (1 # 10) (this Samples.film)
              = Done Scenarios.film_queued) by (vm_compute; reflexivity).
  split; [exact H|].
  exact (@InvalidateCache_enqueue_idempotent 10 0 (1 # 10) _ _ H).
Defined.

(** X2.  The snapping and the loop of [InvalidateCache] (lines 127-137,
    without the call of [CacheNext] that follows them), run for two
    ranges with a positive timebase: the queue after the first range and
    then the second holds the same timestamps as the queue after the
    second range and then the first.  The timestamps may stand in a
    different order.  For the method as a whole the order does matter,
    see [InvalidateCache_order_matters]. *)
Theorem InvalidateCache_enqueue_commutes :
  forall (fuel : nat) (a1 b1 a2 b2 : rational) (r r1 r12 r2 r21 : RendererProcessor),
    0 < timebase_ r ->
    InvalidateCache_enqueue fuel a1 b1 r = Done r1 ->
    InvalidateCache_enqueue fuel a2 b2 r1 = Done r12 ->
    InvalidateCache_enqueue fuel a2 b2 r = Done r2 ->
    InvalidateCache_enqueue fuel a1 b1 r2 = Done r21 ->
    forall x, InA Qeq x (cache_queue_ r12) <-> InA Qeq x (cache_queue_ r21).
Proof.
  intros fuel a1 b1 a2 b2 r r1 r12 r2 r21 Ht H1 H12 H2 H21 x.
  unfold InvalidateCache_enqueue in *.
  destruct (snap_start (timebase_ r) a1) as [s1| |] eqn:Hs1; simpl in H1; try discriminate.
  destruct (enqueue_loop fuel (timebase_ r) b1 s1 (cache_queue_ r)) as [q1| |] eqn:Hl1;
    simpl in H1; try discriminate.
  inversion H1; subst r1; clear H1.
  destruct (snap_start (timebase_ r) a2) as [s2| |] eqn:Hs2; simpl in H2; try discriminate.
  destruct (enqueue_loop fuel (timebase_ r) b2 s2 (cache_queue_ r)) as [q2| |] eqn:Hl2;
    simpl in H2; try discriminate.
  inversion H2; subst r2; clear H2.
  change (timebase_ (set_cache_queue_ q1 r)) with (timebase_ r) in H12.
  change (cache_queue_ (set_cache_queue_ q1 r)) with q1 in H12.
  change (timebase_ (set_cache_queue_ q2 r)) with (timebase_ r) in H21.
  change (cache_queue_ (set_cache_queue_ q2 r)) with q2 in H21.
  rewrite Hs2 in H12. rewrite Hs1 in H21. simpl in H12, H21.
  destruct (enqueue_loop fuel (timebase_ r) b2 s2 q1) as [q12| |] eqn:Hl12;
    simpl in H12; try discriminate.
  destruct (enqueue_loop fuel (timebase_ r) b1 s1 q2) as [q21| |] eqn:Hl21;
    simpl in H21; try discriminate.
  inversion H12; subst r12. inversion H21; subst r21.
  change (cache_queue_ (set_cache_queue_ q12 (set_cache_queue_ q1 r))) with q12.
  change (cache_queue_ (set_cache_queue_ q21 (set_cache_queue_ q2 r))) with q21.
  rewrite (@enqueue_loop_members _ b2 Ht _ _ _ _ Hl12 x), (@enqueue_loop_members _ b1 Ht _ _ _ _ Hl1 x).
  rewrite (@enqueue_loop_members _ b1 Ht _ _ _ _ Hl21 x), (@enqueue_loop_members _ b2 Ht _ _ _ _ Hl2 x).
  tauto.
Qed.

Lemma InvalidateCache_enqueue_commutes_witness :
  0 < timebase_ (this Samples.film)
  /\ cache_queue_ Scenarios.first_then_later = [0; 1 # 24; 1 # 12; 1 # 8]
  /\ cache_queue_ Scenarios.later_then_first = [1 # 24; 1 # 12; 1 # 8; 0]
  /\ forall x, InA Qeq x (cache_queue_ Scenarios.first_then_later)
               <-> InA Qeq x (cache_queue_ Scenarios.later_then_first).
Proof.
  split; [reflexivity|]. split; [reflexivity|]. split; [reflexivity|].
  apply (@InvalidateCache_enqueue_commutes 10 0 (1 # 10) (1 # 24) (1 # 8)
           (this Samples.film) Scenarios.film_queued Scenarios.first_then_later
           Scenarios.later_queued Scenarios.later_then_first);
    vm_compute; reflexivity.
Defined.

(** Through the whole method the order of two invalidations shows in
    what is left queued: [CacheNext] takes the front of the queue after
    the first of them, and the second may queue that timestamp again. *)
Lemma InvalidateCache_order_matters :
  exists w1 w12 w2 w21,
    InvalidateCache Samples.env 10 0 (1 # 10) Samples.film = Done w1
    /\ InvalidateCache Samples.env 10 (1 # 24) (1 # 8) w1 = Done w12
    /\ InvalidateCache Samples.env 10 (1 # 24) (1 # 8) Samples.film = Done w2
    /\ InvalidateCache Samples.env 10 0 (1 # 10) w2 = Done w21
    /\ cache_queue_ (this w12) = [1 # 24; 1 # 12; 1 # 8]
    /\ cache_queue_ (this w21) = [1 # 12; 1 # 8; 0; 1 # 24].
Proof.
  do 4 eexists.
  split; [vm_compute; reflexivity|]. split; [vm_compute; reflexivity|].
  split; [vm_compute; reflexivity|]. split; [vm_compute; reflexivity|].
  split; reflexivity.
Qed.

(** X3.  With a positive timebase one invalidation appends its
    timestamps in strictly increasing order, none of them later than the
    end of the range; what was queued before stays in front. *)
Theorem InvalidateCache_enqueue_in_time_order :
  forall (fuel : nat) (start_range end_range : rational) (r r' : RendererProcessor),
    0 < timebase_ r ->
    InvalidateCache_enqueue fuel start_range end_range r = Done r' ->
    exists added,
      cache_queue_ r' = cache_queue_ r ++ added
      /\ StronglySorted Qlt added
      /\ Forall (fun x => x <= end_range) added.
Proof.
  intros fuel a b r r' Ht H. unfold InvalidateCache_enqueue in H.
  destruct (snap_start (timebase_ r) a) as [s| |] eqn:Hs; simpl in H; try discriminate.
  destruct (enqueue_loop fuel (timebase_ r) b s (cache_queue_ r)) as [q1| |] eqn:Hl;
    simpl in H; try discriminate.
  inversion H; subst r'; clear H.
  destruct (@enqueue_loop_sorted _ b Ht _ _ _ _ Hl) as [added [E [Hb Hsorted]]].
  exists added. split; [exact E|]. split; [exact Hsorted|].
  eapply Forall_impl; [|exact Hb]. simpl. intros x [_ He]. exact He.
Qed.

Lemma InvalidateCache_enqueue_in_time_order_witness :
  0 < timebase_ (this Samples.film)
  /\ exists added,
       cache_queue_ Scenarios.film_queued = cache_queue_ (this Samples.film) ++ added
       /\ StronglySorted Qlt added
       /\ Forall (fun x => x <= 1 # 10) added.
Proof.
  split; [reflexivity|].
  apply (@InvalidateCache_enqueue_in_time_order 10 0 (1 # 10) (this Samples.film)
           Scenarios.film_queued); vm_compute; reflexivity.
Defined.

Lemma snap_start_without_timebase :
  forall timebase start_range : rational,
    isNull timebase = true -> snap_start timebase start_range = Undefined.
Proof.
  intros t a H. unfold snap_start, isNull in *. apply Z.eqb_eq in H.
  unfold numerator. rewrite H.
  change (Double.of_int 0) with (S754_zero false).
  destruct (Double.mul (toDouble a) (Double.of_int (denominator t))) as [s|s| |s m e];
    try destruct s; reflexivity.
Qed.

Lemma enqueue_loop_backwards : forall fuel t e r q,
  t <= 0 -> r <= e -> enqueue_loop fuel t e r q = OutOfFuel.
Proof.
  induction fuel as [|fuel IH]; intros t e r q Ht Hr; [reflexivity|].
  rewrite enqueue_loop_S.
  replace (leb r e) with true by (symmetry; apply leb_le; exact Hr).
  apply IH; [exact Ht|]. rewrite add_correct. lra.
Qed.

(** X4.  [InvalidateCache] needs a positive timebase.  With the null
    timebase the constructor leaves, the snapping divides by zero and the
    conversion of the quotient to an integer is undefined.  With a
    negative timebase the loop steps away from the end of the range: when
    the snapped start does not exceed the end, no amount of fuel lets it
    return. *)
Theorem InvalidateCache_needs_a_positive_timebase :
  forall (env : Env) (fuel : nat) (start_range end_range : rational) (w : World),
    (isNull (timebase_ (this w)) = true ->
     InvalidateCache env fuel start_range end_range w = Undefined)
    /\ (timebase_ (this w) < 0 ->
        forall true_start_range,
          snap_start (timebase_ (this w)) start_range = Done true_start_range ->
          true_start_range <= end_range ->
          InvalidateCache env fuel start_range end_range w = OutOfFuel).
Proof.
  intros env fuel a b w. split.
  - intros H. unfold InvalidateCache, InvalidateCache_enqueue.
    change (timebase_ (this (write_log (Debug_invalidated (toDouble a) (toDouble b)) w)))
      with (timebase_ (this w)).
    rewrite (snap_start_without_timebase _ _ H). reflexivity.
  - intros Ht s Hs Hle. unfold InvalidateCache, InvalidateCache_enqueue.
    change (timebase_ (this (write_log (Debug_invalidated (toDouble a) (toDouble b)) w)))
      with (timebase_ (this w)).
    rewrite Hs. unfold bind at 2.
    rewrite enqueue_loop_backwards; [reflexivity| |exact Hle].
    apply Qlt_le_weak. exact Ht.
Qed.

Lemma InvalidateCache_needs_a_positive_timebase_witness :
  InvalidateCache Samples.env 10 0 (1 # 10) (new_World Samples.leftover) = Undefined
  /\ InvalidateCache Samples.env 10 0 (1 # 10) Scenarios.backwards = OutOfFuel.
Proof.
  split.
  - apply (proj1 (@InvalidateCache_needs_a_positive_timebase
                    Samples.env 10 0 (1 # 10) (new_World Samples.leftover))).
    reflexivity.
  - apply (proj2 (@InvalidateCache_needs_a_positive_timebase
                    Samples.env 10 0 (1 # 10) Scenarios.backwards))
      with (true_start_range := 0).
    + reflexivity.
    + vm_compute; reflexivity.
    + vm_compute; discriminate.
Defined.

End InvalidationLaws.

(** ** Dispatch and completion *)

Section DispatchLaws.
Import Rational Renderer Pipeline.

Lemma threads_Start_nonempty : forall env w,
  can_dispatch env w -> threads_ (this (Start env w)) <> [].
Proof.
  intros env w [[Hs Hn]|[Hs Hn]]; unfold Start; rewrite Hs; [|exact Hn].
  simpl. destruct (Z.to_nat (idealThreadCount env)) eqn:E; [lia|]. simpl. discriminate.
Qed.

Lemma started_Start : forall env w, started_ (this (Start env w)) = true.
Proof. intros. unfold Start. destruct (started_ (this w)) eqn:E; [exact E|reflexivity]. Qed.

Lemma CacheNext_front :
  forall (env : Env) (w : World) (first : rational) (rest : list rational)
         (connected : nat),
    cache_queue_ (this w) = first :: rest ->
    connected_output w = Some connected ->
    caching_ (this w) = false ->
    can_dispatch env w ->
    exists w' master others,
      CacheNext env w = Done w'
      /\ cache_frame_ (this w') = first
      /\ cache_queue_ (this w') = rest
      /\ caching_ (this w') = true
      /\ started_ (this w') = true
      /\ threads_ (this (Start env w)) = master :: others
      /\ master_thread_ (this w') = Some (thread_id master)
      /\ threads_ (this w')
         = snd (Queue master {| dep_node := connected; dep_time := first |} true)
           :: others
      /\ thread_queue (snd (Queue master {| dep_node := connected; dep_time := first |} true))
         = thread_queue master ++ [({| dep_node := connected; dep_time := first |}, true)].
Proof.
  intros env w first rest connected Hq Hc Hf Hd.
  pose proof (@threads_Start_nonempty env w Hd) as Hne.
  pose proof (started_Start env w) as Hst.
  unfold CacheNext. rewrite Hq, Hc, Hf.
  cbv zeta.
  change (threads_ (this (write_log (Debug_caching (toDouble first))
            (on_this (fun r => set_cache_frame_ first (set_cache_queue_ rest r))
                     (Start env w)))))
    with (threads_ (this (Start env w))).
  destruct (threads_ (this (Start env w))) as [|master others] eqn:Hts; [congruence|].
  eexists. exists master, others. split; [reflexivity|].
  repeat split; try reflexivity.
  simpl. exact Hst.
Qed.

(** X5.  When the queue is not empty, an output is connected, no frame
    is being cached and the pool has or will have a thread, [CacheNext]
    returns: it takes the timestamp at the front of the queue, leaves
    the rest of the queue in order, starts the pipeline, records the
    first thread of the pool as master and appends one primary item for
    the connected output at that timestamp to the master's queue; the
    other threads are as [Start] left them. *)
Theorem CacheNext_dispatches_front :
  forall (env : Env) (w : World) (first : rational) (rest : list rational)
         (connected : nat),
    cache_queue_ (this w) = first :: rest ->
    connected_output w = Some connected ->
    caching_ (this w) = false ->
    can_dispatch env w ->
    exists w' master others,
      CacheNext env w = Done w'
      /\ cache_frame_ (this w') = first
      /\ cache_queue_ (this w') = rest
      /\ caching_ (this w') = true
      /\ started_ (this w') = true
      /\ threads_ (this (Start env w)) = master :: others
      /\ master_thread_ (this w') = Some (thread_id master)
      /\ threads_ (this w')
         = snd (Queue master {| dep_node := connected; dep_time := first |} true)
           :: others
      /\ thread_queue (snd (Queue master {| dep_node := connected; dep_time := first |} true))
         = thread_queue master ++ [({| dep_node := connected; dep_time := first |}, true)].
Proof. exact (@CacheNext_front). Qed.

Lemma CacheNext_dispatches_front_witness :
  exists w',
    CacheNext Samples.env Scenarios.film_waiting = Done w'
    /\ cache_frame_ (this w') = 0
    /\ cache_queue_ (this w') = [1 # 24; 1 # 12]
    /\ caching_ (this w') = true.
Proof.
  destruct (@CacheNext_dispatches_front Samples.env Scenarios.film_waiting
              0 [1 # 24; 1 # 12] 5%nat eq_refl eq_refl eq_refl
              (or_introl (conj eq_refl eq_refl)))
    as [w' [master [others [H1 [H2 [H3 [H4 _]]]]]]].
  exists w'. repeat split; assumption.
Defined.

Lemma files_Start : forall env w, files (Start env w) = files w.
Proof. intros. unfold Start. destruct (started_ (this w)); reflexivity. Qed.

Lemma files_CacheNext : forall env w w', CacheNext env w = Done w' -> files w' = files w.
Proof.
  intros env w w' H. unfold CacheNext in H.
  destruct (cache_queue_ (this w)); [inversion H; reflexivity|].
  destruct (connected_output w); [|inversion H; reflexivity].
  destruct (caching_ (this w)); [inversion H; reflexivity|].
  simpl in H. destruct (threads_ (this (Start env w))); [discriminate|].
  inversion H; subst. simpl. apply files_Start.
Qed.

Lemma files_CachePathName : forall env t w, files (snd (CachePathName env t w)) = files w.
Proof.
  intros. unfold CachePathName, mkpath. simpl. destruct (existsb _ _); reflexivity.
Qed.

Lemma this_CachePathName : forall env t w, this (snd (CachePathName env t w)) = this w.
Proof.
  intros. unfold CachePathName, mkpath. simpl. destruct (existsb _ _); reflexivity.
Qed.

Lemma connected_CachePathName : forall env t w,
  connected_output (snd (CachePathName env t w)) = connected_output w.
Proof.
  intros. unfold CachePathName, mkpath. simpl. destruct (existsb _ _); reflexivity.
Qed.

Lemma filter_other_files : forall fn (fs : list string),
  ~ In fn (filter (fun f => negb (String.eqb fn f)) fs)
  /\ forall f, f <> fn -> (In f (filter (fun f => negb (String.eqb fn f)) fs) <-> In f fs).
Proof.
  intros fn fs. split.
  - intros H. apply filter_In in H. destruct H as [_ H].
    rewrite String.eqb_refl in H. discriminate.
  - intros f Hne. rewrite filter_In. split; [intros [H _]; exact H|].
    intros H. split; [exact H|].
    destruct (String.eqb fn f) eqn:E; [|reflexivity].
    apply String.eqb_eq in E. congruence.
Qed.

Lemma file_exists_false : forall fn w, file_exists fn w = false -> ~ In fn (files w).
Proof.
  intros fn w H Hin. unfold file_exists in H.
  assert (E : existsb (String.eqb fn) (files w) = true).
  { apply existsb_exists. exists fn. split; [exact Hin|apply String.eqb_refl]. }
  congruence.
Qed.

(** X6.  When the master reports and the graph has no texture for the
    frame (nothing is connected, or the input yields none),
    [ThreadCallback] removes the cache file of that frame and no other
    file: afterwards the file of the frame does not exist, and every
    other file exists exactly if it existed before. *)
Theorem ThreadCallback_removes_stale_file :
  forall (env : Env) (sender : nat) (w w' : World),
    master_thread_ (this w) = Some sender ->
    connected_output w = None \/ get_value env (cache_frame_ (this w)) = None ->
    ThreadCallback env sender w = Done w' ->
    let fn := fst (CachePathName env (cache_frame_ (this w)) w) in
    ~ In fn (files w')
    /\ forall f, f <> fn -> (In f (files w') <-> In f (files w)).
Proof.
  intros env sender w w' Hm Hnull H fn.
  unfold ThreadCallback in H. rewrite Hm, same_thread_refl in H.
  set (w1 := on_this (set_caching_ false) w) in *.
  assert (Htex : match connected_output w1 with
                 | Some _ => get_value env (cache_frame_ (this w1))
                 | None => None
                 end = None).
  { change (connected_output w1) with (connected_output w).
    change (cache_frame_ (this w1)) with (cache_frame_ (this w)).
    destruct Hnull as [E|E]; rewrite E; [reflexivity|].
    destruct (connected_output w); reflexivity. }
  rewrite Htex in H.
  assert (Hfn : fst (CachePathName env (cache_frame_ (this w1)) w1) = fn) by reflexivity.
  pose proof (files_CachePathName env (cache_frame_ (this w1)) w1) as Hf2.
  destruct (CachePathName env (cache_frame_ (this w1)) w1) as [fn' w2].
  simpl in Hfn, Hf2. subst fn'. change (files w1) with (files w) in Hf2.
  simpl in H. apply files_CacheNext in H. rewrite H.
  destruct (file_exists fn w2) eqn:Hex.
  - simpl. rewrite Hf2. apply filter_other_files.
  - rewrite Hf2. split.
    + apply file_exists_false in Hex. rewrite Hf2 in Hex. exact Hex.
    + intros f _. reflexivity.
Qed.

Lemma ThreadCallback_removes_stale_file_witness :
  In "/cache//0.1.exr"%string (files Scenarios.stale)
  /\ exists w',
       ThreadCallback Samples.env 0 Scenarios.stale = Done w'
       /\ ~ In "/cache//0.1.exr"%string (files w')
       /\ In "/cache//1.24.exr"%string (files w').
Proof.
  split; [left; reflexivity|].
  assert (H : exists w', ThreadCallback Samples.env 0 Scenarios.stale = Done w')
    by (eexists; vm_compute; reflexivity).
  destruct H as [w' H]. exists w'. split; [exact H|].
  destruct (@ThreadCallback_removes_stale_file Samples.env 0%nat Scenarios.stale w'
              eq_refl (or_intror eq_refl) H) as [A B].
  split; [exact A|].
  apply (proj2 (B "/cache//1.24.exr"%string ltac:(vm_compute; discriminate))).
  right; left; reflexivity.
Defined.

Lemma update_nth_length : forall (A : Type) (f : A -> A) (l : list A) (k : nat),
  List.length (update_nth k f l) = List.length l.
Proof.
  intros A f l. induction l as [|x l IH]; intros [|k]; simpl; auto.
Qed.

Lemma update_nth_nth : forall (A : Type) (f : A -> A) (d : A) (l : list A) (k i : nat),
  (i < List.length l)%nat ->
  nth i (update_nth k f l) d = if Nat.eqb i k then f (nth i l d) else nth i l d.
Proof.
  intros A f d l. induction l as [|x l IH]; intros k i Hi; simpl in Hi; [lia|].
  destruct k as [|k], i as [|i]; simpl; auto.
  apply IH. lia.
Qed.

Lemma pools_CacheNext_started : forall env w w',
  started_ (this w) = true -> CacheNext env w = Done w' ->
  download_threads_ (this w') = download_threads_ (this w)
  /\ last_download_thread_ (this w') = last_download_thread_ (this w).
Proof.
  intros env w w' Hs H. unfold CacheNext in H.
  destruct (cache_queue_ (this w)); [inversion H; auto|].
  destruct (connected_output w); [|inversion H; auto].
  destruct (caching_ (this w)); [inversion H; auto|].
  assert (E : Start env w = w) by (unfold Start; rewrite Hs; reflexivity).
  rewrite E in H. simpl in H. destruct (threads_ (this w)); [discriminate|].
  inversion H; subst. simpl. auto.
Qed.

(** X7.  When the master reports and the graph has a texture for the
    frame, [ThreadCallback] on a started pipeline hands the texture and
    the cache file name of the frame to one download thread, the one at
    index [last_download_thread_ % download_threads_.size()], appending
    to its queue; the queues of the other download threads and the size
    of the pool stay as they are, and the counter goes up by one. *)
Theorem ThreadCallback_round_robin :
  forall (env : Env) (sender connected : nat) (tex : RenderTexture) (w w' : World),
    master_thread_ (this w) = Some sender ->
    connected_output w = Some connected ->
    get_value env (cache_frame_ (this w)) = Some tex ->
    started_ (this w) = true ->
    ThreadCallback env sender w = Done w' ->
    let pool := download_threads_ (this w) in
    let n := List.length pool in
    let last := last_download_thread_ (this w) in
    let fn := fst (CachePathName env (cache_frame_ (this w)) w) in
    (0 < n)%nat
    /\ last_download_thread_ (this w') = (last + 1)%Z
    /\ List.length (download_threads_ (this w')) = n
    /\ forall (i : nat) (d : RendererDownloadThread),
         (i < n)%nat ->
         download_queue (nth i (download_threads_ (this w')) d)
         = if Nat.eqb i (Z.to_nat (last mod Z.of_nat n))
           then download_queue (nth i pool d) ++ [(tex, fn)]
           else download_queue (nth i pool d).
Proof.
  intros env sender connected tex w w' Hm Hc Hv Hs H pool n last fn.
  unfold ThreadCallback in H. rewrite Hm, same_thread_refl in H.
  set (w1 := on_this (set_caching_ false) w) in *.
  change (connected_output w1) with (connected_output w) in H.
  change (cache_frame_ (this w1)) with (cache_frame_ (this w)) in H.
  rewrite Hc, Hv in H.
  assert (Hfn : fst (CachePathName env (cache_frame_ (this w)) w1) = fn) by reflexivity.
  pose proof (this_CachePathName env (cache_frame_ (this w)) w1) as Ht2.
  destruct (CachePathName env (cache_frame_ (this w)) w1) as [fn' w2].
  simpl in Hfn, Ht2. subst fn'.
  assert (Hp2 : download_threads_ (this w2) = pool) by (rewrite Ht2; reflexivity).
  assert (Hl2 : last_download_thread_ (this w2) = last) by (rewrite Ht2; reflexivity).
  assert (Hs2 : started_ (this w2) = true) by (rewrite Ht2; exact Hs).
  rewrite Hp2, Hl2 in H. fold n in H.
  destruct (Z.of_nat n =? 0)%Z eqn:Hn; [discriminate|].
  destruct ((last <? 0)%Z || (Double.INT_MAX <=? last)%Z) eqn:Hr; [discriminate|].
  apply Z.eqb_neq in Hn. apply orb_false_iff in Hr. destruct Hr as [Hr1 Hr2].
  apply Z.ltb_ge in Hr1.
  unfold bind in H.
  apply pools_CacheNext_started in H; [|simpl; exact Hs2].
  destruct H as [Hpool Hlast]. simpl in Hpool, Hlast. rewrite Hp2 in Hpool.
  split; [lia|]. split; [exact Hlast|].
  rewrite Hpool. split; [apply update_nth_length|].
  intros i d Hi. rewrite update_nth_nth by exact Hi.
  rewrite Z.rem_mod_nonneg by lia.
  destruct (Nat.eqb i _); reflexivity.
Qed.

Lemma ThreadCallback_round_robin_witness :
  exists w',
    ThreadCallback Scenarios.projector 0 Samples.film_caching = Done w'
    /\ last_download_thread_ (this w') = 1%Z
    /\ List.length (download_threads_ (this w')) = 2%nat.
Proof.
  assert (H : exists w',
             ThreadCallback Scenarios.projector 0 Samples.film_caching = Done w')
    by (eexists; vm_compute; reflexivity).
  destruct H as [w' H]. exists w'. split; [exact H|].
  destruct (@ThreadCallback_round_robin Scenarios.projector 0%nat 5%nat
              Scenarios.frame Samples.film_caching w'
              eq_refl eq_refl eq_refl eq_refl H) as [_ [A [B _]]].
  split; [exact A|exact B].
Defined.

Lemma ThreadCallback_master_steps : forall env sender w w',
  master_thread_ (this w) = Some sender ->
  ThreadCallback env sender w = Done w' ->
  exists w3,
    CacheNext env w3 = Done w'
    /\ caching_ (this w3) = false
    /\ cache_queue_ (this w3) = cache_queue_ (this w)
    /\ connected_output w3 = connected_output w
    /\ started_ (this w3) = started_ (this w)
    /\ threads_ (this w3) = threads_ (this w).
Proof.
  intros env sender w w' Hm H.
  unfold ThreadCallback in H. rewrite Hm, same_thread_refl in H.
  set (w1 := on_this (set_caching_ false) w) in *.
  pose proof (this_CachePathName env (cache_frame_ (this w1)) w1) as Ht2.
  pose proof (connected_CachePathName env (cache_frame_ (this w1)) w1) as Hc2.
  destruct (CachePathName env (cache_frame_ (this w1)) w1) as [fn w2].
  simpl in Ht2, Hc2.
  destruct (match connected_output w1 with
            | Some _ => get_value env (cache_frame_ (this w1))
            | None => None
            end) as [tex|].
  - destruct (Z.of_nat (List.length (download_threads_ (this w2))) =? 0)%Z;
      [discriminate|].
    destruct ((last_download_thread_ (this w2) <? 0)%Z
              || (Double.INT_MAX <=? last_download_thread_ (this w2))%Z);
      [discriminate|].
    unfold bind in H. eexists. split; [exact H|].
    simpl. rewrite Ht2, Hc2. repeat split.
  - unfold bind in H. eexists. split; [exact H|].
    destruct (file_exists fn w2); simpl; rewrite ?Ht2, ?Hc2; repeat split.
Qed.

(** X8.  When the master of a started pipeline reports while an output
    is connected, [ThreadCallback] moves on: with an empty queue the
    caching flag ends up clear; otherwise the flag ends up set again, the
    frame being cached is the one that was at the front of the queue, and
    the queue is the rest. *)
Theorem ThreadCallback_advances :
  forall (env : Env) (sender connected : nat) (w w' : World),
    master_thread_ (this w) = Some sender ->
    connected_output w = Some connected ->
    started_ (this w) = true ->
    threads_ (this w) <> [] ->
    ThreadCallback env sender w = Done w' ->
    match cache_queue_ (this w) with
    | [] => caching_ (this w') = false /\ cache_queue_ (this w') = []
    | next :: rest =>
        caching_ (this w') = true
        /\ cache_frame_ (this w') = next
        /\ cache_queue_ (this w') = rest
    end.
Proof.
  intros env sender connected w w' Hm Hc Hs Hts H.
  destruct (@ThreadCallback_master_steps env sender w w' Hm H)
    as [w3 [Hnext [Hc3 [Hq3 [Hco3 [Hs3 Ht3]]]]]].
  destruct (cache_queue_ (this w)) as [|next rest] eqn:Hq.
  - unfold CacheNext in Hnext. rewrite Hq3 in Hnext. inversion Hnext; subst w'.
    split; assumption.
  - assert (Hd : can_dispatch env w3).
    { right. split; [congruence|]. rewrite Ht3. exact Hts. }
    rewrite Hc in Hco3.
    destruct (@CacheNext_front env w3 next rest connected Hq3 Hco3 Hc3 Hd)
      as [w'' [master [others [Hrun [Hf [Hq' [Hca _]]]]]]].
    rewrite Hrun in Hnext. inversion Hnext; subst w''.
    split; [exact Hca|]. split; assumption.
Qed.

Lemma ThreadCallback_advances_witness :
  exists w',
    ThreadCallback Samples.env 0 Samples.film_caching = Done w'
    /\ caching_ (this w') = true
    /\ cache_frame_ (this w') = 1 # 24
    /\ cache_queue_ (this w') = [1 # 12].
Proof.
  assert (H : exists w', ThreadCallback Samples.env 0 Samples.film_caching = Done w')
    by (eexists; vm_compute; reflexivity).
  destruct H as [w' H]. exists w'. split; [exact H|].
  exact (@ThreadCallback_advances Samples.env 0%nat 5%nat Samples.film_caching w'
           eq_refl eq_refl eq_refl ltac:(discriminate) H).
Defined.

End DispatchLaws.

(** ** The pools and the parameters *)

Section PipelineLaws.
Import Rational Renderer Pipeline.

Lemma set_threads_same : forall r, set_threads_ (threads_ r) r = r.
Proof. intros. destruct r; reflexivity. Qed.

Lemma request_sibling_busy : forall dep ts,
  Forall (fun t => thread_queue t <> []) ts -> request_sibling dep ts = ts.
Proof.
  intros dep ts H. induction H as [|t ts Ht Hts IH]; simpl; [reflexivity|].
  unfold Queue. destruct (thread_queue t) as [|i q]; [congruence|].
  rewrite IH. reflexivity.
Qed.

Lemma request_sibling_first_idle : forall dep busy t rest,
  Forall (fun b => thread_queue b <> []) busy ->
  thread_queue t = [] ->
  request_sibling dep (busy ++ t :: rest)
  = busy ++ snd (Queue t dep false) :: rest.
Proof.
  intros dep busy t rest H Ht. induction H as [|b busy Hb Hbusy IH]; simpl.
  - unfold Queue. rewrite Ht. reflexivity.
  - unfold Queue at 1. destruct (thread_queue b) as [|i q]; [congruence|].
    rewrite IH. reflexivity.
Qed.

(** X9.  [ThreadRequestSibling] hands the dependency to the first
    thread of the pool whose queue is empty, as a secondary item, and to
    no other; the threads before it and after it are untouched.  When
    every thread is busy the request is dropped and the processor stays
    as it is. *)
Theorem ThreadRequestSibling_first_idle_wins :
  forall (dep : NodeDependency) (r : RendererProcessor),
    (Forall (fun t => thread_queue t <> []) (threads_ r) ->
     ThreadRequestSibling dep r = r)
    /\ forall busy t rest,
         threads_ r = busy ++ t :: rest ->
         Forall (fun b => thread_queue b <> []) busy ->
         thread_queue t = [] ->
         threads_ (ThreadRequestSibling dep r) = busy ++ snd (Queue t dep false) :: rest
         /\ thread_queue (snd (Queue t dep false)) = [(dep, false)]
         /\ thread_id (snd (Queue t dep false)) = thread_id t.
Proof.
  intros dep r. split.
  - intros H. unfold ThreadRequestSibling. rewrite (@request_sibling_busy dep _ H).
    apply set_threads_same.
  - intros busy t rest E Hb Ht. unfold ThreadRequestSibling. simpl. rewrite E.
    rewrite (@request_sibling_first_idle dep busy t rest Hb Ht).
    split; [reflexivity|]. unfold Queue. rewrite Ht. split; reflexivity.
Qed.

Lemma ThreadRequestSibling_first_idle_wins_witness :
  exists master t',
    threads_ (ThreadRequestSibling {| dep_node := 6; dep_time := 0 |}
                                   (this Samples.film_caching))
    = [master; t']
    /\ thread_queue t' = [({| dep_node := 6; dep_time := 0 |}, false)]
    /\ thread_id t' = 1%nat.
Proof.
  destruct (proj2 (@ThreadRequestSibling_first_idle_wins
                     {| dep_node := 6; dep_time := 0 |} (this Samples.film_caching))
                  (firstn 1 (threads_ (this Samples.film_caching)))
                  (nth 1 (threads_ (this Samples.film_caching))
                       (new_thread 0 0 0 0%Z kOffline))
                  []
                  eq_refl
                  ltac:(constructor; [discriminate|constructor])
                  eq_refl) as [A [B C]].
  eexists. eexists. split; [exact A|]. split; [exact B|exact C].
Defined.

Lemma resources_inv_view : forall r r',
  resources_view r' = resources_view r -> resources_inv r -> resources_inv r'.
Proof.
  intros r r' Hv H. unfold resources_view in Hv.
  inversion Hv as [[E1 E2 E3 E4 E5 E6 E7 E8 E9]].
  unfold resources_inv, released, fits_parameters in *.
  rewrite E1, E2, E3, E4, E5, E6, E7, E8, E9. exact H.
Qed.

Lemma resources_view_GenerateCacheIDInternal : forall r,
  resources_view (GenerateCacheIDInternal r) = resources_view r.
Proof. intros. unfold GenerateCacheIDInternal. destruct (_ || _); reflexivity. Qed.

Lemma released_Stop : forall r, resources_inv r -> released (Stop r) /\ started_ (Stop r) = false.
Proof.
  intros r [H1 H2]. unfold Stop. destruct (started_ r) eqn:Hs; simpl.
  - split; [repeat split|reflexivity].
  - split; [apply H1; reflexivity|exact Hs].
Qed.

Lemma resources_inv_Stop : forall r, resources_inv r -> resources_inv (Stop r).
Proof.
  intros r H. destruct (@released_Stop r H) as [Hr Hs]. split; [intros _; exact Hr|].
  intros E. congruence.
Qed.

Lemma resources_inv_released : forall r,
  started_ r = false -> released r -> resources_inv r.
Proof. intros r Hs Hr. split; [intros _; exact Hr|intros E; congruence]. Qed.

Lemma resources_inv_Start : forall env w,
  resources_inv (this w) -> resources_inv (this (Start env w)).
Proof.
  intros env w H. unfold Start. destruct (started_ (this w)) eqn:Hs; [exact H|].
  split; [simpl; discriminate|]. intros _. unfold fits_parameters. simpl.
  split; [rewrite !length_map; reflexivity|]. split.
  - eexists. split; [reflexivity|]. simpl. repeat split.
  - rewrite Forall_map. apply Forall_forall. intros i _. simpl. repeat split.
Qed.

Lemma Queue_keeps_parameters : forall t dep primary,
  thread_width (snd (Queue t dep primary)) = thread_width t
  /\ thread_height (snd (Queue t dep primary)) = thread_height t
  /\ thread_format (snd (Queue t dep primary)) = thread_format t
  /\ thread_mode (snd (Queue t dep primary)) = thread_mode t.
Proof.
  intros t dep primary. unfold Queue.
  destruct primary; destruct (thread_queue t); simpl; repeat split.
Qed.

Lemma fits_parameters_threads : forall r ts,
  fits_parameters r ->
  List.length ts = List.length (threads_ r) ->
  Forall (fun t => thread_width t = effective_width_ r
                   /\ thread_height t = effective_height_ r
                   /\ thread_format t = format_ r
                   /\ thread_mode t = mode_ r) ts ->
  fits_parameters (set_threads_ ts r).
Proof.
  intros r ts [H1 [H2 H3]] Hl Hts. unfold fits_parameters. simpl.
  split; [congruence|]. split; [exact H2|exact Hts].
Qed.

Lemma resources_inv_threads : forall r ts,
  resources_inv r ->
  started_ r = true ->
  List.length ts = List.length (threads_ r) ->
  Forall (fun t => thread_width t = effective_width_ r
                   /\ thread_height t = effective_height_ r
                   /\ thread_format t = format_ r
                   /\ thread_mode t = mode_ r) ts ->
  resources_inv (set_threads_ ts r).
Proof.
  intros r ts [H1 H2] Hs Hl Hts. split; simpl; [congruence|].
  intros _. apply fits_parameters_threads; auto.
Qed.

Lemma resources_inv_CacheNext : forall env w w',
  resources_inv (this w) -> CacheNext env w = Done w' -> resources_inv (this w').
Proof.
  intros env w w' Hinv H. unfold CacheNext in H.
  destruct (cache_queue_ (this w)) as [|first rest]; [inversion H; subst; auto|].
  destruct (connected_output w) as [c|]; [|inversion H; subst; auto].
  destruct (caching_ (this w)); [inversion H; subst; auto|].
  pose proof (@resources_inv_Start env w Hinv) as Hinv1.
  pose proof (started_Start env w) as Hs1.
  remember (Start env w) as w1 eqn:Ew1. clear Ew1 Hinv w.
  simpl in H. destruct (threads_ (this w1)) as [|master others] eqn:Hts; [discriminate|].
  inversion H; subst w'; clear H.
  destruct Hinv1 as [_ Hfit]. specialize (Hfit Hs1). destruct Hfit as [F1 [F2 F3]].
  split; simpl; [rewrite Hs1; discriminate|]. intros _.
  unfold fits_parameters. simpl. rewrite Hts in F1, F3. simpl in F1.
  split; [exact F1|]. split; [exact F2|].
  inversion F3 as [|? ? Hm Ho]; subst. constructor; [|exact Ho].
  simpl. exact Hm.
Qed.

Lemma resources_inv_download : forall r ds last,
  resources_inv r ->
  List.length ds = List.length (download_threads_ r) ->
  resources_inv (set_last_download_thread_ last (set_download_threads_ ds r)).
Proof.
  intros r ds last [H1 H2] Hl. split; simpl.
  - intros E. destruct (H1 E) as [A [B [C D]]]. unfold released. simpl.
    rewrite B in Hl. destruct ds; [auto|discriminate].
  - intros E. destruct (H2 E) as [A [B C]]. unfold fits_parameters. simpl.
    split; [congruence|]. split; assumption.
Qed.

Lemma resources_inv_ThreadCallback : forall env sender w w',
  resources_inv (this w) -> ThreadCallback env sender w = Done w' ->
  resources_inv (this w').
Proof.
  intros env sender w w' Hinv H. unfold ThreadCallback in H.
  destruct (same_thread (master_thread_ (this w)) sender);
    [|inversion H; subst; exact Hinv].
  set (w1 := on_this (set_caching_ false) w) in *.
  assert (Hinv1 : resources_inv (this w1))
    by (apply (@resources_inv_view (this w)); [reflexivity|exact Hinv]).
  clearbody w1. clear Hinv w.
  pose proof (this_CachePathName env (cache_frame_ (this w1)) w1) as Ht2.
  destruct (CachePathName env (cache_frame_ (this w1)) w1) as [fn w2].
  simpl in Ht2. rewrite <- Ht2 in Hinv1.
  destruct (match connected_output w1 with
            | Some _ => get_value env (cache_frame_ (this w1))
            | None => None
            end) as [tex|].
  - destruct (Z.of_nat (List.length (download_threads_ (this w2))) =? 0)%Z;
      [discriminate|].
    destruct ((last_download_thread_ (this w2) <? 0)%Z
              || (Double.INT_MAX <=? last_download_thread_ (this w2))%Z);
      [discriminate|].
    unfold bind in H. apply (resources_inv_CacheNext env) in H; [exact H|].
    simpl. apply resources_inv_download; [exact Hinv1|].
    apply update_nth_length.
  - unfold bind in H. apply (resources_inv_CacheNext env) in H; [exact H|].
    destruct (file_exists fn w2); [|exact Hinv1]. exact Hinv1.
Qed.

Lemma resources_inv_reconfigured : forall r r1 r2,
  resources_inv r ->
  started_ r1 = started_ (Stop r) ->
  threads_ r1 = threads_ (Stop r) ->
  download_threads_ r1 = download_threads_ (Stop r) ->
  master_texture_ r1 = master_texture_ (Stop r) ->
  cache_frame_load_buffer_ r1 = cache_frame_load_buffer_ (Stop r) ->
  CalculateEffectiveDimensions r1 = Done r2 ->
  resources_inv (GenerateCacheIDInternal r2).
Proof.
  intros r r1 r2 Hinv E1 E2 E3 E4 E5 H.
  destruct (released_Stop Hinv) as [[A [B [C D]]] Hs].
  apply (@resources_inv_view r2); [apply resources_view_GenerateCacheIDInternal|].
  unfold CalculateEffectiveDimensions in H.
  destruct (int_div (width_ r1) (divider_ r1)) as [ew| |]; try discriminate.
  destruct (int_div (height_ r1) (divider_ r1)) as [eh| |]; try discriminate.
  simpl in H. inversion H; subst r2; clear H.
  apply resources_inv_released; [simpl; congruence|].
  unfold released. simpl. repeat split; congruence.
Qed.

Ltac project_setters :=
  cbv [set_mode_ set_format_ set_height_ set_width_ set_divider_
       started_ threads_ download_threads_ master_texture_
       cache_frame_load_buffer_];
  reflexivity.

Lemma resources_inv_SetParameters : forall width height format mode divider r r',
  resources_inv r ->
  SetParameters width height format mode divider r = Done r' ->
  resources_inv r'.
Proof.
  intros width height format mode divider r r' Hinv H. unfold SetParameters in H.
  unfold bind in H.
  match type of H with
  | match CalculateEffectiveDimensions ?x with _ => _ end = _ =>
      set (r1 := x) in *;
      assert (E1 : started_ r1 = started_ (Stop r))
        by (unfold r1; destruct (0 <? divider)%Z; project_setters);
      assert (E2 : threads_ r1 = threads_ (Stop r))
        by (unfold r1; destruct (0 <? divider)%Z; project_setters);
      assert (E3 : download_threads_ r1 = download_threads_ (Stop r))
        by (unfold r1; destruct (0 <? divider)%Z; project_setters);
      assert (E4 : master_texture_ r1 = master_texture_ (Stop r))
        by (unfold r1; destruct (0 <? divider)%Z; project_setters);
      assert (E5 : cache_frame_load_buffer_ r1 = cache_frame_load_buffer_ (Stop r))
        by (unfold r1; destruct (0 <? divider)%Z; project_setters);
      clearbody r1
  end.
  destruct (CalculateEffectiveDimensions r1) as [r2| |] eqn:Hc; try discriminate.
  inversion H; subst r'; clear H.
  exact (@resources_inv_reconfigured r r1 r2 Hinv E1 E2 E3 E4 E5 Hc).
Qed.

Lemma resources_inv_SetDivider : forall divider r r',
  resources_inv r -> SetDivider divider r = Done r' -> resources_inv r'.
Proof.
  intros divider r r' Hinv H. unfold SetDivider in H.
  destruct (negb (0 <? divider_ r)%Z); [discriminate|]. unfold bind in H.
  set (r1 := set_divider_ divider (Stop r)) in *.
  assert (E1 : started_ r1 = started_ (Stop r)) by (unfold r1; project_setters).
  assert (E2 : threads_ r1 = threads_ (Stop r)) by (unfold r1; project_setters).
  assert (E3 : download_threads_ r1 = download_threads_ (Stop r))
    by (unfold r1; project_setters).
  assert (E4 : master_texture_ r1 = master_texture_ (Stop r))
    by (unfold r1; project_setters).
  assert (E5 : cache_frame_load_buffer_ r1 = cache_frame_load_buffer_ (Stop r))
    by (unfold r1; project_setters).
  clearbody r1.
  destruct (CalculateEffectiveDimensions r1) as [r2| |] eqn:Hc; try discriminate.
  inversion H; subst r'; clear H.
  exact (@resources_inv_reconfigured r r1 r2 Hinv E1 E2 E3 E4 E5 Hc).
Qed.

Lemma resources_inv_Value : forall env output time w v w',
  resources_inv (this w) -> Value env output time w = Done (v, w') ->
  resources_inv (this w').
Proof.
  intros env output time w v w' Hinv H. unfold Value in H.
  destruct output; [|inversion H; subst; exact Hinv].
  destruct (connected_output w); [|inversion H; subst; exact Hinv].
  destruct (isEmpty _); [inversion H; subst; exact Hinv|].
  destruct (isNull _); [inversion H; subst; exact Hinv|].
  pose proof (this_CachePathName env time w) as Ht.
  destruct (CachePathName env time w) as [fn w1]. simpl in Ht.
  rewrite <- Ht in Hinv. clear Ht.
  destruct (file_exists fn w1); [|inversion H; subst; exact Hinv].
  destruct (open_image env fn) as [pixels|]; [|inversion H; subst; exact Hinv].
  destruct (Bytes.poke _ _ _) as [buffer| |]; simpl in H; try discriminate.
  destruct (master_texture_ (this w1)) as [t|] eqn:Hm; [|discriminate].
  inversion H; subst v w'; clear H. simpl.
  destruct Hinv as [H1 H2]. split; simpl.
  - intros E. destruct (H1 E) as [_ [_ [C _]]]. congruence.
  - intros E. destruct (H2 E) as [A [[t' [B1 B2]] C]]. unfold fits_parameters. simpl.
    split; [exact A|]. split; [|exact C].
    eexists. split; [reflexivity|]. simpl. congruence.
Qed.

Lemma complete_front_keeps : forall (P : RendererProcessThread -> Prop) tid ts primary ts',
  (forall t q, P t -> P {| thread_id := thread_id t; thread_width := thread_width t;
                           thread_height := thread_height t;
                           thread_format := thread_format t;
                           thread_mode := thread_mode t; thread_queue := q |}) ->
  complete_front tid ts = Some (primary, ts') ->
  Forall P ts -> Forall P ts' /\ List.length ts' = List.length ts.
Proof.
  intros P tid ts. induction ts as [|t rest IH]; intros primary ts' HP H HF;
    simpl in H; [discriminate|].
  inversion HF as [|? ? Ht Hrest]; subst.
  destruct (Nat.eqb (thread_id t) tid).
  - destruct (thread_queue t) as [|[dep p] q]; [discriminate|].
    inversion H; subst. split; [constructor; auto|reflexivity].
  - destruct (complete_front tid rest) as [[p rest']|] eqn:E; [|discriminate].
    inversion H; subst. destruct (IH _ _ HP eq_refl Hrest) as [A B].
    split; [constructor; auto|simpl; congruence].
Qed.

Lemma request_sibling_keeps : forall (P : RendererProcessThread -> Prop) dep ts,
  (forall t, P t -> P (snd (Queue t dep false))) ->
  Forall P ts ->
  Forall P (request_sibling dep ts)
  /\ List.length (request_sibling dep ts) = List.length ts.
Proof.
  intros P dep ts HP HF. induction HF as [|t rest Ht Hrest IH]; simpl.
  - split; [constructor|reflexivity].
  - specialize (HP t Ht). destruct (Queue t dep false) as [accepted t'].
    simpl in HP. destruct accepted.
    + split; [constructor; auto|reflexivity].
    + destruct IH as [A B]. split; [constructor; auto|simpl; congruence].
Qed.

Lemma this_on_this : forall f w, this (on_this f w) = f (this w).
Proof. reflexivity. Qed.

Lemma resources_inv_exec : forall env fuel ev w w',
  resources_inv (this w) -> exec env fuel ev w = Done w' -> resources_inv (this w').
Proof.
  intros env fuel ev w w' Hinv H. destruct ev; cbn [exec] in H.
  - inversion H; subst w'; clear H. rewrite this_on_this. unfold SetCacheName.
    eapply resources_inv_view; [apply resources_view_GenerateCacheIDInternal|].
    eapply resources_inv_view; [|exact Hinv]. reflexivity.
  - destruct (Value env output time w) as [[v w1]| |] eqn:E; unfold bind in H;
      try discriminate.
    inversion H; subst w'; clear H. eapply resources_inv_Value; eauto.
  - inversion H; subst w'; clear H. rewrite this_on_this.
    apply resources_inv_Stop. exact Hinv.
  - unfold InvalidateCache in H.
    destruct (InvalidateCache_enqueue _ _ _ _) as [r1| |] eqn:E; unfold bind in H;
      try discriminate.
    apply (resources_inv_CacheNext env) in H; [exact H|].
    unfold InvalidateCache_enqueue in E.
    destruct (snap_start _ _) as [s| |]; unfold bind in E; try discriminate.
    destruct (enqueue_loop _ _ _ _ _) as [q| |]; try discriminate.
    inversion E; subst r1. eapply resources_inv_view; [|exact Hinv]. reflexivity.
  - inversion H; subst w'; clear H. rewrite this_on_this.
    eapply resources_inv_view; [|exact Hinv]. reflexivity.
  - unfold lift in H.
    destruct (SetParameters _ _ _ _ _ _) as [r1| |] eqn:E; unfold bind in H;
      try discriminate.
    inversion H; subst w'; clear H. eapply resources_inv_SetParameters; eauto.
  - unfold lift in H.
    destruct (SetDivider _ _) as [r1| |] eqn:E; unfold bind in H; try discriminate.
    inversion H; subst w'; clear H. eapply resources_inv_SetDivider; eauto.
  - inversion H; subst w'; clear H. apply resources_inv_Start. exact Hinv.
  - inversion H; subst w'; clear H. rewrite this_on_this.
    apply resources_inv_Stop. exact Hinv.
  - destruct (signals w) as [|sender rest]; [discriminate|].
    eapply resources_inv_ThreadCallback; [|exact H]. exact Hinv.
  - inversion H; subst w'; clear H. rewrite this_on_this. unfold ThreadRequestSibling.
    destruct Hinv as [H1 H2]. split.
    + intros E. change (started_ (this w) = false) in E.
      destruct (H1 E) as [A [B [C D]]].
      unfold released. cbn [threads_ download_threads_ master_texture_
                            cache_frame_load_buffer_ set_threads_].
      rewrite A. simpl. auto.
    + intros E. change (started_ (this w) = true) in E.
      destruct (H2 E) as [A [B C]].
      assert (HP : forall t,
                 (thread_width t = effective_width_ (this w)
                  /\ thread_height t = effective_height_ (this w)
                  /\ thread_format t = format_ (this w)
                  /\ thread_mode t = mode_ (this w)) ->
                 (thread_width (snd (Queue t dep false)) = effective_width_ (this w)
                  /\ thread_height (snd (Queue t dep false)) = effective_height_ (this w)
                  /\ thread_format (snd (Queue t dep false)) = format_ (this w)
                  /\ thread_mode (snd (Queue t dep false)) = mode_ (this w))).
      { intros t Ht. destruct (Queue_keeps_parameters t dep false) as [a [b [c d]]].
        rewrite a, b, c, d. exact Ht. }
      destruct (@request_sibling_keeps _ dep (threads_ (this w)) HP C) as [F L].
      apply fits_parameters_threads; [repeat split; assumption| |]; assumption.
  - unfold worker_done in H.
    destruct (complete_front tid (threads_ (this w))) as [[primary ts]|] eqn:E;
      [|discriminate].
    assert (Hgoal : resources_inv (set_threads_ ts (this w))).
    { destruct Hinv as [H1 H2]. split.
      - intros Es. change (started_ (this w) = false) in Es.
        destruct (H1 Es) as [A _]. rewrite A in E. discriminate.
      - intros Es. change (started_ (this w) = true) in Es.
        destruct (H2 Es) as [A [B C]].
        destruct (@complete_front_keeps
                    (fun t => thread_width t = effective_width_ (this w)
                              /\ thread_height t = effective_height_ (this w)
                              /\ thread_format t = format_ (this w)
                              /\ thread_mode t = mode_ (this w))
                    tid _ primary ts (fun t q Ht => Ht) E C)
          as [F L].
        apply fits_parameters_threads; [repeat split; assumption| |]; assumption. }
    inversion H; subst w'; clear H. destruct primary; exact Hgoal.
  - inversion H; subst w'; clear H. exact Hinv.
  - inversion H; subst w'; clear H. exact Hinv.
Qed.

Lemma resources_inv_reachable : forall g w, reachable g w -> resources_inv (this w).
Proof.
  intros g w Hr. induction Hr.
  - apply resources_inv_released; [reflexivity|]. repeat split.
  - eapply resources_inv_exec; eauto.
Qed.

(** X10.  In every reachable state the pools, the master texture and the
    readback buffer agree with the [started_] flag and with the
    parameters: while the pipeline is stopped there is no thread, no
    master texture and an empty buffer; while it is started there are as
    many download threads as render threads, the master texture has the
    effective size and the format of the processor, and every render
    thread was created for the effective size, the format and the mode
    the processor has now.  No parameter changes under a running
    thread. *)
Theorem pipeline_matches_parameters :
  forall (g : RendererProcessor) (w : World),
    reachable g w -> resources_inv (this w).
Proof. exact resources_inv_reachable. Qed.

Lemma pipeline_matches_parameters_witness :
  reachable Samples.leftover Samples.film_caching
  /\ resources_inv (this Samples.film_caching).
Proof.
  split; [exact film_caching_reachable|].
  exact (@pipeline_matches_parameters _ _ film_caching_reachable).
Defined.

Lemma film_reachable : reachable Samples.leftover Samples.film.
Proof.
  eapply (@reachable_step _ _ _ Samples.env 0%nat (Graph_connect (Some 5%nat)));
    [|reflexivity].
  eapply (@reachable_step _ _ _ Samples.env 0%nat (Call_SetTimebase (1 # 24)));
    [|reflexivity].
  apply reachable_new.
Defined.

Lemma screening_reachable : reachable Samples.leftover Scenarios.screening.
Proof.
  eapply (@reachable_step _ (Start Scenarios.projector Scenarios.dark) _
            Scenarios.projector 0%nat
            (Download_done (fst (CachePathName Scenarios.projector 0
                                   (Start Scenarios.projector Scenarios.dark)))));
    [|vm_compute; reflexivity].
  eapply (@reachable_step _ Scenarios.dark _ Scenarios.projector 0%nat Call_Start);
    [|reflexivity].
  eapply (@reachable_step _ (on_this (SetTimebase (1 # 24)) Scenarios.named) _
            Scenarios.projector 0%nat (Graph_connect (Some 5%nat))); [|reflexivity].
  eapply (@reachable_step _ Scenarios.named _ Scenarios.projector 0%nat
            (Call_SetTimebase (1 # 24))); [|reflexivity].
  eapply (@reachable_step _ (on_this (SetCacheName "seq" 1000) (new_World Samples.leftover))
            _ Scenarios.projector 0%nat (Call_SetParameters 4 2 1%Z kOffline 1));
    [|vm_compute; reflexivity].
  eapply (@reachable_step _ (new_World Samples.leftover) _ Scenarios.projector 0%nat
            (Call_SetCacheName "seq" 1000)); [|reflexivity].
  apply reachable_new.
Defined.

End PipelineLaws.

(** ** Reading a cached frame *)

Section ReadPathLaws.
Import Rational Renderer Pipeline.

(** X11.  [Value] never schedules anything: whenever it returns, the
    queue, the caching flag, the started flag, both pools, the identity,
    the files and the pending signals are what they were; and when it
    returns 0 the processor is unchanged altogether. *)
Theorem Value_leaves_the_scheduler_alone :
  forall (env : Env) (output : NodeOutput) (time : rational) (w w' : World)
         (v : QVariant),
    Value env output time w = Done (v, w') ->
    cache_queue_ (this w') = cache_queue_ (this w)
    /\ caching_ (this w') = caching_ (this w)
    /\ started_ (this w') = started_ (this w)
    /\ threads_ (this w') = threads_ (this w)
    /\ download_threads_ (this w') = download_threads_ (this w)
    /\ cache_id_ (this w') = cache_id_ (this w)
    /\ files w' = files w
    /\ signals w' = signals w
    /\ (v = VInt 0 -> this w' = this w).
Proof.
  intros env output time w w' v H. unfold Value in H.
  destruct output; [|inversion H; subst; repeat split].
  destruct (connected_output w); [|inversion H; subst; repeat split].
  destruct (isEmpty _); [inversion H; subst; repeat split|].
  destruct (isNull _); [inversion H; subst; repeat split|].
  pose proof (this_CachePathName env time w) as Ht.
  pose proof (files_CachePathName env time w) as Hf.
  assert (Hsig : signals (snd (CachePathName env time w)) = signals w).
  { unfold CachePathName, mkpath. simpl. destruct (existsb _ _); reflexivity. }
  destruct (CachePathName env time w) as [fn w1]. simpl in Ht, Hf, Hsig.
  destruct (file_exists fn w1);
    [|inversion H; subst; rewrite Ht, Hf, Hsig; repeat split].
  destruct (open_image env fn) as [pixels|];
    [|inversion H; subst; rewrite Ht, Hf, Hsig; repeat split].
  destruct (Bytes.poke _ _ _) as [buffer| |]; unfold bind in H; try discriminate.
  destruct (master_texture_ (this w1)) as [t|] eqn:Hm; [|discriminate].
  inversion H; subst v w'; clear H. rewrite this_on_this.
  cbn [cache_queue_ caching_ started_ threads_ download_threads_ cache_id_
       set_master_texture_ set_cache_frame_load_buffer_].
  rewrite <- Ht.
  repeat split; try assumption. discriminate.
Qed.

Lemma Value_leaves_the_scheduler_alone_witness :
  exists w',
    Value Samples.env texture_output_ 0 Samples.film_caching = Done (VInt 0, w')
    /\ cache_queue_ (this w') = cache_queue_ (this Samples.film_caching)
    /\ this w' = this Samples.film_caching.
Proof.
  assert (H : exists w', Value Samples.env texture_output_ 0 Samples.film_caching
                         = Done (VInt 0, w'))
    by (eexists; vm_compute; reflexivity).
  destruct H as [w' H]. exists w'. split; [exact H|].
  destruct (@Value_leaves_the_scheduler_alone Samples.env texture_output_ 0
              Samples.film_caching w' (VInt 0) H)
    as [A [_ [_ [_ [_ [_ [_ [_ B]]]]]]]].
  split; [exact A|exact (B eq_refl)].
Defined.

Lemma file_exists_In : forall fn w, file_exists fn w = true <-> In fn (files w).
Proof.
  intros fn w. unfold file_exists. rewrite existsb_exists. split.
  - intros [x [Hx E]]. apply String.eqb_eq in E. subst. exact Hx.
  - intros Hx. exists fn. split; [exact Hx|apply String.eqb_refl].
Qed.

Lemma poke_front : forall (buffer pixels : Bytes.QByteArray),
  (List.length pixels <= List.length buffer)%nat ->
  Bytes.poke buffer 0 pixels = Done (pixels ++ skipn (List.length pixels) buffer).
Proof.
  intros buffer pixels Hl. unfold Bytes.poke, Bytes.in_bounds, Bytes.size.
  replace ((0 <=? 0)%Z && (0 <=? Z.of_nat (List.length pixels))%Z
           && (0 + Z.of_nat (List.length pixels) <=? Z.of_nat (List.length buffer))%Z)
    with true by (symmetry; rewrite !andb_true_iff, !Z.leb_le; lia).
  reflexivity.
Qed.

Lemma poke_too_long : forall (buffer pixels : Bytes.QByteArray),
  (List.length buffer < List.length pixels)%nat ->
  Bytes.poke buffer 0 pixels = Undefined.
Proof.
  intros buffer pixels Hl. unfold Bytes.poke, Bytes.in_bounds, Bytes.size.
  replace ((0 <=? 0)%Z && (0 <=? Z.of_nat (List.length pixels))%Z
           && (0 + Z.of_nat (List.length pixels) <=? Z.of_nat (List.length buffer))%Z)
    with false; [reflexivity|].
  symmetry. rewrite !andb_false_iff, !Z.leb_gt. right. lia.
Qed.

(** X12.  A cache hit in a reachable state: an output is connected, the
    identity is not empty, the timebase is not null, the file of the
    frame exists and opens.  On a stopped pipeline [Value] dereferences
    the master texture [Stop] has released: the call is undefined.  On a
    started pipeline an image larger than the readback buffer is read
    past the end of the buffer: undefined as well.  Otherwise [Value]
    returns the master texture, of the effective size and the format of
    the processor, holding the bytes of the image followed by what the
    buffer held behind them. *)
Theorem Value_cache_hit :
  forall (g : RendererProcessor) (env : Env) (time : rational) (w : World)
         (connected : nat) (pixels : Bytes.QByteArray),
    reachable g w ->
    connected_output w = Some connected ->
    isEmpty (cache_id_ (this w)) = false ->
    isNull (timebase_ (this w)) = false ->
    In (fst (CachePathName env time w)) (files w) ->
    open_image env (fst (CachePathName env time w)) = Some pixels ->
    (started_ (this w) = false ->
     Value env texture_output_ time w = Undefined)
    /\ (started_ (this w) = true ->
        (List.length (cache_frame_load_buffer_ (this w)) < List.length pixels)%nat ->
        Value env texture_output_ time w = Undefined)
    /\ (started_ (this w) = true ->
        (List.length pixels <= List.length (cache_frame_load_buffer_ (this w)))%nat ->
        exists t w',
          Value env texture_output_ time w = Done (VTexture t, w')
          /\ master_texture_ (this w') = Some t
          /\ tex_width t = effective_width_ (this w)
          /\ tex_height t = effective_height_ (this w)
          /\ tex_format t = format_ (this w)
          /\ tex_pixels t
             = pixels ++ skipn (List.length pixels) (cache_frame_load_buffer_ (this w))).
Proof.
  intros g env time w connected pixels Hr Hc Hid Htb Hin Hopen.
  pose proof (resources_inv_reachable Hr) as [Hoff Hon].
  unfold Value. rewrite Hc, Hid, Htb.
  pose proof (this_CachePathName env time w) as Ht.
  pose proof (files_CachePathName env time w) as Hf.
  destruct (CachePathName env time w) as [fn w1]. simpl in Ht, Hf, Hin, Hopen.
  assert (He : file_exists fn w1 = true) by (apply file_exists_In; rewrite Hf; exact Hin).
  rewrite He, Hopen, Ht. split; [|split].
  - intros Hs. destruct (Hoff Hs) as [_ [_ [Hm Hb]]]. rewrite Hb.
    destruct pixels as [|p pixels]; [|reflexivity].
    unfold Bytes.poke, bind; simpl. rewrite Hm. reflexivity.
  - intros _ Hl. rewrite (poke_too_long _ _ Hl). reflexivity.
  - intros Hs Hl. rewrite (poke_front _ _ Hl). unfold bind.
    destruct (Hon Hs) as [_ [[t [Hm [D1 [D2 D3]]]] _]]. rewrite Hm.
    eexists. eexists. split; [reflexivity|]. rewrite this_on_this.
    split; [reflexivity|]. simpl. repeat split; assumption.
Qed.

Lemma Value_cache_hit_witness :
  reachable Samples.leftover Scenarios.screening
  /\ exists t w',
       Value Scenarios.projector texture_output_ 0 Scenarios.screening
       = Done (VTexture t, w')
       /\ tex_width t = 4%Z /\ tex_height t = 2%Z
       /\ firstn 4 (tex_pixels t) = [x01; x02; x03; x04].
Proof.
  split; [exact screening_reachable|].
  destruct (proj2 (proj2 (@Value_cache_hit Samples.leftover Scenarios.projector 0
                            Scenarios.screening 5%nat [x01; x02; x03; x04]
                            screening_reachable eq_refl eq_refl eq_refl
                            (or_introl eq_refl) eq_refl))
                  eq_refl
                  (proj1 (Nat.leb_le 4 (List.length (cache_frame_load_buffer_
                                                       (this Scenarios.screening))))
                         eq_refl))
    as [t [w' [H [_ [D1 [D2 [_ P]]]]]]].
  exists t, w'. split; [exact H|]. split; [exact D1|]. split; [exact D2|].
  rewrite P. reflexivity.
Defined.

Lemma threads_Stop_released : forall r, resources_inv r -> threads_ (Stop r) = [].
Proof. intros r H. destruct (released_Stop H) as [[A _] _]. exact A. Qed.

Lemma timebase_Stop : forall r, timebase_ (Stop r) = timebase_ r.
Proof. intros. unfold Stop. destruct (negb _); reflexivity. Qed.

Lemma InvalidateCache_while_caching : forall env fuel a b w,
  caching_ (this w) = true ->
  InvalidateCache env fuel a b w
  = (r <- InvalidateCache_enqueue fuel a b (this w) ;;
     Done (set_this r (write_log (Debug_invalidated (toDouble a) (toDouble b)) w))).
Proof.
  intros env fuel a b w Hc. unfold InvalidateCache.
  set (w0 := write_log (Debug_invalidated (toDouble a) (toDouble b)) w).
  change (this w0) with (this w).
  destruct (InvalidateCache_enqueue fuel a b (this w)) as [r1| |] eqn:E;
    unfold bind; try reflexivity.
  apply CacheNext_while_caching.
  unfold InvalidateCache_enqueue in E.
  destruct (snap_start _ _) as [s| |]; unfold bind in E; try discriminate.
  destruct (enqueue_loop _ _ _ _ _) as [q| |]; try discriminate.
  inversion E; subst r1. exact Hc.
Qed.

(** X13.  [Stop] leaves the caching flag alone.  When a reachable state
    is stopped while a frame is being cached, the flag stays set with no
    thread left to clear it.  Whenever a following invalidation returns,
    it has queued its timestamps behind those already queued and
    dispatched nothing: the pipeline is still stopped, with no thread
    and no render in flight.  And it does return, on every budget from
    some bound on, when the timebase is positive and the snapped start
    can be computed. *)
Theorem Stop_while_caching_stalls :
  forall (g : RendererProcessor) (env : Env)
         (start_range end_range : rational) (w : World),
    reachable g w ->
    caching_ (this w) = true ->
    (forall fuel w',
        InvalidateCache env fuel start_range end_range (on_this Stop w) = Done w' ->
        caching_ (this w') = true
        /\ started_ (this w') = false
        /\ threads_ (this w') = []
        /\ in_flight w' = 0%nat
        /\ exists added, cache_queue_ (this w') = cache_queue_ (this w) ++ added)
    /\ (0 < timebase_ (this w) ->
        forall true_start_range,
          snap_start (timebase_ (this w)) start_range = Done true_start_range ->
          exists fuel0, forall fuel, (fuel0 <= fuel)%nat ->
            exists w',
              InvalidateCache env fuel start_range end_range (on_this Stop w)
              = Done w').
Proof.
  intros g env a b w Hr Hc.
  pose proof (resources_inv_reachable Hr) as Hinv.
  destruct (released_Stop Hinv) as [[A _] Hs].
  assert (Hcs : caching_ (this (on_this Stop w)) = true).
  { rewrite this_on_this, caching_Stop. exact Hc. }
  split.
  - intros fuel w' H. rewrite (InvalidateCache_while_caching env fuel a b _ Hcs) in H.
    rewrite this_on_this in H.
    destruct (InvalidateCache_enqueue fuel a b (Stop (this w))) as [r1| |] eqn:E;
      unfold bind in H; try discriminate.
    inversion H; subst w'; clear H.
    unfold InvalidateCache_enqueue in E.
    destruct (snap_start _ _) as [s| |]; unfold bind in E; try discriminate.
    destruct (enqueue_loop _ _ _ _ _) as [q| |] eqn:El; try discriminate.
    inversion E; subst r1; clear E.
    destruct (enqueue_loop_appends _ _ _ _ _ El) as [added Ea].
    rewrite cache_queue_Stop in Ea.
    unfold in_flight.
    change (this (set_this (set_cache_queue_ q (Stop (this w)))
                    (write_log (Debug_invalidated (toDouble a) (toDouble b))
                               (on_this Stop w))))
      with (set_cache_queue_ q (Stop (this w))).
    cbn [caching_ started_ threads_ cache_queue_ set_cache_queue_].
    rewrite this_on_this in Hcs.
    rewrite Hcs, Hs, A. repeat split. exists added. exact Ea.
  - intros Ht s Hsnap.
    destruct (@enough_steps (timebase_ (this w)) (b - s) Ht) as [m Hm].
    destruct (@enqueue_loop_spec (timebase_ (this w)) b Ht m s
                (cache_queue_ (Stop (this w))) Hm) as [added [Hrun _]].
    exists (S m). intros fuel Hf.
    rewrite (InvalidateCache_while_caching env fuel a b _ Hcs).
    rewrite this_on_this. unfold InvalidateCache_enqueue.
    rewrite timebase_Stop, Hsnap. unfold bind at 2.
    rewrite Hrun by lia. unfold bind. eexists. reflexivity.
Qed.

Lemma Stop_while_caching_stalls_witness :
  caching_ (this Samples.film_caching) = true
  /\ 0 < timebase_ (this Samples.film_caching)
  /\ snap_start (timebase_ (this Samples.film_caching)) 0 = Done 0
  /\ (exists fuel0, forall fuel, (fuel0 <= fuel)%nat ->
        exists w',
          InvalidateCache Samples.env fuel 0 (1 # 10)
                          (on_this Stop Samples.film_caching) = Done w')
  /\ exists w',
       InvalidateCache Samples.env 10 0 (1 # 10) (on_this Stop Samples.film_caching)
       = Done w'
       /\ caching_ (this w') = true
       /\ started_ (this w') = false
       /\ in_flight w' = 0%nat.
Proof.
  split; [reflexivity|]. split; [reflexivity|]. split; [vm_compute; reflexivity|].
  split.
  - apply (proj2 (@Stop_while_caching_stalls Samples.leftover Samples.env 0 (1 # 10)
                    Samples.film_caching film_caching_reachable eq_refl)
                 eq_refl 0).
    vm_compute; reflexivity.
  - assert (H : exists w',
               InvalidateCache Samples.env 10 0 (1 # 10)
                               (on_this Stop Samples.film_caching) = Done w')
      by (eexists; vm_compute; reflexivity).
    destruct H as [w' H]. exists w'. split; [exact H|].
    destruct (proj1 (@Stop_while_caching_stalls Samples.leftover Samples.env 0 (1 # 10)
                       Samples.film_caching film_caching_reachable eq_refl)
                    10%nat w' H) as [A [B [_ [C _]]]].
    split; [exact A|]. split; [exact B|exact C].
Defined.

End ReadPathLaws.

(** ** Starting, stopping and reconfiguring *)

Section LifecycleLaws.
Import Rational Renderer Pipeline.

Lemma Stop_idempotent : forall r, Stop (Stop r) = Stop r.
Proof. intros r. unfold Stop. destruct (started_ r) eqn:E; simpl; [reflexivity|]. rewrite E. reflexivity. Qed.

Lemma Start_idempotent : forall env env' w, Start env' (Start env w) = Start env w.
Proof.
  intros env env' w. unfold Start at 1. rewrite started_Start. reflexivity.
Qed.

(** X14.  [Start] and [Stop] are idempotent, and in a reachable state
    whose pipeline is stopped, starting it and stopping it again gives
    the processor back as it was, the download counter apart, which
    [Start] has reset to 0. *)
Theorem Start_Stop_round_trip :
  forall (g : RendererProcessor) (env env' : Env) (w : World),
    reachable g w ->
    Start env' (Start env w) = Start env w
    /\ Stop (Stop (this w)) = Stop (this w)
    /\ (started_ (this w) = false ->
        Stop (this (Start env w)) = set_last_download_thread_ 0 (this w)).
Proof.
  intros g env env' w Hr. split; [apply Start_idempotent|].
  split; [apply Stop_idempotent|]. intros Hs.
  destruct (resources_inv_reachable Hr) as [Hoff _].
  destruct (Hoff Hs) as [A [B [C D]]].
  unfold Start. rewrite Hs. destruct w as [r c l d f sg n]. simpl in *.
  destruct r. simpl in *. subst. reflexivity.
Qed.

Lemma Start_Stop_round_trip_witness :
  reachable Samples.leftover Samples.film
  /\ Stop (this (Start Samples.env Samples.film))
     = set_last_download_thread_ 0 (this Samples.film).
Proof.
  split; [exact film_reachable|].
  exact (proj2 (proj2 (@Start_Stop_round_trip Samples.leftover Samples.env Samples.env
                         Samples.film film_reachable)) eq_refl).
Defined.

Lemma divider_GenerateCacheIDInternal : forall r,
  divider_ (GenerateCacheIDInternal r) = divider_ r.
Proof. intros. unfold GenerateCacheIDInternal. destruct (_ || _); reflexivity. Qed.

Lemma divider_CalculateEffectiveDimensions : forall r r',
  CalculateEffectiveDimensions r = Done r' -> divider_ r' = divider_ r.
Proof.
  intros r r' H. unfold CalculateEffectiveDimensions in H.
  destruct (int_div (width_ r) (divider_ r)); try discriminate.
  destruct (int_div (height_ r) (divider_ r)); try discriminate.
  simpl in H. inversion H; subst. reflexivity.
Qed.

Lemma divider_SetDivider : forall divider r r',
  SetDivider divider r = Done r' -> divider_ r' = divider.
Proof.
  intros divider r r' H. unfold SetDivider in H.
  destruct (negb _); [discriminate|]. unfold bind in H.
  destruct (CalculateEffectiveDimensions _) as [r2| |] eqn:E; try discriminate.
  inversion H; subst r'; clear H.
  rewrite divider_GenerateCacheIDInternal, (divider_CalculateEffectiveDimensions _ E).
  reflexivity.
Qed.

Lemma int_div_zero : forall a, int_div a 0 = Undefined.
Proof. reflexivity. Qed.

Lemma int_div_negative : forall a b,
  (b < 0)%Z -> (b = -1 -> a <> Double.INT_MIN)%Z -> int_div a b = Done (Z.quot a b).
Proof.
  intros a b Hb Hm. unfold int_div.
  replace (b =? 0)%Z with false by (symmetry; apply Z.eqb_neq; lia).
  destruct (b =? -1)%Z eqn:E.
  - apply Z.eqb_eq in E.
    replace (a =? Double.INT_MIN)%Z with false
      by (symmetry; apply Z.eqb_neq; apply Hm; exact E).
    reflexivity.
  - rewrite andb_false_r. reflexivity.
Qed.

(** X15.  [SetDivider] does not look at its argument before it stores
    it; what it asserts is about the divider the processor holds.  From
    a state with a positive divider, where the assertion holds, the
    argument 0 makes [CalculateEffectiveDimensions] divide by zero, and
    a negative argument is accepted: the call returns with the negative
    divider stored, the pipeline stopped, and the effective dimensions
    the truncated quotients of width and height by it.  (The one
    quotient that does not fit, [INT_MIN / -1], is excluded.) *)
Theorem SetDivider_trusts_its_argument :
  forall (r : RendererProcessor) (divider : Z),
    (0 < divider_ r)%Z ->
    SetDivider 0 r = Undefined
    /\ ((divider < 0)%Z ->
        (divider = -1 ->
         width_ r <> Double.INT_MIN /\ height_ r <> Double.INT_MIN)%Z ->
        exists r',
          SetDivider divider r = Done r'
          /\ divider_ r' = divider
          /\ started_ r' = false
          /\ effective_width_ r' = Z.quot (width_ r) divider
          /\ effective_height_ r' = Z.quot (height_ r) divider).
Proof.
  intros r divider Hd.
  assert (Hpass : negb (0 <? divider_ r)%Z = false)
    by (apply negb_false_iff, Z.ltb_lt; exact Hd).
  split.
  - unfold SetDivider. rewrite Hpass.
    unfold CalculateEffectiveDimensions, bind.
    change (divider_ (set_divider_ 0 (Stop r))) with 0%Z.
    rewrite int_div_zero. reflexivity.
  - intros Hneg Hmin. unfold SetDivider. rewrite Hpass.
    unfold CalculateEffectiveDimensions.
    change (divider_ (set_divider_ divider (Stop r))) with divider.
    assert (Hw : width_ (set_divider_ divider (Stop r)) = width_ r)
      by (unfold Stop; destruct (negb (started_ r)); reflexivity).
    assert (Hh : height_ (set_divider_ divider (Stop r)) = height_ r)
      by (unfold Stop; destruct (negb (started_ r)); reflexivity).
    rewrite Hw, Hh.
    rewrite !int_div_negative by (try exact Hneg; intros E; apply Hmin; exact E).
    unfold bind. eexists. split; [reflexivity|].
    rewrite GenerateCacheIDInternal_cases.
    assert (Hs : started_ (Stop r) = false)
      by (unfold Stop; destruct (started_ r) eqn:E; [reflexivity|exact E]).
    destruct (nothing_to_hash _); cbn [divider_ started_ effective_width_
      effective_height_ set_cache_id_ set_effective_height_ set_effective_width_
      set_divider_]; rewrite Hs; repeat split.
Qed.

Lemma SetDivider_trusts_its_argument_witness :
  (0 < divider_ Samples.thumbnail)%Z
  /\ SetDivider 0 Samples.thumbnail = Undefined
  /\ exists r',
       SetDivider (-2) Samples.thumbnail = Done r'
       /\ divider_ r' = (-2)%Z
       /\ effective_width_ r' = (-8)%Z.
Proof.
  split; [reflexivity|].
  split; [exact (proj1 (@SetDivider_trusts_its_argument Samples.thumbnail 0 eq_refl))|].
  destruct (proj2 (@SetDivider_trusts_its_argument Samples.thumbnail (-2) eq_refl)
                  eq_refl ltac:(discriminate))
    as [r' [H [D [_ [W _]]]]].
  exists r'. split; [exact H|]. split; [exact D|exact W].
Defined.

Ltac fields :=
  cbv [set_started_ set_width_ set_height_ set_divider_ set_effective_width_ set_effective_height_ set_format_ set_mode_ set_caching_ set_cache_name_ set_cache_time_ set_cache_id_ set_timebase_ set_cache_queue_ set_cache_frame_ set_threads_ set_download_threads_ set_last_download_thread_ set_master_thread_ set_master_texture_ set_cache_frame_load_buffer_
       started_ width_ height_ divider_ effective_width_ effective_height_ format_ mode_ caching_ cache_name_ cache_time_ cache_id_ timebase_ cache_queue_ cache_frame_ threads_ download_threads_ last_download_thread_ master_thread_ master_texture_ cache_frame_load_buffer_ negb].

Ltac fields_in H :=
  cbv [set_started_ set_width_ set_height_ set_divider_ set_effective_width_ set_effective_height_ set_format_ set_mode_ set_caching_ set_cache_name_ set_cache_time_ set_cache_id_ set_timebase_ set_cache_queue_ set_cache_frame_ set_threads_ set_download_threads_ set_last_download_thread_ set_master_thread_ set_master_texture_ set_cache_frame_load_buffer_
       started_ width_ height_ divider_ effective_width_ effective_height_ format_ mode_ caching_ cache_name_ cache_time_ cache_id_ timebase_ cache_queue_ cache_frame_ threads_ download_threads_ last_download_thread_ master_thread_ master_texture_ cache_frame_load_buffer_ negb] in H.

(** X16.  [SetParameters] is idempotent: when a call returns, the same
    call on the state it left returns that state unchanged; in
    particular the identity it generated is generated again. *)
Theorem SetParameters_idempotent :
  forall (width height : Z) (format : PixelFormat) (mode : RenderMode) (divider : Z)
         (r r' : RendererProcessor),
    SetParameters width height format mode divider r = Done r' ->
    SetParameters width height format mode divider r' = Done r'.
Proof.
  intros width height format mode divider r r' H.
  unfold SetParameters in H. unfold bind in H.
  destruct (CalculateEffectiveDimensions _) as [r2| |] eqn:E; try discriminate.
  inversion H; subst r'; clear H.
  unfold CalculateEffectiveDimensions, bind in E.
  destruct (int_div _ _) as [ew| |] eqn:Ew; try discriminate.
  destruct (int_div (height_ _) _) as [eh| |] eqn:Eh; try discriminate.
  inversion E; subst r2; clear E.
  destruct r as [st w0 h0 d0 ew0 eh0 f0 m0 ca cn ct ci tb cq cf th dt ld mt mx bf].
  unfold Stop in *.
  destruct st; destruct (0 <? divider)%Z eqn:Hd;
    fields_in Ew; fields_in Eh;
    rewrite !GenerateCacheIDInternal_cases; unfold nothing_to_hash; fields;
    destruct (isEmpty cn || (ew =? 0)%Z || (eh =? 0)%Z) eqn:Hn;
    unfold SetParameters, Stop; fields; rewrite ?Hd;
    unfold CalculateEffectiveDimensions; fields;
    rewrite Ew, Eh; unfold bind;
    rewrite GenerateCacheIDInternal_cases; unfold nothing_to_hash; fields;
    rewrite Hn; try reflexivity.
Qed.

Lemma SetParameters_idempotent_witness :
  exists r',
    SetParameters 16 8 1%Z kOnline 1 Samples.running = Done r'
    /\ SetParameters 16 8 1%Z kOnline 1 r' = Done r'.
Proof.
  assert (H : exists r', SetParameters 16 8 1%Z kOnline 1 Samples.running = Done r')
    by (eexists; vm_compute; reflexivity).
  destruct H as [r' H]. exists r'. split; [exact H|].
  exact (@SetParameters_idempotent 16 8 1%Z kOnline 1 Samples.running r' H).
Defined.

End LifecycleLaws.

(** ** Identities and cache files *)

Section IdentityLaws.
Import Rational Renderer Pipeline.
Local Open Scope string_scope.

Lemma be_bytes_length : forall n x, List.length (Sha1.be_bytes n x) = n.
Proof.
  induction n as [|n IH]; intros x; [reflexivity|].
  cbn [Sha1.be_bytes List.length]. rewrite IH. reflexivity.
Qed.

Lemma hash_length : forall msg, List.length (Sha1.hash msg) = 20%nat.
Proof.
  intros msg. unfold Sha1.hash. rewrite length_map, !length_app, !be_bytes_length.
  reflexivity.
Qed.

Lemma toHex_length : forall bs, List.length (Sha1.toHex bs) = (2 * List.length bs)%nat.
Proof. induction bs as [|b bs IH]; simpl; [reflexivity|]. rewrite IH. lia. Qed.

Lemma toHex_digits : forall bs, forallb is_hex_digit (Sha1.toHex bs) = true.
Proof.
  induction bs as [|b bs IH]; [reflexivity|].
  cbn [Sha1.toHex forallb]. rewrite IH, andb_true_r.
  destruct b; reflexivity.
Qed.

Lemma length_string_of_list_byte : forall l,
  String.length (string_of_list_byte l) = List.length l.
Proof.
  induction l as [|b l IH]; [reflexivity|].
  change (string_of_list_byte (b :: l))
    with (String (ascii_of_byte b) (string_of_list_byte l)).
  cbn [String.length List.length]. f_equal. exact IH.
Qed.

Lemma identity_of_well_formed : forall r, well_formed_id (identity_of r).
Proof.
  intros r. unfold well_formed_id, identity_of. split.
  - rewrite length_string_of_list_byte, toHex_length, hash_length. reflexivity.
  - rewrite list_byte_of_string_of_list_byte. apply toHex_digits.
Qed.

Lemma cache_id_Stop : forall r, cache_id_ (Stop r) = cache_id_ r.
Proof. intros. unfold Stop. destruct (negb _); reflexivity. Qed.

Lemma cache_id_Start : forall env w, cache_id_ (this (Start env w)) = cache_id_ (this w).
Proof. intros. unfold Start. destruct (started_ (this w)); reflexivity. Qed.

Lemma cache_id_CacheNext : forall env w w',
  CacheNext env w = Done w' -> cache_id_ (this w') = cache_id_ (this w).
Proof.
  intros env w w' H. unfold CacheNext in H.
  destruct (cache_queue_ (this w)) as [|first rest]; [inversion H; reflexivity|].
  destruct (connected_output w) as [c|]; [|inversion H; reflexivity].
  destruct (caching_ (this w)); [inversion H; reflexivity|].
  pose proof (cache_id_Start env w) as Hs.
  remember (Start env w) as w1 eqn:Ew1. clear Ew1.
  cbn [threads_ this on_this write_log] in H.
  change (threads_ (this (write_log (Debug_caching (toDouble first))
            (on_this (fun r => set_cache_frame_ first (set_cache_queue_ rest r)) w1))))
    with (threads_ (this w1)) in H.
  destruct (threads_ (this w1)) as [|master others]; [discriminate|].
  inversion H; subst w'; clear H. rewrite <- Hs. reflexivity.
Qed.

Lemma cache_id_ThreadCallback : forall env sender w w',
  ThreadCallback env sender w = Done w' -> cache_id_ (this w') = cache_id_ (this w).
Proof.
  intros env sender w w' H. unfold ThreadCallback in H.
  destruct (same_thread (master_thread_ (this w)) sender);
    [|inversion H; subst; reflexivity].
  set (w1 := on_this (set_caching_ false) w) in *.
  assert (H1 : cache_id_ (this w1) = cache_id_ (this w)) by reflexivity.
  clearbody w1.
  pose proof (this_CachePathName env (cache_frame_ (this w1)) w1) as Ht2.
  destruct (CachePathName env (cache_frame_ (this w1)) w1) as [fn w2].
  simpl in Ht2. rewrite <- Ht2 in H1.
  destruct (match connected_output w1 with
            | Some _ => get_value env (cache_frame_ (this w1))
            | None => None
            end) as [tex|].
  - destruct (Z.of_nat (List.length (download_threads_ (this w2))) =? 0)%Z;
      [discriminate|].
    destruct ((last_download_thread_ (this w2) <? 0)%Z
              || (Double.INT_MAX <=? last_download_thread_ (this w2))%Z);
      [discriminate|].
    unfold bind in H. apply cache_id_CacheNext in H. rewrite H, <- H1. reflexivity.
  - unfold bind in H. apply cache_id_CacheNext in H. rewrite H, <- H1.
    destruct (file_exists fn w2); reflexivity.
Qed.

Lemma cache_id_Value : forall env output time w v w',
  Value env output time w = Done (v, w') -> cache_id_ (this w') = cache_id_ (this w).
Proof.
  intros env output time w v w' H. unfold Value in H.
  destruct output; [|inversion H; subst; reflexivity].
  destruct (connected_output w); [|inversion H; subst; reflexivity].
  destruct (isEmpty _); [inversion H; subst; reflexivity|].
  destruct (isNull _); [inversion H; subst; reflexivity|].
  pose proof (this_CachePathName env time w) as Ht.
  destruct (CachePathName env time w) as [fn w1]. simpl in Ht.
  destruct (file_exists fn w1); [|inversion H; subst; rewrite Ht; reflexivity].
  destruct (open_image env fn) as [pixels|];
    [|inversion H; subst; rewrite Ht; reflexivity].
  destruct (Bytes.poke _ _ _) as [buffer| |]; unfold bind in H; try discriminate.
  destruct (master_texture_ (this w1)) as [t|] eqn:Hm; [|discriminate].
  inversion H; subst v w'; clear H. rewrite <- Ht. reflexivity.
Qed.

Lemma cache_id_GenerateCacheIDInternal : forall r,
  cache_id_ (GenerateCacheIDInternal r) = cache_id_ r
  \/ cache_id_ (GenerateCacheIDInternal r) = identity_of r.
Proof.
  intros r. rewrite GenerateCacheIDInternal_cases.
  destruct (nothing_to_hash r); [left|right]; reflexivity.
Qed.

Lemma cache_id_reconfigure : forall r r1 r2,
  cache_id_ r1 = cache_id_ r ->
  CalculateEffectiveDimensions r1 = Done r2 ->
  cache_id_ (GenerateCacheIDInternal r2) = cache_id_ r
  \/ well_formed_id (cache_id_ (GenerateCacheIDInternal r2)).
Proof.
  intros r r1 r2 E H. unfold CalculateEffectiveDimensions in H.
  destruct (int_div (width_ r1) (divider_ r1)) as [ew| |]; try discriminate.
  destruct (int_div (height_ r1) (divider_ r1)) as [eh| |]; try discriminate.
  unfold bind in H. inversion H; subst r2; clear H.
  destruct (cache_id_GenerateCacheIDInternal
              (set_effective_height_ eh (set_effective_width_ ew r1))) as [K|K];
    rewrite K; [left; exact E|right; apply identity_of_well_formed].
Qed.

Lemma cache_id_exec : forall env fuel ev w w',
  exec env fuel ev w = Done w' ->
  cache_id_ (this w') = cache_id_ (this w) \/ well_formed_id (cache_id_ (this w')).
Proof.
  intros env fuel ev w w' H. destruct ev; cbn [exec] in H.
  - inversion H; subst w'; clear H. rewrite this_on_this. unfold SetCacheName.
    destruct (cache_id_GenerateCacheIDInternal
                (set_cache_time_ now (set_cache_name_ s (this w)))) as [K|K];
      rewrite K; [left; reflexivity|right; apply identity_of_well_formed].
  - destruct (Value env output time w) as [[v w1]| |] eqn:E; unfold bind in H;
      try discriminate.
    inversion H; subst w'; clear H. left. eapply cache_id_Value; eauto.
  - inversion H; subst w'; clear H. rewrite this_on_this. left. apply cache_id_Stop.
  - unfold InvalidateCache in H.
    destruct (InvalidateCache_enqueue _ _ _ _) as [r1| |] eqn:E; unfold bind in H;
      try discriminate.
    apply cache_id_CacheNext in H. left. rewrite H.
    unfold InvalidateCache_enqueue in E.
    destruct (snap_start _ _) as [s| |]; unfold bind in E; try discriminate.
    destruct (enqueue_loop _ _ _ _ _) as [q| |]; try discriminate.
    inversion E; subst r1. reflexivity.
  - inversion H; subst w'; clear H. left. reflexivity.
  - unfold lift in H.
    destruct (SetParameters _ _ _ _ _ _) as [r1| |] eqn:E; unfold bind in H;
      try discriminate.
    inversion H; subst w'; clear H. change (this (set_this r1 w)) with r1.
    unfold SetParameters, bind in E.
    destruct (CalculateEffectiveDimensions _) as [r2| |] eqn:Ec; try discriminate.
    inversion E; subst r1; clear E.
    eapply cache_id_reconfigure; [|exact Ec].
    destruct (0 <? divider)%Z;
      cbv [set_divider_ set_mode_ set_format_ set_height_ set_width_ cache_id_];
      fold (cache_id_ (Stop (this w))); apply cache_id_Stop.
  - unfold lift in H.
    destruct (SetDivider _ _) as [r1| |] eqn:E; unfold bind in H; try discriminate.
    inversion H; subst w'; clear H. change (this (set_this r1 w)) with r1.
    unfold SetDivider in E. destruct (negb _); [discriminate|]. unfold bind in E.
    destruct (CalculateEffectiveDimensions _) as [r2| |] eqn:Ec; try discriminate.
    inversion E; subst r1; clear E.
    eapply cache_id_reconfigure; [|exact Ec].
    cbv [set_divider_ cache_id_]; fold (cache_id_ (Stop (this w))); apply cache_id_Stop.
  - inversion H; subst w'; clear H. left. apply cache_id_Start.
  - inversion H; subst w'; clear H. left. rewrite this_on_this. apply cache_id_Stop.
  - destruct (signals w) as [|sender rest]; [discriminate|].
    left. apply cache_id_ThreadCallback in H. exact H.
  - inversion H; subst w'; clear H. left. reflexivity.
  - unfold worker_done in H.
    destruct (complete_front tid (threads_ (this w))) as [[primary ts]|]; [|discriminate].
    inversion H; subst w'; clear H. left. destruct primary; reflexivity.
  - inversion H; subst w'; clear H. left. reflexivity.
  - inversion H; subst w'; clear H. left. reflexivity.
Qed.

Lemma cache_id_reachable : forall g w,
  reachable g w ->
  cache_id_ (this w) = EmptyString \/ well_formed_id (cache_id_ (this w)).
Proof.
  intros g w Hr. induction Hr as [|w w' env fuel ev Hr IH H].
  - left. reflexivity.
  - destruct (cache_id_exec _ _ _ _ H) as [K|K]; [rewrite K; exact IH|right; exact K].
Qed.

(** X17.  In every reachable state the identity is either empty, as the
    constructor leaves it, or forty lower-case hexadecimal digits, the
    output of [toHex] on a SHA-1 digest; and every event leaves the
    identity as it is or replaces it by forty such digits, so an
    identity once generated is never emptied. *)
Theorem cache_id_is_empty_or_forty_hex_digits :
  forall (g : RendererProcessor) (w : World),
    reachable g w ->
    (cache_id_ (this w) = EmptyString \/ well_formed_id (cache_id_ (this w)))
    /\ forall env fuel ev w',
         exec env fuel ev w = Done w' ->
         cache_id_ (this w') = cache_id_ (this w)
         \/ well_formed_id (cache_id_ (this w')).
Proof.
  intros g w Hr. split; [exact (cache_id_reachable Hr)|].
  intros env fuel ev w' H. exact (cache_id_exec _ _ _ _ H).
Qed.

Lemma cache_id_is_empty_or_forty_hex_digits_witness :
  reachable Samples.leftover Scenarios.screening
  /\ well_formed_id (cache_id_ (this Scenarios.screening)).
Proof.
  split; [exact screening_reachable|].
  destruct (proj1 (@cache_id_is_empty_or_forty_hex_digits Samples.leftover
                     Scenarios.screening screening_reachable)) as [E|E]; [|exact E].
  vm_compute in E. discriminate E.
Defined.

Lemma append_assoc' : forall a b c : string, (a ++ b) ++ c = a ++ (b ++ c).
Proof. induction a as [|x a IH]; intros; simpl; [reflexivity|]. rewrite IH. reflexivity. Qed.

Lemma append_inv_head : forall s a b : string, s ++ a = s ++ b -> a = b.
Proof.
  induction s as [|x s IH]; intros a b H; simpl in H; [exact H|].
  inversion H. apply IH. assumption.
Qed.

Lemma append_same_length : forall a a' x x' : string,
  String.length a = String.length a' -> a ++ x = a' ++ x' -> a = a' /\ x = x'.
Proof.
  induction a as [|c a IH]; intros [|c' a'] x x' Hl H; simpl in *; try discriminate.
  - split; [reflexivity|exact H].
  - inversion H; subst. destruct (IH a' x x') as [A B]; [lia|assumption|].
    subst. split; reflexivity.
Qed.

Lemma append_split_at : forall (c : ascii) (a a' x x' : string),
  mentions c a = false -> mentions c a' = false ->
  a ++ String c x = a' ++ String c x' -> a = a' /\ x = x'.
Proof.
  intros c. induction a as [|k a IH]; intros [|k' a'] x x' Ha Ha' H; simpl in *.
  - inversion H. split; reflexivity.
  - inversion H; subst. rewrite Ascii.eqb_refl in Ha'. discriminate.
  - inversion H; subst. rewrite Ascii.eqb_refl in Ha. discriminate.
  - inversion H; subst. apply orb_false_iff in Ha, Ha'.
    destruct (IH a' x x') as [A B]; try tauto. subst. split; reflexivity.
Qed.

Lemma string_of_uint_digits : forall d, mentions "." (NilEmpty.string_of_uint d) = false.
Proof. induction d; simpl; auto. Qed.

Lemma number_digits : forall z, mentions "." (number z) = false.
Proof.
  intros z. unfold number, NilZero.string_of_int.
  destruct (Z.to_int z) as [d|d].
  - unfold NilZero.string_of_uint. destruct d; try apply string_of_uint_digits.
    reflexivity.
  - simpl. destruct d; try apply string_of_uint_digits; reflexivity.
Qed.

Lemma file_name_inj : forall t t' : rational,
  number (numerator t) ++ "." ++ number (denominator t) ++ ".exr"
  = number (numerator t') ++ "." ++ number (denominator t') ++ ".exr" ->
  t = t'.
Proof.
  intros t t' H.
  apply append_split_at in H; try apply number_digits. destruct H as [Hn H].
  apply append_split_at in H; try apply number_digits. destruct H as [Hd _].
  apply number_inj in Hn, Hd. destruct t, t'. unfold numerator, denominator in *.
  simpl in *. inversion Hd. subst. reflexivity.
Qed.

Lemma directories_mkpath_twice : forall dir w,
  mkpath dir (mkpath dir w) = mkpath dir w.
Proof.
  intros dir w. unfold mkpath.
  destruct (existsb (String.eqb dir) (directories w)) eqn:E.
  - rewrite E. reflexivity.
  - simpl. rewrite String.eqb_refl. reflexivity.
Qed.

(** X18.  [CachePathName] names one file per identity and timestamp:
    for identities of the same length, two calls give the same path only
    for the same identity and the same numerator and denominator.  The
    call changes nothing of the processor and no file, and a second call
    does not create the directory again. *)
Theorem CachePathName_one_file_per_frame :
  forall (env : Env) (w w' : World) (t t' : rational),
    (String.length (cache_id_ (this w)) = String.length (cache_id_ (this w')) ->
     fst (CachePathName env t w) = fst (CachePathName env t' w') ->
     cache_id_ (this w) = cache_id_ (this w') /\ t = t')
    /\ this (snd (CachePathName env t w)) = this w
    /\ files (snd (CachePathName env t w)) = files w
    /\ snd (CachePathName env t' (snd (CachePathName env t w)))
       = snd (CachePathName env t w).
Proof.
  intros env w w' t t'. split; [|split; [|split]].
  - intros Hl H. unfold CachePathName, filePath in H. cbn [fst] in H.
    rewrite !append_assoc' in H. apply append_inv_head in H.
    change ("/" ++ ?x) with (String "/" x) in H.
    cbn [String.append] in H. inversion H as [H1]. clear H.
    apply append_same_length in H1; [|exact Hl]. destruct H1 as [A B].
    inversion B as [B1]. split; [exact A|]. apply file_name_inj. exact B1.
  - apply this_CachePathName.
  - apply files_CachePathName.
  - unfold CachePathName. cbn [snd].
    assert (E : cache_id_ (this (mkpath (filePath (GetMediaCacheLocation env)
                                                  (cache_id_ (this w))) w))
                = cache_id_ (this w)).
    { unfold mkpath. destruct (existsb _ _); reflexivity. }
    rewrite E. apply directories_mkpath_twice.
Qed.

Lemma CachePathName_one_file_per_frame_witness :
  String.length (cache_id_ (this Samples.film))
  = String.length (cache_id_ (this Samples.film_caching))
  /\ fst (CachePathName Samples.env (1 # 24) Samples.film)
     <> fst (CachePathName Samples.env (1 # 12) Samples.film_caching).
Proof.
  split; [reflexivity|]. intros H.
  destruct (proj1 (@CachePathName_one_file_per_frame Samples.env Samples.film
                     Samples.film_caching (1 # 24) (1 # 12)) eq_refl H) as [_ E].
  discriminate E.
Defined.

End IdentityLaws.

(** ** Audio blocks *)

Section AudioLaws.
Import Rational Bytes Audio.

Lemma chunk_reversed_concat : forall s n (cs : list (list byte)),
  List.length cs = n ->
  Forall (fun c => List.length c = s) cs ->
  chunk_reversed s (List.concat cs) (List.concat (rev cs)).
Proof.
  intros s n. induction n as [n IH] using lt_wf_ind. intros cs Hn Hcs.
  destruct cs as [|c1 cs]; [constructor|].
  destruct cs as [|c cs'].
  - simpl. rewrite app_nil_r. apply cr_one. inversion Hcs; assumption.
  - destruct (@exists_last _ (c :: cs')) as [mid [c2 E]]; [discriminate|].
    rewrite E in *. clear E c cs'.
    rewrite Forall_cons_iff, Forall_app in Hcs.
    destruct Hcs as [H1 [Hmid H2]]. inversion H2 as [|? ? H2' _]; subst.
    replace (List.concat (c1 :: mid ++ [c2])) with (c1 ++ List.concat mid ++ c2)
      by (simpl; rewrite concat_app; simpl; rewrite app_nil_r; reflexivity).
    replace (List.concat (rev (c1 :: mid ++ [c2])))
      with (c2 ++ List.concat (rev mid) ++ c1)
      by (simpl; rewrite rev_app_distr; simpl; rewrite concat_app; simpl;
          rewrite app_nil_r; reflexivity).
    apply cr_swap; auto.
    apply (IH (List.length mid)); auto.
    simpl. rewrite length_app. simpl. lia.
Qed.

(** X19.  On a buffer made of whole samples the reversal loop returns
    the samples in the opposite order, the bytes inside each sample in
    the order they had. *)
Theorem reverse_samples_reverses_the_samples :
  forall (p : AudioRenderingParams) (samples : list (list byte)) (fuel : nat),
    (0 < samples_to_bytes p 1)%Z ->
    Forall (fun c => size c = samples_to_bytes p 1) samples ->
    (List.length (List.concat samples) < fuel)%nat ->
    reverse_samples fuel p (List.concat samples) = Done (List.concat (rev samples)).
Proof.
  intros p samples fuel Hpos Hall Hfuel.
  set (s := Z.to_nat (samples_to_bytes p 1)).
  assert (Hs : (0 < s)%nat) by (unfold s; lia).
  assert (Hzs : samples_to_bytes p 1 = Z.of_nat s) by (unfold s; lia).
  assert (Hall' : Forall (fun c : list byte => List.length c = s) samples).
  { eapply Forall_impl; [|exact Hall]. intros c Hc. unfold size in Hc. lia. }
  pose proof (@chunk_reversed_concat s _ samples eq_refl Hall') as Hcr.
  unfold reverse_samples. rewrite Hzs.
  pose proof (@reverse_loop_chunks s _ _ Hs Hcr fuel [] [] (size (List.concat samples) / 2)%Z
                eq_refl Hfuel) as H.
  cbn [List.app] in H. rewrite !app_nil_r in H. change (size []) with 0%Z in H.
  rewrite Z.quot_div_nonneg by (try apply size_nonneg; lia).
  apply H. lia.
Qed.

Lemma reverse_samples_reverses_the_samples_witness :
  reverse_samples 7 AudioSamples.pcm16 AudioSamples.six_bytes
  = Done [x05; x06; x03; x04; x01; x02].
Proof.
  apply (@reverse_samples_reverses_the_samples AudioSamples.pcm16
           [[x01; x02]; [x03; x04]; [x05; x06]] 7).
  - reflexivity.
  - repeat constructor.
  - apply (proj1 (Nat.ltb_lt _ _)). reflexivity.
Defined.

Lemma poke_nothing : forall (b : QByteArray) off,
  (0 <= off <= size b)%Z -> poke b off [] = Done b.
Proof.
  intros b off H. unfold poke, in_bounds. change (size []) with 0%Z.
  replace ((0 <=? off)%Z && (0 <=? 0)%Z && (off + 0 <=? size b)%Z) with true
    by (symmetry; rewrite !andb_true_iff, !Z.leb_le; lia).
  cbn [List.length List.app]. rewrite Nat.add_0_r, firstn_skipn. reflexivity.
Qed.

Lemma peek_nothing : forall (b : QByteArray) off,
  (0 <= off <= size b)%Z -> peek b off 0 = Done [].
Proof.
  intros b off H. unfold peek, in_bounds.
  replace ((0 <=? off)%Z && (0 <=? 0)%Z && (off + 0 <=? size b)%Z) with true
    by (symmetry; rewrite !andb_true_iff, !Z.leb_le; lia).
  reflexivity.
Qed.

(** X20.  With audio parameters that give a sample zero bytes the
    reversal loop never advances: on a buffer of two bytes or more no
    amount of fuel lets it return. *)
Theorem reverse_samples_zero_sample_size :
  forall (p : AudioRenderingParams) (buf : QByteArray) (fuel : nat),
    samples_to_bytes p 1 = 0%Z ->
    (2 <= size buf)%Z ->
    reverse_samples fuel p buf = OutOfFuel.
Proof.
  intros p buf fuel Hz Hsz. unfold reverse_samples. rewrite Hz.
  assert (Hh : (0 < Z.quot (size buf) 2)%Z).
  { rewrite Z.quot_div_nonneg by lia. apply Z.div_str_pos. lia. }
  induction fuel as [|fuel IH]; [reflexivity|].
  cbn [reverse_loop].
  replace (0 <? Z.quot (size buf) 2)%Z with true by (symmetry; apply Z.ltb_lt; exact Hh).
  rewrite Z.sub_0_r.
  rewrite !peek_nothing by lia. unfold bind at 1 2.
  rewrite poke_nothing by lia. unfold bind at 1.
  rewrite poke_nothing by lia. unfold bind at 1.
  exact IH.
Qed.

Lemma reverse_samples_zero_sample_size_witness :
  reverse_samples 100 AudioScenarios.sizeless AudioSamples.six_bytes = OutOfFuel.
Proof.
  apply (@reverse_samples_zero_sample_size AudioScenarios.sizeless
           AudioSamples.six_bytes 100).
  - reflexivity.
  - vm_compute; discriminate.
Defined.

Lemma speed_loop_stuck : forall fuel p samples count acc,
  Double.ltb Double.zero (Double.of_int count) = true ->
  speed_loop fuel p samples count Double.zero Double.zero acc = OutOfFuel.
Proof.
  induction fuel as [|fuel IH]; intros p samples count acc H; [reflexivity|].
  cbn [speed_loop]. rewrite H.
  change (Double.qFloor Double.zero) with (Done 0%Z). unfold bind.
  change (Double.add Double.zero Double.zero) with Double.zero.
  apply IH. exact H.
Qed.

(** X21.  A clip speed of 0 stalls the resampling loop: when the buffer
    holds at least one sample, [i] stays at 0, one more copy of the first
    sample is appended on every turn, and no amount of fuel lets the
    loop return. *)
Theorem speed_adjust_zero_speed :
  forall (p : AudioRenderingParams) (samples : QByteArray) (fuel : nat),
    Double.ltb Double.zero (Double.of_int (bytes_to_samples p (size samples))) = true ->
    speed_adjust fuel p Double.zero samples = OutOfFuel.
Proof.
  intros p samples fuel H. unfold speed_adjust. apply speed_loop_stuck. exact H.
Qed.

Lemma speed_adjust_zero_speed_witness :
  speed_adjust 100 AudioSamples.pcm16 Double.zero AudioSamples.six_bytes = OutOfFuel.
Proof.
  apply (@speed_adjust_zero_speed AudioSamples.pcm16 AudioSamples.six_bytes 100).
  vm_compute; reflexivity.
Defined.

Lemma size_repeat : forall (x : byte) n, size (repeat x n) = Z.of_nat n.
Proof. intros. unfold size. rewrite repeat_length. reflexivity. Qed.

(** X22.  One turn of the loop of [RenderBlock] for a block played at
    its own speed and not reversed, when the larger of the samples and
    the block's share of the range lies inside the output buffer: the
    bytes before the block's offset and the bytes behind that share stay
    as they are; the samples are copied to the offset in full, also
    where they are longer than the block's share; and where they are
    shorter the rest of the share is set to zero. *)
Theorem render_one_plain_block :
  forall (fuel : nat) (p : AudioRenderingParams)
         (ProcessNode : Block -> TimeRange -> NodeValueTable)
         (range : TimeRange) (b : Block) (before span after : QByteArray),
    let range_for_block :=
      {| in_ := qMax (block_in b) (in_ range);
         out_ := qMin (block_out b) (out_ range) |} in
    let samples := toByteArray (fst (Take kSamples (ProcessNode b range_for_block))) in
    let offset := time_to_bytes p (sub (in_ range_for_block) (in_ range)) in
    let maximum := time_to_bytes p (TimeRange_length range_for_block) in
    eqb (media_length b) (block_length b) = true ->
    is_reversed b = false ->
    size before = offset ->
    size span = Z.max (size samples) maximum ->
    render_one fuel p ProcessNode range b (before ++ span ++ after)
    = Done (before ++ samples
            ++ repeat x00 (Z.to_nat (maximum - size samples)) ++ after).
Proof.
  intros fuel p PN range b before span after rfb samples offset maximum
         Hsp Hrev Hoff Hspan.
  unfold render_one. fold rfb. fold samples. fold offset. fold maximum.
  pose proof (size_nonneg samples) as Hs0.
  set (C := firstn (List.length samples) span).
  set (Z0 := skipn (List.length samples) span).
  assert (Hsplit : span = C ++ Z0) by (symmetry; apply firstn_skipn).
  assert (HC : List.length C = List.length samples).
  { unfold C. rewrite length_firstn. unfold size in Hspan. lia. }
  assert (HZ : List.length Z0 = Z.to_nat (maximum - size samples)).
  { unfold Z0. rewrite length_skipn. unfold size in *. lia. }
  rewrite Hsplit, <- app_assoc. rewrite <- Hoff.
  destruct samples as [|x xs] eqn:Hs.
  - unfold bind at 1. change (size []) with 0%Z in *.
    destruct C; [|discriminate]. cbn [List.app].
    destruct (0 <? maximum)%Z eqn:Hm.
    + unfold memset. rewrite Z.sub_0_r in *.
      replace (maximum <? 0)%Z with false by (symmetry; apply Z.ltb_ge; lia).
      rewrite Z.add_0_r.
      change (before ++ Z0 ++ after) with (before ++ Z0 ++ after).
      apply poke_app. rewrite repeat_length. lia.
    + apply Z.ltb_ge in Hm. rewrite Z.sub_0_r in *.
      replace (Z.to_nat maximum) with 0%nat in * by lia.
      destruct Z0; [reflexivity|discriminate].
  - rewrite <- Hs in *. rewrite Hsp, Hrev. cbn [negb]. cbv iota.
    unfold bind at 3. unfold bind at 2.
    rewrite (@poke_app before C samples (Z0 ++ after)) by (symmetry; exact HC).
    unfold bind at 2. unfold bind at 1.
    destruct (size samples <? maximum)%Z eqn:Hm.
    + unfold memset.
      replace (maximum - size samples <? 0)%Z with false
        by (symmetry; apply Z.ltb_ge; apply Z.ltb_lt in Hm; lia).
      rewrite <- size_app. rewrite (app_assoc before samples).
      rewrite poke_app by (rewrite repeat_length; lia).
      rewrite <- app_assoc. reflexivity.
    + apply Z.ltb_ge in Hm.
      replace (Z.to_nat (maximum - size samples)) with 0%nat in * by lia.
      destruct Z0; [reflexivity|discriminate].
Qed.

Lemma render_one_plain_block_witness :
  render_one 1 AudioSamples.pcm16 (AudioSamples.node 6) AudioSamples.one_second
             AudioSamples.clip (repeat x00 8)
  = Done (repeat x01 6 ++ repeat x00 2).
Proof.
  exact (@render_one_plain_block 1 AudioSamples.pcm16 (AudioSamples.node 6)
           AudioSamples.one_second AudioSamples.clip [] (repeat x00 8) []
           eq_refl eq_refl eq_refl eq_refl).
Defined.

(** X23.  Whenever [RenderBlock] returns, the table it returns holds
    one value and no more: the samples, as long as the range is in
    bytes.  Nothing the nodes of the blocks put into their tables
    besides samples reaches the caller, the result of [Merge] being
    dropped; and with no active block the samples are all zero. *)
Theorem RenderBlock_returns_only_samples :
  forall (fuel : nat) (p : AudioRenderingParams)
         (ProcessNode : Block -> TimeRange -> NodeValueTable)
         (track : TrackOutput) (range : TimeRange) (table : NodeValueTable),
    RenderBlock fuel p ProcessNode track range = Done table ->
    exists buf,
      table = [(kSamples, Bytes buf)]
      /\ size buf = Z.max 0 (time_to_bytes p (TimeRange_length range))
      /\ (BlocksAtTimeRange track range = [] -> Forall (fun x => x = x00) buf)
      /\ forall t, t <> kSamples -> Get t table = Invalid.
Proof.
  intros fuel p PN track range table H. unfold RenderBlock in H.
  destruct (render_blocks _ _ _ _ _ _) as [buf| |] eqn:Hb; unfold bind in H;
    try discriminate.
  inversion H; subst table; clear H. exists buf. split; [reflexivity|].
  split; [|split].
  - apply render_blocks_length in Hb. unfold size. rewrite Hb.
    unfold filled. rewrite repeat_length. lia.
  - intros E. rewrite E in Hb. simpl in Hb. inversion Hb; subst buf.
    unfold filled. apply Forall_forall. intros x Hx. apply repeat_spec in Hx. exact Hx.
  - intros t Ht. unfold Get, Push. simpl. destruct t; try reflexivity. congruence.
Qed.

Lemma RenderBlock_returns_only_samples_witness :
  exists buf,
    RenderBlock 1 AudioSamples.pcm16 AudioScenarios.tagged AudioSamples.track
                AudioSamples.one_second
    = Done [(kSamples, Bytes buf)]
    /\ size buf = 8%Z
    /\ Get (kOther 7) [(kSamples, Bytes buf)] = Invalid.
Proof.
  assert (H : exists table,
             RenderBlock 1 AudioSamples.pcm16 AudioScenarios.tagged AudioSamples.track
                         AudioSamples.one_second = Done table)
    by (eexists; vm_compute; reflexivity).
  destruct H as [table H].
  destruct (@RenderBlock_returns_only_samples 1 AudioSamples.pcm16
              AudioScenarios.tagged AudioSamples.track AudioSamples.one_second
              table H) as [buf [E [S [_ G]]]].
  exists buf. rewrite <- E. split; [exact H|]. split; [exact S|].
  apply G. discriminate.
Defined.

End AudioLaws.

(** ** The project file *)

Section DocumentLaws.
Import ProjectSave Document.

Lemma tag_stack_app : forall a b stack,
  tag_stack (a ++ b) stack = tag_stack b (tag_stack a stack).
Proof.
  induction a as [|w a IH]; intros b stack; [reflexivity|].
  destruct w; cbn [List.app tag_stack]; apply IH.
Qed.

Lemma written_writes : forall ws, written (map FileWrite ws) = ws.
Proof. induction ws as [|w ws IH]; simpl; [reflexivity|]. f_equal. exact IH. Qed.

Lemma written_Action : forall p,
  written (Action p true) = preamble ++ Save p ++ [EndElement; EndDocument].
Proof.
  intros p. unfold Action, written. rewrite !flat_map_app.
  change (flat_map _ (map FileWrite ?ws)) with (written (map FileWrite ws)).
  rewrite written_writes. simpl. rewrite !app_nil_r. reflexivity.
Qed.

(** X24.  What [Action] writes.  When the file does not open, nothing
    reaches the writer.  When it opens, the writer gets the document
    start, the [olive] start tag and the version element, then what
    [Project::Save] writes, then one end tag and the document end; the
    file is closed after that and [Succeeded] comes last.  Whatever
    [Project::Save] writes, no element is open at the end, the document
    end closing what is left.  The one end tag of [Action] closes the
    innermost of the elements [Project::Save] leaves open inside
    [olive]; it closes [olive] when [Project::Save] closes what it
    opens. *)
Theorem Action_closes_what_Save_leaves_open :
  forall p : Project,
    written (Action p false) = []
    /\ written (Action p true) = preamble ++ Save p ++ [EndElement; EndDocument]
    /\ tag_stack (written (Action p true)) [] = []
    /\ tag_stack (preamble ++ Save p ++ [EndElement]) []
       = tl (tag_stack (Save p) ["olive"%string])
    /\ (tag_stack (Save p) ["olive"%string] = ["olive"%string] ->
        tag_stack (preamble ++ Save p ++ [EndElement]) [] = [])
    /\ exists body, Action p true
                    = FileOpened (filename p) :: FileWrite StartDocument :: body
                      ++ [FileWrite EndDocument; FileClosed; Succeeded].
Proof.
  intros p. split; [reflexivity|]. split; [apply written_Action|].
  assert (E : tag_stack (preamble ++ Save p ++ [EndElement]) []
              = tl (tag_stack (Save p) ["olive"%string])).
  { rewrite !tag_stack_app. reflexivity. }
  split; [|split; [|split]].
  - rewrite written_Action, !tag_stack_app. reflexivity.
  - exact E.
  - intros H. rewrite E, H. reflexivity.
  - exists (FileWrite (StartElement "olive") :: FileWrite (TextElement "version" "0.2.0")
            :: map FileWrite (Save p) ++ [FileWrite EndElement]).
    unfold Action. cbn [List.app map]. rewrite !map_app. cbn [map List.app].
    rewrite <- !app_assoc. reflexivity.
Qed.

Lemma Action_closes_what_Save_leaves_open_witness :
  tag_stack (Save DocumentScenarios.reel) ["olive"%string] = ["olive"%string]
  /\ tag_stack (preamble ++ Save DocumentScenarios.reel ++ [EndElement]) [] = [].
Proof.
  split; [reflexivity|].
  apply (proj1 (proj2 (proj2 (proj2 (proj2 (@Action_closes_what_Save_leaves_open
                                              DocumentScenarios.reel)))))).
  reflexivity.
Defined.

End DocumentLaws.
